(** * Crypto price alert: monitoring engine and delivery queue

    A shallow embedding of the alert engine (index/group manager,
    condition evaluator, group tick) and of the notification worker
    (delivery queue with retry), followed by the properties proved
    about them.

    The repository ships the engine twice: a TypeScript plugin
    (monitor-engine.ts, notify-worker.ts) and a CommonJS server
    (lib/monitor-engine.cjs, lib/notify-worker.cjs).  Where the two
    differ, both are embedded, in [MonitorEngineTs] and
    [MonitorEngineCjs].

    Numbers.  Prices and thresholds are JavaScript numbers, embedded as
    IEEE 754 binary64 values ([float]).  Unix-second timestamps, polling
    intervals and cooldowns are integer columns of the store and are
    embedded as [Z]. *)

From Stdlib Require Import ZArith Lia Bool List String Ascii.
From Stdlib Require Import Floats.PrimFloat Floats.FloatOps Floats.SpecFloat.
From stdpp Require Import base option list gmap strings pretty.

Local Open Scope string_scope.
Local Open Scope Z_scope.

(** ** JavaScript values used by the engine *)

Module Js.

(** [a >= b] and [a <= b] on numbers: false as soon as one side is NaN. *)
Definition ge (a b : float) : bool := PrimFloat.leb b a.
Definition le (a b : float) : bool := PrimFloat.leb a b.

(** ToBoolean on a number: [0], [-0] and [NaN] are falsy. *)
Definition truthy_num (x : float) : bool :=
  negb (PrimFloat.is_zero x || PrimFloat.is_nan x).

(** ToBoolean on an integer-valued number. *)
Definition truthy_int (z : Z) : bool := negb (z =? 0).

(** [x || d] on integer-valued numbers. *)
Definition or_int (x d : Z) : Z := if truthy_int x then x else d.

(** The integer a number denotes, when it is an integer of magnitude
    below [2^53]. *)
Definition to_safe_integer (x : float) : option Z :=
  match Prim2SF x with
  | S754_zero _ => Some 0
  | S754_finite s m e =>
      let mag :=
        if 0 <=? e then Some (Z.pos m * 2 ^ e)
        else if Z.pos m mod 2 ^ (- e) =? 0 then Some (Z.pos m / 2 ^ (- e))
        else None in
      match mag with
      | Some v => if v <? 2 ^ 53 then Some (if s then - v else v) else None
      | None => None
      end
  | _ => None
  end.

(** What the host's number formatting does outside the safe integers
    (shortest round-trip digits, exponents, [NaN], [Infinity]) and
    [Number.prototype.toFixed(2)] are left to the runtime. *)
Class NumberFormat := {
  format_number : float -> string;
  toFixed2 : float -> string
}.

(** [String(x)] / template interpolation of a number: a safe integer
    prints as its decimal digits. *)
Definition Number_toString {fmt : NumberFormat} (x : float) : string :=
  match to_safe_integer x with
  | Some z => pretty z
  | None => format_number x
  end.

(** A [Set<string>] keeps insertion order and has no duplicates. *)
Definition set_add (x : string) (s : list string) : list string :=
  if bool_decide (x ∈ s) then s else s ++ [x].

Definition set_delete (x : string) (s : list string) : list string :=
  filter (λ y, y ≠ x) s.

End Js.

(** ** Data model (db.ts, monitor-engine.ts) *)

(** Evaluator state: the keys the evaluator reads and writes in the
    [last_state] object.  [None] is an absent ([undefined]/[null]) key. *)
Record EvalState := mkEvalState {
  wasAbove : option bool;
  wasBelow : option bool;
  basePrice : option float;
  windowSec : option Z
}.

Definition empty_state : EvalState := mkEvalState None None None None.

Definition set_wasAbove (b : bool) (s : EvalState) : EvalState :=
  mkEvalState (Some b) (wasBelow s) (basePrice s) (windowSec s).
Definition set_wasBelow (b : bool) (s : EvalState) : EvalState :=
  mkEvalState (wasAbove s) (Some b) (basePrice s) (windowSec s).
Definition set_basePrice (p : float) (s : EvalState) : EvalState :=
  mkEvalState (wasAbove s) (wasBelow s) (Some p) (windowSec s).
Definition set_windowSec (w : Z) (s : EvalState) : EvalState :=
  mkEvalState (wasAbove s) (wasBelow s) (basePrice s) (Some w).

(** A user's Telegram settings (CommonJS server only). *)
Record Telegram := mkTelegram {
  bot_token : option string;
  chat_id : option string
}.

Definition no_telegram : Telegram := mkTelegram None None.

(** [interface Alert].  [user_id] and [notify_times] exist only in the
    CommonJS server's store.  The bookkeeping columns [created_at] and
    [updated_at], which the core never reads, are left out. *)
Record Alert := mkAlert {
  id : string;
  symbol : string;
  condition_type : string;
  threshold : float;
  poll_interval_sec : Z;
  cooldown_sec : Z;
  is_enabled : bool;
  last_triggered_at : option Z;
  last_state : option EvalState;
  user_id : option string;
  notify_times : option Z
}.

(** [interface AlertWithState extends Alert]: the indexed copy of a rule.
    [_telegram] is bound by the CommonJS server only. *)
Record AlertWithState := mkAlertWithState {
  alert : Alert;
  _lastState : EvalState;
  _telegram : Telegram
}.

Definition with_state (s : EvalState) (a : AlertWithState) : AlertWithState :=
  mkAlertWithState (alert a) s (_telegram a).

Definition with_last_triggered_at (t : Z) (a : AlertWithState) : AlertWithState :=
  let r := alert a in
  mkAlertWithState
    (mkAlert (id r) (symbol r) (condition_type r) (threshold r)
       (poll_interval_sec r) (cooldown_sec r) (is_enabled r) (Some t)
       (last_state r) (user_id r) (notify_times r))
    (_lastState a) (_telegram a).

(** [interface AlertGroup]. *)
Record AlertGroup := mkAlertGroup {
  g_symbol : string;
  g_interval : Z;
  alertIds : list string;
  nextRunAt : Z
}.

Definition with_alertIds (ids : list string) (g : AlertGroup) : AlertGroup :=
  mkAlertGroup (g_symbol g) (g_interval g) ids (nextRunAt g).
Definition with_nextRunAt (t : Z) (g : AlertGroup) : AlertGroup :=
  mkAlertGroup (g_symbol g) (g_interval g) (alertIds g) t.

(** ** Condition evaluator *)

Record TriggerResult := mkTriggerResult {
  triggered : bool;
  reason : string
}.

(** The cooldown guard shared by both engines:
    [alert.last_triggered_at && now - alert.last_triggered_at < alert.cooldown_sec]. *)
Definition in_cooldown (a : AlertWithState) (now : Z) : bool :=
  match last_triggered_at (alert a) with
  | Some t => Js.truthy_int t && (now - t <? cooldown_sec (alert a))
  | None => false
  end.

(** [((price - base) / base) * 100] *)
Definition pct_change (price base : float) : float :=
  PrimFloat.mul (PrimFloat.div (PrimFloat.sub price base) base) 100%float.

(** [state.basePrice] used as a condition. *)
Definition basePrice_truthy (s : EvalState) : option float :=
  match basePrice s with
  | Some b => if Js.truthy_num b then Some b else None
  | None => None
  end.

Definition no_condition_met : TriggerResult :=
  mkTriggerResult false "no condition met".

Module MonitorEngineTs.
Section Evaluator.
Context {fmt : Js.NumberFormat}.

(** [shouldTrigger] of monitor-engine.ts.  The evaluator mutates
    [alert._lastState] in place; the embedding returns the state the
    object holds when the call returns. *)
Definition shouldTrigger (a : AlertWithState) (now : Z) (price : float)
  : TriggerResult * EvalState :=
  let state := _lastState a in
  if in_cooldown a now then (mkTriggerResult false "cooldown", state)
  else
    let threshold := threshold (alert a) in
    let kind := condition_type (alert a) in
    if String.eqb kind "cross_up" then
      let wasAbove' := default (Js.ge price threshold) (wasAbove state) in
      let isAbove := Js.ge price threshold in
      if negb wasAbove' && isAbove then
        (mkTriggerResult true
           ("cross_up: "
            +:+ (if default false (wasAbove state) then "false" else "undefined")
            +:+ " -> true"),
         state)
      else (no_condition_met, set_wasAbove isAbove state)
    else if String.eqb kind "cross_down" then
      let wasBelow' := default (Js.le price threshold) (wasBelow state) in
      let isBelow := Js.le price threshold in
      if negb wasBelow' && isBelow then
        (mkTriggerResult true
           ("cross_down: "
            +:+ (if default false (wasBelow state) then "false" else "undefined")
            +:+ " -> true"),
         state)
      else (no_condition_met, set_wasBelow isBelow state)
    else if String.eqb kind "price_gte" then
      if Js.ge price threshold then
        (mkTriggerResult true
           ("price_gte: " +:+ Js.Number_toString price +:+ " >= "
            +:+ Js.Number_toString threshold),
         state)
      else (no_condition_met, state)
    else if String.eqb kind "price_lte" then
      if Js.le price threshold then
        (mkTriggerResult true
           ("price_lte: " +:+ Js.Number_toString price +:+ " <= "
            +:+ Js.Number_toString threshold),
         state)
      else (no_condition_met, state)
    else if String.eqb kind "pct_change_up" then
      let windowSec' := Js.or_int (default 0 (windowSec state)) 0 in
      let rebased :=
        set_windowSec (Js.or_int windowSec' 60) (set_basePrice price state) in
      match (if 0 <? windowSec' then basePrice_truthy state else None) with
      | Some base =>
          let change := pct_change price base in
          if Js.ge change threshold then
            (mkTriggerResult true
               ("pct_change_up: " +:+ Js.toFixed2 change +:+ "% >= "
                +:+ Js.Number_toString threshold +:+ "%"),
             state)
          else (no_condition_met, rebased)
      | None => (no_condition_met, rebased)
      end
    else if String.eqb kind "pct_change_down" then
      let windowSec' := Js.or_int (default 0 (windowSec state)) 0 in
      let rebased :=
        set_windowSec (Js.or_int windowSec' 60) (set_basePrice price state) in
      match (if 0 <? windowSec' then basePrice_truthy state else None) with
      | Some base =>
          let change := pct_change price base in
          if Js.le change (PrimFloat.opp threshold) then
            (mkTriggerResult true
               ("pct_change_down: " +:+ Js.toFixed2 change +:+ "% <= -"
                +:+ Js.Number_toString threshold +:+ "%"),
             state)
          else (no_condition_met, rebased)
      | None => (no_condition_met, rebased)
      end
    else (no_condition_met, state).

End Evaluator.
End MonitorEngineTs.

Module MonitorEngineCjs.
Section Evaluator.
Context {fmt : Js.NumberFormat}.

(** [shouldTrigger] of lib/monitor-engine.cjs: the cross reasons print
    the resolved flag, and the percent-change kinds keep no window. *)
Definition shouldTrigger (a : AlertWithState) (now : Z) (price : float)
  : TriggerResult * EvalState :=
  let state := _lastState a in
  if in_cooldown a now then (mkTriggerResult false "cooldown", state)
  else
    let threshold := threshold (alert a) in
    let kind := condition_type (alert a) in
    if String.eqb kind "cross_up" then
      let wasAbove' := default (Js.ge price threshold) (wasAbove state) in
      let isAbove := Js.ge price threshold in
      if negb wasAbove' && isAbove then
        (mkTriggerResult true
           ("cross_up: " +:+ (if wasAbove' then "true" else "false")
            +:+ " -> true"),
         state)
      else (no_condition_met, set_wasAbove isAbove state)
    else if String.eqb kind "cross_down" then
      let wasBelow' := default (Js.le price threshold) (wasBelow state) in
      let isBelow := Js.le price threshold in
      if negb wasBelow' && isBelow then
        (mkTriggerResult true
           ("cross_down: " +:+ (if wasBelow' then "true" else "false")
            +:+ " -> true"),
         state)
      else (no_condition_met, set_wasBelow isBelow state)
    else if String.eqb kind "price_gte" then
      if Js.ge price threshold then
        (mkTriggerResult true
           ("price_gte: " +:+ Js.Number_toString price +:+ " >= "
            +:+ Js.Number_toString threshold),
         state)
      else (no_condition_met, state)
    else if String.eqb kind "price_lte" then
      if Js.le price threshold then
        (mkTriggerResult true
           ("price_lte: " +:+ Js.Number_toString price +:+ " <= "
            +:+ Js.Number_toString threshold),
         state)
      else (no_condition_met, state)
    else if String.eqb kind "pct_change_up" then
      match basePrice_truthy state with
      | Some base =>
          let change := pct_change price base in
          if Js.ge change threshold then
            (mkTriggerResult true
               ("pct_change_up: " +:+ Js.toFixed2 change +:+ "% >= "
                +:+ Js.Number_toString threshold +:+ "%"),
             state)
          else (no_condition_met, set_basePrice price state)
      | None => (no_condition_met, set_basePrice price state)
      end
    else if String.eqb kind "pct_change_down" then
      match basePrice_truthy state with
      | Some base =>
          let change := pct_change price base in
          if Js.le change (PrimFloat.opp threshold) then
            (mkTriggerResult true
               ("pct_change_down: " +:+ Js.toFixed2 change +:+ "% <= -"
                +:+ Js.Number_toString threshold +:+ "%"),
             state)
          else (no_condition_met, set_basePrice price state)
      | None => (no_condition_met, set_basePrice price state)
      end
    else (no_condition_met, state).

End Evaluator.
End MonitorEngineCjs.

(** ** Index / group manager *)

(** The three module-level maps of the engine. *)
Record Engine := mkEngine {
  alertsById : gmap string AlertWithState;
  enabledAlertsBySymbol : gmap string (list string);
  groups : gmap string AlertGroup
}.

Definition empty_engine : Engine := mkEngine ∅ ∅ ∅.

Inductive Action := Upsert | Update | Delete.

(** [`${symbol}:${interval}`] *)
Definition makeGroupKey (symbol : string) (interval : Z) : string :=
  symbol +:+ ":" +:+ pretty interval.

(** [symbolAlerts.delete(id); if (symbolAlerts.size === 0) map.delete(symbol)] *)
Definition remove_from_symbol_index (i sym : string)
  (idx : gmap string (list string)) : gmap string (list string) :=
  match idx !! sym with
  | Some ids =>
      let ids' := Js.set_delete i ids in
      if Nat.eqb (length ids') 0 then delete sym idx else <[sym := ids']> idx
  | None => idx
  end.

(** [group.alertIds.delete(id); if (group.alertIds.size === 0) groups.delete(key)] *)
Definition remove_from_group (i key : string)
  (gs : gmap string AlertGroup) : gmap string AlertGroup :=
  match gs !! key with
  | Some g =>
      let ids' := Js.set_delete i (alertIds g) in
      if Nat.eqb (length ids') 0 then delete key gs
      else <[key := with_alertIds ids' g]> gs
  | None => gs
  end.

(** [if (!map.has(symbol)) map.set(symbol, new Set()); map.get(symbol).add(id)] *)
Definition add_to_symbol_index (i sym : string)
  (idx : gmap string (list string)) : gmap string (list string) :=
  let idx1 := match idx !! sym with Some _ => idx | None => <[sym := []]> idx end in
  alter (Js.set_add i) sym idx1.

(** Creation of the group on first use, scheduled [now + interval], then
    [groups.get(groupKey).alertIds.add(id)]. *)
Definition add_to_group (now : Z) (i sym : string) (interval : Z)
  (gs : gmap string AlertGroup) : gmap string AlertGroup :=
  let key := makeGroupKey sym interval in
  let gs1 :=
    match gs !! key with
    | Some _ => gs
    | None => <[key := mkAlertGroup sym interval [] (now + interval)]> gs
    end in
  alter (λ g, with_alertIds (Js.set_add i (alertIds g)) g) key gs1.

(** [{ ...alert, _lastState: alert.last_state || {}, _telegram }] *)
Definition index_entry (tg : Telegram) (a : Alert) : AlertWithState :=
  mkAlertWithState a (default empty_state (last_state a)) tg.

(** One iteration of the loop of [rebuildFromDb]. *)
Definition index_alert (now : Z) (e : Engine) (row : Telegram * Alert) : Engine :=
  let a := row.2 in
  mkEngine
    (<[id a := index_entry row.1 a]> (alertsById e))
    (add_to_symbol_index (id a) (symbol a) (enabledAlertsBySymbol e))
    (add_to_group now (id a) (symbol a) (poll_interval_sec a) (groups e)).

(** [rebuildFromDb]: the maps are cleared and refilled from the enabled
    rules read from the store.  [rows] is that read, each rule with the
    Telegram settings bound to it (none in the TypeScript engine). *)
Definition rebuildFromDb (now : Z) (rows : list (Telegram * Alert)) : Engine :=
  foldl (index_alert now) empty_engine rows.

(** [getEnabledAlerts] of db.ts: [SELECT * FROM alerts WHERE is_enabled = 1]. *)
Definition getEnabledAlerts (table : list Alert) : list (Telegram * Alert) :=
  (λ a, (no_telegram, a)) <$> filter (λ a, is_enabled a = true) table.

(** [applyChange(action, alert)].  [now] is the clock read at entry and
    [tg] the owner's Telegram settings looked up by the CommonJS server
    (the TypeScript engine has none). *)
Definition applyChange (now : Z) (tg : Telegram) (action : Action) (a : Alert)
  (e : Engine) : Engine :=
  match action with
  | Delete =>
      match alertsById e !! id a with
      | Some oldAlert =>
          mkEngine
            (delete (id a) (alertsById e))
            (remove_from_symbol_index (id a) (symbol (alert oldAlert))
               (enabledAlertsBySymbol e))
            (remove_from_group (id a)
               (makeGroupKey (symbol (alert oldAlert))
                  (poll_interval_sec (alert oldAlert)))
               (groups e))
      | None =>
          mkEngine (delete (id a) (alertsById e)) (enabledAlertsBySymbol e) (groups e)
      end
  | _ =>
      let alertWithState := index_entry tg a in
      let oldAlert := alertsById e !! id a in
      if is_enabled a then
        let gs1 :=
          match oldAlert with
          | Some old =>
              let oldInterval := poll_interval_sec (alert old) in
              let oldSymbol := symbol (alert old) in
              if negb (oldInterval =? poll_interval_sec a)
                 || negb (String.eqb oldSymbol (symbol a))
              then remove_from_group (id a) (makeGroupKey oldSymbol oldInterval) (groups e)
              else groups e
          | None => groups e
          end in
        mkEngine
          (<[id a := alertWithState]> (alertsById e))
          (add_to_symbol_index (id a) (symbol a) (enabledAlertsBySymbol e))
          (add_to_group now (id a) (symbol a) (poll_interval_sec a) gs1)
      else
        match oldAlert with
        | Some old =>
            mkEngine
              (delete (id a) (alertsById e))
              (remove_from_symbol_index (id a) (symbol (alert old))
                 (enabledAlertsBySymbol e))
              (remove_from_group (id a)
                 (makeGroupKey (symbol (alert old)) (poll_interval_sec (alert old)))
                 (groups e))
        | None =>
            mkEngine (delete (id a) (alertsById e)) (enabledAlertsBySymbol e) (groups e)
        end
  end.

(** A change notification as the boundary layer issues it. *)
Record Change := mkChange {
  ch_now : Z;
  ch_telegram : Telegram;
  ch_action : Action;
  ch_alert : Alert
}.

Definition apply_changes (cs : list Change) (e : Engine) : Engine :=
  foldl (λ e c, applyChange (ch_now c) (ch_telegram c) (ch_action c) (ch_alert c) e) e cs.

(** The key of the group a rule belongs under. *)
Definition current_key (a : AlertWithState) : string :=
  makeGroupKey (symbol (alert a)) (poll_interval_sec (alert a)).

(** ** Rule store, as the engine and the worker consume it *)

(** [interface AlertEvent] (without the row id, which the store assigns). *)
Record AlertEvent := mkAlertEvent {
  alert_id : string;
  event_type : string;
  ev_reason : option string;
  ev_price : option float;
  ev_threshold : option float;
  notify_status : string;
  error_message : option string;
  triggered_at : Z;
  ev_user_id : option string
}.

Definition with_status (status : string) (err : option string) (ev : AlertEvent)
  : AlertEvent :=
  mkAlertEvent (alert_id ev) (event_type ev) (ev_reason ev) (ev_price ev)
    (ev_threshold ev) status err (triggered_at ev) (ev_user_id ev).

(** The [Partial<Alert>] values the engine passes to [updateAlert]; [None]
    is a key left out of the object. *)
Record AlertUpdate := mkAlertUpdate {
  upd_last_triggered_at : option Z;
  upd_last_state : option EvalState
}.

Definition apply_update (u : AlertUpdate) (r : Alert) : Alert :=
  mkAlert (id r) (symbol r) (condition_type r) (threshold r)
    (poll_interval_sec r) (cooldown_sec r) (is_enabled r)
    (match upd_last_triggered_at u with Some t => Some t | None => last_triggered_at r end)
    (match upd_last_state u with Some s => Some s | None => last_state r end)
    (user_id r) (notify_times r).

(** The store operations the core calls.  [createAlertEvent] yields
    [None] when the store throws. *)
Class RuleStore (S : Type) := {
  updateAlert : string -> AlertUpdate -> S -> S;
  createAlertEvent : AlertEvent -> S -> option (Z * S);
  updateAlertEventStatus : Z -> string -> option string -> S -> S
}.

(** A number after [JSON.stringify] and [JSON.parse]: [NaN] and the
    infinities are written as [null], and the sign of a zero is lost. *)
Definition json_number (x : float) : option float :=
  if PrimFloat.is_nan x || PrimFloat.is_infinity x then None
  else if PrimFloat.is_zero x then Some 0%float
  else Some x.

(** The evaluator state after [JSON.stringify] and [JSON.parse], which is
    how both stores keep [last_state]. *)
Definition json_state (s : EvalState) : EvalState :=
  mkEvalState (wasAbove s) (wasBelow s) (basePrice s ≫= json_number) (windowSec s).

(** An [updates] object as a store keeps it. *)
Definition stored_update (u : AlertUpdate) : AlertUpdate :=
  mkAlertUpdate (upd_last_triggered_at u) (json_state <$> upd_last_state u).

(** A number bound to a column of the SQLite store: [NaN] is stored as
    [NULL]. *)
Definition sql_real (x : float) : option float :=
  if PrimFloat.is_nan x then None else Some x.

(** The SQLite store of db.ts: the [alerts] table and the [alert_events]
    table, whose row ids are [1, 2, ...] in insertion order.  The rows are
    as the store reads them back. *)
Record SqliteStore := mkSqliteStore {
  alerts_table : list Alert;
  events_table : list AlertEvent
}.

Definition event_row (rowid : Z) (evs : list AlertEvent) : option AlertEvent :=
  if 1 <=? rowid then evs !! Z.to_nat (rowid - 1) else None.

(** db.ts [updateAlert] for the keys the engine passes; [last_state] is
    stored as [JSON.stringify] text. *)
Definition sqlite_updateAlert (i : string) (u : AlertUpdate) (s : SqliteStore)
  : SqliteStore :=
  match upd_last_triggered_at u, upd_last_state u with
  | None, None => s
  | _, _ =>
      mkSqliteStore
        ((λ r, if String.eqb (id r) i then apply_update (stored_update u) r else r)
         <$> alerts_table s)
        (events_table s)
  end.

(** The event row the [INSERT] of [createAlertEvent] writes. *)
Definition stored_event (ev : AlertEvent) : AlertEvent :=
  mkAlertEvent (alert_id ev) (event_type ev) (ev_reason ev)
    (ev_price ev ≫= sql_real) (ev_threshold ev ≫= sql_real)
    (notify_status ev) (error_message ev) (triggered_at ev) (ev_user_id ev).

(** db.ts [createAlertEvent].  [alert_id] is a foreign key into [alerts]:
    the insert throws, and writes nothing, when no rule has that id. *)
Definition sqlite_createAlertEvent (ev : AlertEvent) (s : SqliteStore)
  : option (Z * SqliteStore) :=
  if bool_decide (alert_id ev ∈ id <$> alerts_table s) then
    Some (Z.of_nat (length (events_table s)) + 1,
          mkSqliteStore (alerts_table s) (events_table s ++ [stored_event ev]))
  else None.

(** [UPDATE alert_events SET notify_status = ?, error_message = ? WHERE id = ?]
    with [errorMessage ?? null]. *)
Definition sqlite_updateAlertEventStatus (rowid : Z) (status : string)
  (err : option string) (s : SqliteStore) : SqliteStore :=
  if 1 <=? rowid then
    mkSqliteStore (alerts_table s)
      (alter (with_status status err) (Z.to_nat (rowid - 1)) (events_table s))
  else s.

#[export] Instance sqlite_store : RuleStore SqliteStore := {
  updateAlert := sqlite_updateAlert;
  createAlertEvent := sqlite_createAlertEvent;
  updateAlertEventStatus := sqlite_updateAlertEventStatus
}.

(** ** Group tick *)

(** [interface PriceResult]. *)
Record PriceResult := mkPriceResult {
  price : float;
  price_ts : Z
}.

(** [interface NotifyTask]; [nt_telegram] is carried by the CommonJS
    server only. *)
Record NotifyTask := mkNotifyTask {
  eventId : Z;
  alertId : string;
  nt_symbol : string;
  conditionType : string;
  nt_threshold : float;
  nt_price : float;
  nt_reason : string;
  triggeredAt : Z;
  nt_telegram : Telegram
}.

(** Everything a group tick can touch: the indexes, the store, and the
    notifications handed to the delivery queue, each with the delay in
    milliseconds after which it is pushed ([0]: pushed at once). *)
Record World (S : Type) := mkWorld {
  engine : Engine;
  store : S;
  outbox : list (Z * NotifyTask)
}.
Arguments mkWorld {S}.
Arguments engine {S}.
Arguments store {S}.
Arguments outbox {S}.

(** The indexed rule object found under [key] after in-place mutation. *)
Definition put_alert (key : string) (a : AlertWithState) (e : Engine) : Engine :=
  mkEngine (<[key := a]> (alertsById e)) (enabledAlertsBySymbol e) (groups e).

(** [monitorLoop] dispatches a group when [now >= group.nextRunAt]. *)
Definition is_due (now : Z) (g : AlertGroup) : bool := nextRunAt g <=? now.

#[export] Instance AlertGroup_eq_dec : EqDecision AlertGroup.
Proof. solve_decision. Defined.

(** [group.nextRunAt = t], seen from the [groups] map.  A tick holds its
    group by reference: while the map files the object under its key, the
    object is the map's entry and the assignment shows there.  [group] is
    the object as the tick finds it when it writes.  Objects are values
    here, so the map's entry is taken to be that object when it is equal
    to it.  An object that has left the map is not the entry, and then
    the map does not change: it left with an emptied id set, which no
    entry has, or it was replaced by a rebuild, which schedules the new
    object from its own, later clock reading. *)
Definition reschedule (t : Z) (group : AlertGroup) (e : Engine) : Engine :=
  let key := makeGroupKey (g_symbol group) (g_interval group) in
  if bool_decide (groups e !! key = Some group)
  then mkEngine (alertsById e) (enabledAlertsBySymbol e)
         (<[key := with_nextRunAt t group]> (groups e))
  else e.

Module TickTs.
Section Tick.
Context {fmt : Js.NumberFormat} {S : Type} {St : RuleStore S}.

(** Body of the [for (const alertId of group.alertIds)] loop of
    monitor-engine.ts: the world the iteration leaves, and whether it
    ended by an exception (thrown by [createAlertEvent], after the rule
    object and its row were written). *)
Definition tick_alert_run (now : Z) (p : float) (w : World S) (alertId : string)
  : World S * bool :=
  match alertsById (engine w) !! alertId with
  | None => (w, false)
  | Some a =>
      if negb (is_enabled (alert a)) then (w, false)
      else
        let '(res, st) := MonitorEngineTs.shouldTrigger a now p in
        let a1 := with_state st a in
        if triggered res then
          let a2 := with_last_triggered_at now a1 in
          let s1 :=
            updateAlert (id (alert a2)) (mkAlertUpdate (Some now) (Some st)) (store w) in
          match createAlertEvent
                  (mkAlertEvent (id (alert a2)) "trigger" (Some (reason res)) (Some p)
                     (Some (threshold (alert a2))) "queued" None now None) s1 with
          | Some (evId, s2) =>
              (mkWorld (put_alert alertId a2 (engine w)) s2
                 (outbox w ++
                  [(0, mkNotifyTask evId (id (alert a2)) (symbol (alert a2))
                         (condition_type (alert a2)) (threshold (alert a2)) p
                         (reason res) now no_telegram)]),
               false)
          | None => (mkWorld (put_alert alertId a2 (engine w)) s1 (outbox w), true)
          end
        else
          (mkWorld (put_alert alertId a1 (engine w))
             (updateAlert (id (alert a1)) (mkAlertUpdate None (Some st)) (store w))
             (outbox w),
           false)
  end.

(** The world one iteration of the loop leaves. *)
Definition tick_alert (now : Z) (p : float) (w : World S) (alertId : string)
  : World S :=
  (tick_alert_run now p w alertId).1.

(** The loop over [group.alertIds]: an exception ends it. *)
Fixpoint tick_alerts (now : Z) (p : float) (ids : list string) (w : World S)
  : World S * bool :=
  match ids with
  | [] => (w, false)
  | alertId :: rest =>
      let '(w1, threw) := tick_alert_run now p w alertId in
      if threw then (w1, true) else tick_alerts now p rest w1
  end.

(** [executeGroupTick(group)].  [now] is the clock read at entry,
    [fetched] what [await getSpotPrice(group.symbol)] produced ([None]: the
    promise was rejected), and [group] and [w] are the group object the
    tick holds and the rest of the world as they are when the fetch
    settles; nothing else runs between that moment and the return.  The
    group object is returned as the tick leaves it; the last statement,
    [group.nextRunAt = now + group.interval], is reached unless the fetch
    or the loop threw, and it shows in the [groups] map when the map
    holds the object ([reschedule]). *)
Definition executeGroupTick (now : Z) (fetched : option PriceResult)
  (group : AlertGroup) (w : World S) : AlertGroup * World S :=
  match fetched with
  | None => (group, w)
  | Some priceResult =>
      let '(w1, threw) := tick_alerts now (price priceResult) (alertIds group) w in
      if threw then (group, w1)
      else
        (with_nextRunAt (now + g_interval group) group,
         mkWorld (reschedule (now + g_interval group) group (engine w1))
           (store w1) (outbox w1))
  end.

End Tick.
End TickTs.

Module TickCjs.
Section Tick.
Context {fmt : Js.NumberFormat} {S : Type} {St : RuleStore S}.

(** The [for (let i = 0; i < notifyTimes; i++)] loop: task [i] carries
    the suffix [(i+1/N)] and is pushed after [i * 3000] ms. *)
Definition repeat_tasks (evId : Z) (a : AlertWithState) (now : Z) (p : float)
  (why : string) (notifyTimes : Z) : list (Z * NotifyTask) :=
  (λ i, (i * 3000,
         mkNotifyTask evId (id (alert a)) (symbol (alert a))
           (condition_type (alert a)) (threshold (alert a)) p
           (why +:+ " (" +:+ pretty (i + 1) +:+ "/" +:+ pretty notifyTimes +:+ ")")
           now (_telegram a)))
  <$> seqZ 0 notifyTimes.

(** Body of the loop over [group.alertIds] of lib/monitor-engine.cjs: the
    world the iteration leaves, and whether it ended by an exception of
    the store. *)
Definition tick_alert_run (now : Z) (p : float) (w : World S) (alertId : string)
  : World S * bool :=
  match alertsById (engine w) !! alertId with
  | None => (w, false)
  | Some a =>
      if negb (is_enabled (alert a)) then (w, false)
      else
        let '(res, st) := MonitorEngineCjs.shouldTrigger a now p in
        let a1 := with_state st a in
        if triggered res then
          let a2 := with_last_triggered_at now a1 in
          let s1 :=
            updateAlert (id (alert a2)) (mkAlertUpdate (Some now) (Some st)) (store w) in
          let notifyTimes := Js.or_int (default 0 (notify_times (alert a2))) 1 in
          match createAlertEvent
                  (mkAlertEvent (id (alert a2)) "trigger"
                     (Some (reason res +:+ " (x" +:+ pretty notifyTimes +:+ ")"))
                     (Some p) (Some (threshold (alert a2))) "queued" None now
                     (user_id (alert a2))) s1 with
          | Some (evId, s2) =>
              (mkWorld (put_alert alertId a2 (engine w)) s2
                 (outbox w ++ repeat_tasks evId a2 now p (reason res) notifyTimes),
               false)
          | None => (mkWorld (put_alert alertId a2 (engine w)) s1 (outbox w), true)
          end
        else
          (mkWorld (put_alert alertId a1 (engine w))
             (updateAlert (id (alert a1)) (mkAlertUpdate None (Some st)) (store w))
             (outbox w),
           false)
  end.

(** The world one iteration of the loop leaves. *)
Definition tick_alert (now : Z) (p : float) (w : World S) (alertId : string)
  : World S :=
  (tick_alert_run now p w alertId).1.

(** The loop over [group.alertIds]: an exception ends it. *)
Fixpoint tick_alerts (now : Z) (p : float) (ids : list string) (w : World S)
  : World S * bool :=
  match ids with
  | [] => (w, false)
  | alertId :: rest =>
      let '(w1, threw) := tick_alert_run now p w alertId in
      if threw then (w1, true) else tick_alerts now p rest w1
  end.

(** [executeGroupTick(group)] of lib/monitor-engine.cjs; arguments and
    result as in [TickTs.executeGroupTick]. *)
Definition executeGroupTick (now : Z) (fetched : option PriceResult)
  (group : AlertGroup) (w : World S) : AlertGroup * World S :=
  match fetched with
  | None => (group, w)
  | Some priceResult =>
      let '(w1, threw) := tick_alerts now (price priceResult) (alertIds group) w in
      if threw then (group, w1)
      else
        (with_nextRunAt (now + g_interval group) group,
         mkWorld (reschedule (now + g_interval group) group (engine w1))
           (store w1) (outbox w1))
  end.

End Tick.
End TickCjs.

(** ** Notification worker (notify-worker.ts) *)

Module NotifyWorker.

Definition MAX_RETRIES : nat := 3.
Definition RETRY_DELAYS : list Z := [1000; 3000; 10000].
Definition RATE_LIMIT_DELAY : Z := 500.

(** A value thrown by [sendTelegramNotification]: its [message] property,
    if any, and what [String(error)] gives. *)
Record JsError := mkJsError {
  message : option string;
  as_string : string
}.

(** [error.message || String(error)] *)
Definition error_text (e : JsError) : string :=
  match message e with
  | Some m => if String.eqb m "" then as_string e else m
  | None => as_string e
  end.

Inductive SendOutcome := SendOk | SendFailed (e : JsError).

(** What the worker is observed to do while it delivers one task. *)
Inductive WorkerStep :=
  | Sleep (ms : Z)
  | Send (attempt : nat).

(** [RETRY_DELAYS[attempts - 1] || RETRY_DELAYS[RETRY_DELAYS.length - 1]],
    the delay slept after failed attempt number [attempts]. *)
Definition retry_delay_in (delays : list Z) (attempts : nat) : Z :=
  let last := default 0 (delays !! (length delays - 1)%nat) in
  match delays !! (attempts - 1)%nat with
  | Some d => if Js.truthy_int d then d else last
  | None => last
  end.

Definition retry_delay : nat -> Z := retry_delay_in RETRY_DELAYS.

Section Worker.
Context {S : Type} {St : RuleStore S}.

(** The [while (attempts < MAX_RETRIES)] loop of [processTask] and the
    statements after it.  [sink n] is the outcome of the [n]-th call of
    [sendTelegramNotification]; [fuel] bounds the iterations. *)
Fixpoint retry_loop (fuel : nat) (sink : nat -> SendOutcome) (task : NotifyTask)
  (attempts : nat) (lastError : option string) (s : S)
  : option (list WorkerStep * S) :=
  if (attempts <? MAX_RETRIES)%nat then
    match fuel with
    | O => None
    | Datatypes.S fuel' =>
        let attempts' := Datatypes.S attempts in
        match sink attempts' with
        | SendOk =>
            Some ([Send attempts'],
                  updateAlertEventStatus (eventId task) "success" None s)
        | SendFailed e =>
            let lastError' := Some (error_text e) in
            let pause :=
              if (attempts' <? MAX_RETRIES)%nat then [Sleep (retry_delay attempts')]
              else [] in
            match retry_loop fuel' sink task attempts' lastError' s with
            | Some (steps, s') => Some ((Send attempts' :: pause ++ steps)%list, s')
            | None => None
            end
        end
    end
  else Some ([], updateAlertEventStatus (eventId task) "failed" lastError s).

(** [processTask(task)].  [t0] and [t1] are the two readings of
    [Date.now()], [lastSendTime] the module variable; the result is the
    steps taken, the new [lastSendTime] and the store. *)
Definition processTask (sink : nat -> SendOutcome) (t0 t1 : Z) (task : NotifyTask)
  (lastSendTime : Z) (s : S) : option (list WorkerStep * Z * S) :=
  let timeSinceLastSend := t0 - lastSendTime in
  let spacing :=
    if timeSinceLastSend <? RATE_LIMIT_DELAY
    then [Sleep (RATE_LIMIT_DELAY - timeSinceLastSend)] else [] in
  match retry_loop MAX_RETRIES sink task 0 None s with
  | Some (steps, s') => Some ((spacing ++ steps)%list, t1, s')
  | None => None
  end.

End Worker.

Definition sends (steps : list WorkerStep) : list nat :=
  omap (λ st, match st with Send n => Some n | Sleep _ => None end) steps.

End NotifyWorker.

(** ** Delivery queue (notify-worker.ts) *)

Module DeliveryQueue.

(** [interface NotifyQueue]. *)
Record NotifyQueue := mkNotifyQueue {
  tasks : list NotifyTask;
  isProcessing : bool
}.

(** The queue object together with the runs of [processQueue] that are
    suspended at [await processTask(task)].  [consumers] lists, for each
    such run, the task it is waiting for; [started] logs every task handed
    to [processTask], oldest first. *)
Record QueueState := mkQueueState {
  notifyQueue : NotifyQueue;
  consumers : list NotifyTask;
  started : list NotifyTask
}.

Definition initial : QueueState := mkQueueState (mkNotifyQueue [] false) [] [].

(** One run of [processQueue] from the head of its [while] loop up to
    its next suspension, or to its end when the queue is empty. *)
Definition drain (st : QueueState) : QueueState :=
  match tasks (notifyQueue st) with
  | task :: rest =>
      mkQueueState (mkNotifyQueue rest (isProcessing (notifyQueue st)))
        (consumers st ++ [task]) (started st ++ [task])
  | [] =>
      mkQueueState (mkNotifyQueue [] false) (consumers st) (started st)
  end.

(** [processQueue()], up to its first suspension. *)
Definition processQueue (st : QueueState) : QueueState :=
  if isProcessing (notifyQueue st) || Nat.eqb (length (tasks (notifyQueue st))) 0
  then st
  else
    drain (mkQueueState (mkNotifyQueue (tasks (notifyQueue st)) true)
             (consumers st) (started st)).

(** [pushToNotifyQueue(task)]. *)
Definition pushToNotifyQueue (task : NotifyTask) (st : QueueState) : QueueState :=
  processQueue
    (mkQueueState
       (mkNotifyQueue (tasks (notifyQueue st) ++ [task]) (isProcessing (notifyQueue st)))
       (consumers st) (started st)).

(** The [processTask] awaited by the [n]-th suspended run settles and that
    run resumes.  [processTask] catches every error of the sink, so the
    run resumes in its loop. *)
Definition settle (n : nat) (st : QueueState) : option QueueState :=
  match consumers st !! n with
  | Some _ =>
      Some (drain (mkQueueState (notifyQueue st) (delete n (consumers st)) (started st)))
  | None => None
  end.

Inductive QueueEvent :=
  | Enqueue (task : NotifyTask)
  | Settled (n : nat).

Definition step (ev : QueueEvent) (st : QueueState) : option QueueState :=
  match ev with
  | Enqueue task => Some (pushToNotifyQueue task st)
  | Settled n => settle n st
  end.

Fixpoint run (evs : list QueueEvent) (st : QueueState) : option QueueState :=
  match evs with
  | [] => Some st
  | ev :: evs' =>
      match step ev st with
      | Some st' => run evs' st'
      | None => None
      end
  end.

(** The tasks pushed by a sequence of events, in order. *)
Definition enqueued (evs : list QueueEvent) : list NotifyTask :=
  omap (λ ev, match ev with Enqueue t => Some t | Settled _ => None end) evs.

End DeliveryQueue.

(** ** Vocabulary of the statements *)

(** [needle] occurs in [hay]. *)
Definition embeds (needle hay : string) : Prop :=
  ∃ pre post, hay = pre +:+ needle +:+ post.

Fixpoint starts_with (p s : string) : bool :=
  match p, s with
  | EmptyString, _ => true
  | String a p', String b s' => Ascii.eqb a b && starts_with p' s'
  | String _ _, EmptyString => false
  end.

Fixpoint includes (needle hay : string) : bool :=
  starts_with needle hay
  || match hay with
     | EmptyString => false
     | String _ hay' => includes needle hay'
     end.

Definition is_digit (c : ascii) : bool :=
  let n := nat_of_ascii c in (48 <=? n)%nat && (n <=? 57)%nat.

Fixpoint has_digit (s : string) : bool :=
  match s with
  | EmptyString => false
  | String c s' => is_digit c || has_digit s'
  end.

Fixpoint has_colon (s : string) : bool :=
  match s with
  | EmptyString => false
  | String c s' => Ascii.eqb c ":" || has_colon s'
  end.

(** A host formatter, for running the evaluator on concrete inputs. *)
Definition plain_format : Js.NumberFormat :=
  {| Js.format_number := λ _, "NaN"; Js.toFixed2 := λ _, "0.00" |}.

(** The cooldown window of the specification: a last trigger at [t], less
    than [cooldown_sec] seconds ago.  A timestamp of [0] (the epoch) counts
    as never triggered, as every truthiness test in the engine has it. *)
Definition within_cooldown (a : AlertWithState) (now : Z) : Prop :=
  ∃ t, last_triggered_at (alert a) = Some t ∧ t ≠ 0
       ∧ now - t < cooldown_sec (alert a).

(** A rule as the boundary layer creates it. *)
Definition new_alert (i sym kind : string) (th : float) (interval cooldown : Z)
  : Alert :=
  mkAlert i sym kind th interval cooldown true None None None None.

(** Members of the groups of a group map. *)
Definition member (gs : gmap string AlertGroup) (i key : string) : Prop :=
  ∃ g, gs !! key = Some g ∧ i ∈ alertIds g.

(** Every group lists at least one rule and is filed under the key of
    its own (symbol, interval) pair. *)
Definition groups_ok (gs : gmap string AlertGroup) : Prop :=
  ∀ key g, gs !! key = Some g →
    alertIds g ≠ [] ∧ key = makeGroupKey (g_symbol g) (g_interval g).

(** The group invariant: the indexed rules are enabled, each filed under
    its own id and listed by the group of its current (symbol, interval)
    pair and by no other; rules that are not indexed are listed nowhere;
    and the groups are well formed. *)
Record group_invariant (e : Engine) : Prop := mkGroupInvariant {
  inv_indexed : ∀ i a, alertsById e !! i = Some a →
    id (alert a) = i ∧ is_enabled (alert a) = true
    ∧ ∀ key, member (groups e) i key ↔ key = current_key a;
  inv_absent : ∀ i, alertsById e !! i = None → ∀ key, ¬ member (groups e) i key;
  inv_groups : groups_ok (groups e)
}.

(** The same rule with its enabled flag set to [b], as the boundary layer
    reloads it after a toggle. *)
Definition set_enabled (b : bool) (r : Alert) : Alert :=
  mkAlert (id r) (symbol r) (condition_type r) (threshold r)
    (poll_interval_sec r) (cooldown_sec r) b (last_triggered_at r)
    (last_state r) (user_id r) (notify_times r).

(** Either one run of [processQueue] is suspended and the flag is set, or
    none is, the flag is clear and nothing waits in the queue. *)
Definition one_consumer (st : DeliveryQueue.QueueState) : Prop :=
  (DeliveryQueue.isProcessing (DeliveryQueue.notifyQueue st) = true
   ∧ ∃ c, DeliveryQueue.consumers st = [c])
  ∨ (DeliveryQueue.isProcessing (DeliveryQueue.notifyQueue st) = false
     ∧ DeliveryQueue.consumers st = []
     ∧ DeliveryQueue.tasks (DeliveryQueue.notifyQueue st) = []).

(** ** Scenarios *)

(** What a group tick does to the indexed rule object it evaluates: the
    evaluator's state is kept, and a trigger stamps [last_triggered_at]. *)
Definition after_evaluation (now : Z) (r : TriggerResult * EvalState)
  (a : AlertWithState) : AlertWithState :=
  if triggered r.1 then with_last_triggered_at now (with_state r.2 a)
  else with_state r.2 a.

(** A store and an engine holding the single rule [r], and the group
    that rebuilding at time [t0] creates for it. *)
Definition single_rule_world (t0 : Z) (r : Alert) : World SqliteStore :=
  mkWorld (rebuildFromDb t0 (getEnabledAlerts [r])) (mkSqliteStore [r] []) [].

Definition single_rule_group (t0 : Z) (r : Alert) : AlertGroup :=
  mkAlertGroup (symbol r) (poll_interval_sec r) [id r] (t0 + poll_interval_sec r).

(** Successive ticks of one group, each with a successful fetch. *)
Definition ticks_ts (F : Js.NumberFormat) (obs : list (Z * float))
  (gw : AlertGroup * World SqliteStore) : AlertGroup * World SqliteStore :=
  foldl (λ gw o, TickTs.executeGroupTick o.1 (Some (mkPriceResult o.2 o.1)) gw.1 gw.2)
    gw obs.

Definition ticks_cjs (F : Js.NumberFormat) (obs : list (Z * float))
  (gw : AlertGroup * World SqliteStore) : AlertGroup * World SqliteStore :=
  foldl (λ gw o, TickCjs.executeGroupTick o.1 (Some (mkPriceResult o.2 o.1)) gw.1 gw.2)
    gw obs.

Definition cross_up_100 : Alert := new_alert "r1" "BTCUSDT" "cross_up" 100%float 5 0.
Definition pct_up_5 : Alert := new_alert "r2" "ETHUSDT" "pct_change_up" 5%float 5 0.
Definition pct_down_5 : Alert := new_alert "r3" "ETHUSDT" "pct_change_down" 5%float 5 0.

(** A queued trigger event, a task that refers to it as row 1, and two
    sinks: one that fails twice and then succeeds, one that always fails. *)
Definition queued_event : AlertEvent :=
  mkAlertEvent "r1" "trigger" (Some "price_gte: 50100 >= 50000") (Some 50100%float)
    (Some 50000%float) "queued" None 1005 None.

Definition sample_task : NotifyTask :=
  mkNotifyTask 1 "r1" "BTCUSDT" "price_gte" 50000%float 50100%float
    "price_gte: 50100 >= 50000" 1005 no_telegram.

Definition timeout_error (n : nat) : NotifyWorker.JsError :=
  NotifyWorker.mkJsError (Some ("timeout " +:+ pretty n)) "Error: timeout".

Definition flaky_sink (n : nat) : NotifyWorker.SendOutcome :=
  if (n <? 3)%nat then NotifyWorker.SendFailed (timeout_error n) else NotifyWorker.SendOk.

Definition dead_sink (n : nat) : NotifyWorker.SendOutcome :=
  NotifyWorker.SendFailed (timeout_error n).

(** ** Vocabulary for crossings *)

(** A genuine upward crossing of the threshold [th] between two
    consecutive observations: the price [prev] was not at or above the
    threshold, and the price [cur] is. *)
Definition crosses_up (th prev cur : float) : Prop :=
  Js.ge prev th = false ∧ Js.ge cur th = true.

(** ** Vocabulary for the status of an event *)

(** The event row [new] is the row [old] with status [status] and error
    message [err], every other column as it was. *)
Definition status_set (status : string) (err : option string) (old new : AlertEvent)
  : Prop :=
  notify_status new = status ∧ error_message new = err
  ∧ alert_id new = alert_id old ∧ event_type new = event_type old
  ∧ ev_reason new = ev_reason old ∧ ev_price new = ev_price old
  ∧ ev_threshold new = ev_threshold old ∧ triggered_at new = triggered_at old
  ∧ ev_user_id new = ev_user_id old.

(** The event table [evs'] is the table [evs] with the status of row
    [rowid] set: that row, if there is one, has status [status] and error
    message [err], and every other row is as it was. *)
Definition event_marked (rowid : Z) (status : string) (err : option string)
  (evs evs' : list AlertEvent) : Prop :=
  length evs' = length evs
  ∧ (∀ old, event_row rowid evs = Some old →
       ∃ new, event_row rowid evs' = Some new ∧ status_set status err old new)
  ∧ (event_row rowid evs = None → event_row rowid evs' = None)
  ∧ (∀ k, k ≠ rowid → event_row k evs' = event_row k evs).

(** ** Vocabulary for the by-symbol index and the schedule *)

(** The by-symbol index lists rule [i] under [sym]. *)
Definition sym_member (idx : gmap string (list string)) (i sym : string) : Prop :=
  ∃ ids, idx !! sym = Some ids ∧ i ∈ ids.

(** Every indexed rule is listed under its current symbol, and no symbol
    maps to an empty id set. *)
Definition symbols_ok (e : Engine) : Prop :=
  (∀ i a, alertsById e !! i = Some a →
     sym_member (enabledAlertsBySymbol e) i (symbol (alert a)))
  ∧ (∀ sym ids, enabledAlertsBySymbol e !! sym = Some ids → ids ≠ []).

(** Two group objects agree on everything but their id set. *)
Definition same_schedule (g g' : AlertGroup) : Prop :=
  g_symbol g' = g_symbol g ∧ g_interval g' = g_interval g
  ∧ nextRunAt g' = nextRunAt g.

(** The rule [cross_up_100] after its symbol was edited. *)
Definition cross_up_100_eth : Alert :=
  new_alert "r1" "ETHUSDT" "cross_up" 100%float 5 0.

(** ** Scheduler (monitor-engine.ts: monitorLoop, startMonitor, stopMonitor,
    getEngineStatus) *)

Module Scheduler.

(** The module variables [isRunning] and [monitorInterval] ([true]: a
    timeout for the next [monitorLoop] is pending), with the indexes. *)
Record Monitor := mkMonitor {
  isRunning : bool;
  monitorInterval : bool;
  indexes : Engine
}.

(** [monitorLoop()] with the clock at [now]: the groups it hands to
    [executeGroupTick], and the monitor afterwards.  Handing a group over
    changes nothing until the tick's price fetch settles. *)
Definition monitorLoop (now : Z) (m : Monitor)
  : gmap string AlertGroup * Monitor :=
  if negb (isRunning m) then (∅, m)
  else (filter (λ kg, is_due now kg.2 = true) (groups (indexes m)),
        mkMonitor (isRunning m) true (indexes m)).

(** [startMonitor()]: [t0] is the clock read by [rebuildFromDb], [rows]
    what it reads from the store, [t1] the clock read by the first
    [monitorLoop]. *)
Definition startMonitor (t0 : Z) (rows : list (Telegram * Alert)) (t1 : Z)
  (m : Monitor) : gmap string AlertGroup * Monitor :=
  if isRunning m then (∅, m)
  else monitorLoop t1 (mkMonitor true (monitorInterval m) (rebuildFromDb t0 rows)).

(** [stopMonitor()]. *)
Definition stopMonitor (m : Monitor) : Monitor :=
  mkMonitor false false (indexes m).

Record EngineStatus := mkEngineStatus {
  alertsCount : nat;
  groupsCount : nat;
  running : bool
}.

(** [getEngineStatus()]. *)
Definition getEngineStatus (m : Monitor) : EngineStatus :=
  mkEngineStatus (size (alertsById (indexes m))) (size (groups (indexes m)))
    (isRunning m).

End Scheduler.

(** The rule a group lists first. *)
Definition first_rule (g : AlertGroup) : string := default "" (head (alertIds g)).

(** ** Vocabulary for the effects of a tick *)

(** [a'] is the rule object [a] up to what a tick may write:
    [last_triggered_at] and the evaluator state. *)
Definition same_rule (a a' : AlertWithState) : Prop :=
  id (alert a') = id (alert a)
  ∧ symbol (alert a') = symbol (alert a)
  ∧ condition_type (alert a') = condition_type (alert a)
  ∧ threshold (alert a') = threshold (alert a)
  ∧ poll_interval_sec (alert a') = poll_interval_sec (alert a)
  ∧ cooldown_sec (alert a') = cooldown_sec (alert a)
  ∧ is_enabled (alert a') = is_enabled (alert a)
  ∧ user_id (alert a') = user_id (alert a)
  ∧ notify_times (alert a') = notify_times (alert a)
  ∧ _telegram a' = _telegram a.

(** The indexes [e'] are the indexes [e] up to the rule objects filed
    under [ids], each of which is the same rule as before. *)
Definition touches_only (ids : list string) (e e' : Engine) : Prop :=
  groups e' = groups e
  ∧ enabledAlertsBySymbol e' = enabledAlertsBySymbol e
  ∧ ∀ j,
      (alertsById e !! j = None → alertsById e' !! j = None)
      ∧ (∀ a, alertsById e !! j = Some a →
           ∃ a', alertsById e' !! j = Some a' ∧ same_rule a a'
                 ∧ (j ∉ ids → a' = a)).

(** The rules of [e'] are the rules of [e]: each is the same rule as
    before, and the same object unless it is filed under one of [ids]. *)
Definition rules_kept (ids : list string) (e e' : Engine) : Prop :=
  ∀ j,
    (alertsById e !! j = None → alertsById e' !! j = None)
    ∧ (∀ a, alertsById e !! j = Some a →
         ∃ a', alertsById e' !! j = Some a' ∧ same_rule a a'
               ∧ (j ∉ ids → a' = a)).

(** What a group tick whose fetch succeeded leaves of the indexes of [w]:
    [r] is the group object and the world after the tick of the group
    object [g], and [threw] tells whether the loop over the rules ended by
    an exception.  The group object is rescheduled to
    [now + g_interval g] unless the loop threw; the [groups] map changes
    only under the key of [g], and there only when the map holds [g]
    itself, in which case it holds the object the tick leaves. *)
Definition tick_effect {S : Type} (now : Z) (g : AlertGroup) (w : World S)
  (threw : bool) (r : AlertGroup * World S) : Prop :=
  let key := makeGroupKey (g_symbol g) (g_interval g) in
  r.1 = (if threw then g else with_nextRunAt (now + g_interval g) g)
  ∧ rules_kept (alertIds g) (engine w) (engine r.2)
  ∧ enabledAlertsBySymbol (engine r.2) = enabledAlertsBySymbol (engine w)
  ∧ (∀ k, k ≠ key → groups (engine r.2) !! k = groups (engine w) !! k)
  ∧ (groups (engine w) !! key = Some g → groups (engine r.2) !! key = Some r.1)
  ∧ (groups (engine w) !! key ≠ Some g → groups (engine r.2) = groups (engine w)).

(** Every indexed rule has a row in the [alerts] table. *)
Definition every_rule_has_a_row (w : World SqliteStore) : Prop :=
  ∀ i a, alertsById (engine w) !! i = Some a →
    id (alert a) ∈ id <$> alerts_table (store w).

(** A pushed task [dt] (delay, task) refers to the event [ev], found in
    the event table [all] under the task's [eventId]: same rule, status
    [queued], stamped [now], with the task's price and threshold as the
    table keeps them. *)
Definition task_refers_to (now : Z) (all : list AlertEvent) (ev : AlertEvent)
  (dt : Z * NotifyTask) : Prop :=
  event_row (eventId dt.2) all = Some ev
  ∧ alert_id ev = alertId dt.2
  ∧ event_type ev = "trigger"
  ∧ notify_status ev = "queued"
  ∧ error_message ev = None
  ∧ triggered_at ev = now ∧ triggeredAt dt.2 = now
  ∧ ev_price ev = sql_real (nt_price dt.2)
  ∧ ev_threshold ev = sql_real (nt_threshold dt.2).

(** A CommonJS-store rule with a repeat count, as its unvalidated update
    handler can store it. *)
Definition price_gte_times (n : option Z) : Alert :=
  mkAlert "r9" "BTCUSDT" "price_gte" 50000%float 5 300 true None None (Some "u1") n.



(** ** Vocabulary for what a tick persists (SQLite store) *)




(** What one rule of a tick does to the index and to the [alerts] table:
    nothing, or the evaluation [r] of the indexed copy [a]. *)
Definition evaluated_as (now : Z) (i : string) (w w' : World SqliteStore) : Prop :=
  (engine w' = engine w ∧ alerts_table (store w') = alerts_table (store w)
   ∧ ∀ a, alertsById (engine w) !! i = Some a → is_enabled (alert a) = false)
  ∨ ∃ a r,
      alertsById (engine w) !! i = Some a ∧ is_enabled (alert a) = true
      ∧ engine w' = put_alert i (after_evaluation now r a) (engine w)
      ∧ alerts_table (store w')
        = (λ row, if String.eqb (id row) (id (alert a))
                  then apply_update
                         (stored_update
                            (mkAlertUpdate (if triggered r.1 then Some now else None)
                               (Some r.2))) row
                  else row) <$> alerts_table (store w).

(** A price_gte rule with threshold 50000 and a 300 s cooldown. *)
Definition price_gte_50000 : Alert :=
  new_alert "r1" "BTCUSDT" "price_gte" 50000%float 5 300.



(** ** Telegram delivery (notify-worker.ts, notify-worker.cjs) *)

Module Http.

(** The body of a reply of the Telegram Bot API as far as the worker
    reads it: the truthiness of [response.data.ok] and
    [response.data.description]. *)
Record Reply := mkReply {
  ok : bool;
  description : option string
}.

(** What [await axios.post(...)] does: it throws, or yields a reply. *)
Inductive Outcome :=
  | Throws (e : NotifyWorker.JsError)
  | Replies (r : Reply).

(** The request: its url, and [chat_id] and [text] of its body. *)
Record Post := mkPost {
  url : string;
  post_chat_id : string;
  text : string
}.

End Http.

(** [new Error(msg)] *)
Definition new_Error (msg : string) : NotifyWorker.JsError :=
  NotifyWorker.mkJsError (Some msg)
    (if String.eqb msg "" then "Error" else "Error: " +:+ msg).

(** ToBoolean on a value that is a string, [null] or [undefined]. *)
Definition truthy_string (s : option string) : bool :=
  match s with
  | Some v => negb (String.eqb v "")
  | None => false
  end.

(** [`${x}`] on a value that is a string or [undefined]. *)
Definition interpolate (s : option string) : string := default "undefined" s.

(** The locale-dependent formatting of the runtime:
    [new Date(ms).toLocaleString("zh-CN", { timeZone: "Asia/Shanghai" })]
    and [Number.prototype.toLocaleString()]. *)
Class Locale := {
  Date_toLocaleString : Z -> string;
  Number_toLocaleString : float -> string
}.

Definition newline : string := String (ascii_of_nat 10) EmptyString.

(** The lines of the message template after the emoji. *)
Definition alert_message (emoji symbol_ condition threshold_ price_ reason_ time : string)
  : string :=
  emoji +:+ " <b>价格警报</b>" +:+ newline +:+ newline
  +:+ "<b>交易对:</b> " +:+ symbol_ +:+ newline
  +:+ "<b>条件:</b> " +:+ condition +:+ newline
  +:+ "<b>阈值:</b> " +:+ threshold_ +:+ newline
  +:+ "<b>当前价格:</b> " +:+ price_ +:+ newline
  +:+ "<b>触发原因:</b> " +:+ reason_ +:+ newline
  +:+ "<b>时间:</b> " +:+ time.

Definition alert_emoji (conditionType : string) : string :=
  if includes "down" conditionType then "📉"
  else if includes "pct_change" conditionType then "📊"
  else "🔔".

Definition sendMessage_url (botToken : string) : string :=
  "https://api.telegram.org/bot" +:+ botToken +:+ "/sendMessage".

(** The part of [sendTelegramNotification] after the configuration check:
    the request and the reading of its reply.  The result is the outcome
    and the requests issued. *)
Definition post_message (post : Http.Post -> Http.Outcome) (botToken chatId message : string)
  : NotifyWorker.SendOutcome * list Http.Post :=
  let req := Http.mkPost (sendMessage_url botToken) chatId message in
  match post req with
  | Http.Throws e => (NotifyWorker.SendFailed e, [req])
  | Http.Replies r =>
      if Http.ok r then (NotifyWorker.SendOk, [req])
      else (NotifyWorker.SendFailed
              (new_Error ("Telegram API error: " +:+ interpolate (Http.description r))),
            [req])
  end.

(** notify-worker.ts: the bot is configured in the settings table. *)
Module NotifyTs.
Section Send.
Context {fmt : Js.NumberFormat} {loc : Locale}.

Definition buildAlertMessage (task : NotifyTask) : string :=
  alert_message (alert_emoji (conditionType task)) (nt_symbol task)
    (conditionType task) (Js.Number_toString (nt_threshold task))
    (Number_toLocaleString (nt_price task)) (nt_reason task)
    (Date_toLocaleString (triggeredAt task * 1000)).

(** [sendTelegramNotification(task)]; [settings] is the settings table,
    read by [getSetting]. *)
Definition sendTelegramNotification (settings : gmap string string)
  (post : Http.Post -> Http.Outcome) (task : NotifyTask)
  : NotifyWorker.SendOutcome * list Http.Post :=
  let botToken := settings !! "telegram.bot_token" in
  let chatId := settings !! "telegram.chat_id" in
  if negb (truthy_string botToken) || negb (truthy_string chatId) then
    (NotifyWorker.SendFailed
       (new_Error "Telegram not configured: missing bot_token or chat_id"), [])
  else
    post_message post (default "" botToken) (default "" chatId)
      (buildAlertMessage task).

End Send.
End NotifyTs.

(** notify-worker.cjs: every task carries its owner's settings. *)
Module NotifyCjs.
Section Send.
Context {fmt : Js.NumberFormat} {loc : Locale}.

Definition buildAlertMessage (task : NotifyTask) : string :=
  alert_message (alert_emoji (conditionType task)) (nt_symbol task)
    (conditionType task) (Js.Number_toString (nt_threshold task))
    (if Js.truthy_num (nt_price task) then Number_toLocaleString (nt_price task)
     else "N/A")
    (nt_reason task)
    (Date_toLocaleString (triggeredAt task * 1000)).

Definition sendTelegramNotification (post : Http.Post -> Http.Outcome)
  (task : NotifyTask) : NotifyWorker.SendOutcome * list Http.Post :=
  let botToken := bot_token (nt_telegram task) in
  let chatId := chat_id (nt_telegram task) in
  if negb (truthy_string botToken) || negb (truthy_string chatId) then
    (NotifyWorker.SendFailed (new_Error "Telegram not configured"), [])
  else
    post_message post (default "" botToken) (default "" chatId)
      (buildAlertMessage task).

End Send.
End NotifyCjs.

(** ** Price source (price-source.ts) *)

Module PriceSource.

Definition CACHE_TTL_MS : Z := 1000.

(** The module variables [priceCache] and [cacheTimeout]. *)
Record Cache := mkCache {
  priceCache : gmap string PriceResult;
  cacheTimeout : gmap string Z
}.

Definition empty_cache : Cache := mkCache ∅ ∅.

(** What the [try] block around [axios.get] does: it throws, or
    [parseFloat(response.data.price)] yields a number. *)
Inductive HttpGet :=
  | GetThrows (e : NotifyWorker.JsError)
  | GetReturns (price : float).

(** How the promise of [getSpotPrice] settles. *)
Inductive PriceOutcome :=
  | Resolved (r : PriceResult)
  | Rejected (e : NotifyWorker.JsError).

Section Source.
(** [String.prototype.toUpperCase] *)
Variable toUpperCase : string -> string.

(** A call of [getSpotPrice] suspended at [await axios.get(...)]: the
    clock reading it took at entry, its symbol, and the entry [cached] it
    read before it issued the request. *)
Record Pending := mkPending {
  started : Z;
  asked : string;
  stale : option PriceResult
}.

(** [getSpotPrice(symbol)] up to its [await], at clock reading [now]
    (milliseconds): the cached result when the cache holds a fresh one;
    otherwise the request for [cacheKey] is issued and the call is
    suspended.  The cache is only read. *)
Definition getSpotPrice_begin (now : Z) (symbol_ : string) (c : Cache)
  : PriceResult + Pending :=
  let cacheKey := toUpperCase symbol_ in
  let cached := priceCache c !! cacheKey in
  let cacheExpire := cacheTimeout c !! cacheKey in
  match cached, cacheExpire with
  | Some r, Some expire =>
      if Js.truthy_int expire && (now <? expire) then inl r
      else inr (mkPending now symbol_ cached)
  | _, _ => inr (mkPending now symbol_ cached)
  end.

(** [getSpotPrice] from its [await] on, when the request settles as
    [http].  [c] is the cache at that moment, which other calls may have
    written since this one began. *)
Definition getSpotPrice_settle (pending : Pending) (http : HttpGet) (c : Cache)
  : PriceOutcome * Cache :=
  let cacheKey := toUpperCase (asked pending) in
  match http with
  | GetReturns p =>
      let result := mkPriceResult p (started pending / 1000) in
      (Resolved result,
       mkCache (<[cacheKey := result]> (priceCache c))
         (<[cacheKey := started pending + CACHE_TTL_MS]> (cacheTimeout c)))
  | GetThrows e =>
      match stale pending with
      | Some r => (Resolved r, c)
      | None =>
          (Rejected
             (new_Error ("Failed to fetch price for " +:+ asked pending +:+ ": "
                         +:+ interpolate (NotifyWorker.message e))),
           c)
      end
  end.

(** The cache after the requests [settled] have settled, in that order. *)
Definition after_settling (settled : list (Pending * HttpGet)) (c : Cache) : Cache :=
  foldl (λ c s, (getSpotPrice_settle s.1 s.2 c).2) c settled.

(** [getSpotPrice(symbol)] as one step, at clock reading [now] when the
    network behaves as [http]: a call during whose request no other call
    settles, so that it settles on the cache it began on
    ([getSpotPrice_begin], then [getSpotPrice_settle]).  The result is the
    outcome, the cache and the symbols requested from the exchange. *)
Definition getSpotPrice (now : Z) (symbol_ : string) (http : HttpGet) (c : Cache)
  : PriceOutcome * Cache * list string :=
  let cacheKey := toUpperCase symbol_ in
  let cached := priceCache c !! cacheKey in
  let cacheExpire := cacheTimeout c !! cacheKey in
  let fresh :=
    match cached, cacheExpire with
    | Some r, Some expire =>
        if Js.truthy_int expire && (now <? expire) then Some r else None
    | _, _ => None
    end in
  match fresh with
  | Some r => (Resolved r, c, [])
  | None =>
      match http with
      | GetReturns p =>
          let result := mkPriceResult p (now / 1000) in
          (Resolved result,
           mkCache (<[cacheKey := result]> (priceCache c))
             (<[cacheKey := now + CACHE_TTL_MS]> (cacheTimeout c)),
           [cacheKey])
      | GetThrows e =>
          match cached with
          | Some r => (Resolved r, c, [cacheKey])
          | None =>
              (Rejected
                 (new_Error ("Failed to fetch price for " +:+ symbol_ +:+ ": "
                             +:+ interpolate (NotifyWorker.message e))),
               c, [cacheKey])
          end
      end
  end.

(** [clearPriceCache()] *)
Definition clearPriceCache (c : Cache) : Cache := empty_cache.

(** One call of [getSpotPrice]: clock, symbol and network behaviour. *)
Record Call := mkCall {
  at_ms : Z;
  for_symbol : string;
  network : HttpGet
}.

(** The cache after a sequence of calls, each completed before the next
    begins, starting from a cleared cache. *)
Definition after_calls (calls : list Call) : Cache :=
  foldl (λ c call,
           (getSpotPrice (at_ms call) (for_symbol call) (network call) c).1.2)
    empty_cache calls.

(** What [executeGroupTick] sees of a call: the result, or the
    exception it catches. *)
Definition fetched (o : PriceOutcome) : option PriceResult :=
  match o with
  | Resolved r => Some r
  | Rejected _ => None
  end.

End Source.

End PriceSource.

(** [toUpperCase] on ASCII strings. *)
Definition ascii_upper (s : string) : string :=
  string_of_list_ascii
    ((λ c, let n := nat_of_ascii c in
           if (97 <=? n)%nat && (n <=? 122)%nat then ascii_of_nat (n - 32) else c)
     <$> list_ascii_of_string s).

(** ** JSON store of the CommonJS server (db.cjs) *)

Module JsonDb.

(** A user object as far as the core reads it; [telegram] is absent from
    the objects that [getAllUsers] builds. *)
Record User := mkUser {
  u_id : string;
  username : string;
  role : string;
  telegram : option Telegram
}.

(** The [data] object; every event carries its [id]. *)
Record Data := mkData {
  users : list User;
  alerts : list Alert;
  events : list (Z * AlertEvent)
}.

(** [getAllUsers()]: [{ id, username, role, created_at }] of every user. *)
Definition getAllUsers (d : Data) : list User :=
  (λ u, mkUser (u_id u) (username u) (role u) None) <$> users d.

(** [getUserById(id)] *)
Definition getUserById (i : string) (d : Data) : option User :=
  List.find (λ u, String.eqb (u_id u) i) (users d).

(** [getEnabledAlertsByUser(userId)] *)
Definition getEnabledAlertsByUser (userId : string) (d : Data) : list Alert :=
  filter (λ a, user_id a = Some userId ∧ is_enabled a = true) (alerts d).

(** [updateAlert(id, updates)]: the first rule with that id, if any.
    [saveData] writes the data as JSON text, which the next operation
    reads back. *)
Definition updateAlert (i : string) (u : AlertUpdate) (d : Data) : Data :=
  match list_find (λ a, id a = i) (alerts d) with
  | Some (index, a) =>
      mkData (users d) (<[index := apply_update (stored_update u) a]> (alerts d)) (events d)
  | None => d
  end.

Definition with_triggered_at (t : Z) (ev : AlertEvent) : AlertEvent :=
  mkAlertEvent (alert_id ev) (event_type ev) (ev_reason ev) (ev_price ev)
    (ev_threshold ev) (notify_status ev) (error_message ev) t (ev_user_id ev).

Definition MAX_EVENTS : nat := 2000.

(** [createAlertEvent(event)].  [stamp] is
    [Date.now() + Math.floor(Math.random() * 1000)] and [clock] is
    [Math.floor(Date.now() / 1000)]. *)
Definition createAlertEvent (stamp clock : Z) (ev : AlertEvent) (d : Data) : Z * Data :=
  let newEvent := (stamp, with_triggered_at (Js.or_int (triggered_at ev) clock) ev) in
  let pushed := (events d ++ [newEvent])%list in
  let kept :=
    if (MAX_EVENTS <? length pushed)%nat
    then drop (length pushed - MAX_EVENTS) pushed
    else pushed in
  (stamp, mkData (users d) (alerts d) kept).

(** [updateAlertEventStatus(id, status, errorMessage)]: the first event
    with that id, if any; [error_message] is written only when
    [errorMessage] is truthy. *)
Definition updateAlertEventStatus (i : Z) (status : string) (errorMessage : option string)
  (d : Data) : Data :=
  match list_find (λ e, e.1 = i) (events d) with
  | Some (index, e) =>
      let err := if truthy_string errorMessage then errorMessage else error_message e.2 in
      mkData (users d) (alerts d)
        (<[index := (e.1, with_status status err e.2)]> (events d))
  | None => d
  end.

(** The rules [rebuildFromDb] of lib/monitor-engine.cjs reads, in its
    order, each with [user.telegram || {}] of the user object it was
    read for. *)
Definition enabled_rows_by_user (d : Data) : list (Telegram * Alert) :=
  user ← getAllUsers d;
  (λ a, (default no_telegram (telegram user), a)) <$> getEnabledAlertsByUser (u_id user) d.

(** [user?.telegram || {}] for the owner that [applyChange] of
    lib/monitor-engine.cjs looks up. *)
Definition owner_telegram (a : Alert) (d : Data) : Telegram :=
  let user :=
    if truthy_string (user_id a) then getUserById (default "" (user_id a)) d else None in
  match user with
  | Some u => default no_telegram (telegram u)
  | None => no_telegram
  end.

End JsonDb.











(** ** Vocabulary for delivery *)

(** A setting that is missing or empty. *)
Definition unset (v : option string) : Prop := v = None ∨ v = Some "".

(** The steps of a delivery whose three attempts all fail, after the
    rate-limit pause [spacing]. *)
Definition three_failed_attempts (spacing : list NotifyWorker.WorkerStep)
  : list NotifyWorker.WorkerStep :=
  (spacing ++ [NotifyWorker.Send 1; NotifyWorker.Sleep 1000; NotifyWorker.Send 2;
               NotifyWorker.Sleep 3000; NotifyWorker.Send 3])%list.

(** The pause [processTask] takes first when the last delivery began less
    than [RATE_LIMIT_DELAY] ms ago. *)
Definition rate_limit_pause (t0 lastSendTime : Z) : list NotifyWorker.WorkerStep :=
  if t0 - lastSendTime <? NotifyWorker.RATE_LIMIT_DELAY
  then [NotifyWorker.Sleep (NotifyWorker.RATE_LIMIT_DELAY - (t0 - lastSendTime))]
  else [].

(** A locale that prints nothing, for examples. *)
Definition plain_locale : Locale :=
  {| Date_toLocaleString := λ _, ""; Number_toLocaleString := λ _, "" |}.

(** Any sequence of group ticks of the CommonJS engine, each at its own
    time, with its own fetch result, for its own group. *)
Definition after_ticks_cjs {F : Js.NumberFormat} {S : Type} {St : RuleStore S}
  (ticks : list (Z * option PriceResult * AlertGroup)) (w : World S) : World S :=
  foldl (λ w t, (TickCjs.executeGroupTick t.1.1 t.1.2 t.2 w).2) w ticks.

(** A CommonJS store with one user, whose Telegram bot is configured, and
    one enabled rule of that user. *)
Definition one_user_data : JsonDb.Data :=
  JsonDb.mkData
    [JsonDb.mkUser "u1" "alice" "user" (Some (mkTelegram (Some "123:abc") (Some "42")))]
    [price_gte_times None] [].


(** Every indexed rule of [w], and every task [w] holds for the delivery
    queue, carries the Telegram settings [tg]. *)
Definition all_carry {S : Type} (tg : Telegram) (w : World S) : Prop :=
  (∀ i a, alertsById (engine w) !! i = Some a → _telegram a = tg)
  ∧ (∀ dt, dt ∈ outbox w → nt_telegram dt.2 = tg).


(** ** Vocabulary for the price cache *)

(** Every cached price was fetched [CACHE_TTL_MS] before its expiry. *)
Definition cache_ok (c : PriceSource.Cache) : Prop :=
  ∀ k r e, PriceSource.priceCache c !! k = Some r →
    PriceSource.cacheTimeout c !! k = Some e →
    price_ts r = (e - PriceSource.CACHE_TTL_MS) / 1000.




(** The time a list of worker steps spends asleep, in milliseconds. *)
Definition slept (steps : list NotifyWorker.WorkerStep) : Z :=
  foldr (λ st acc, match st with
                   | NotifyWorker.Sleep ms => ms + acc
                   | NotifyWorker.Send _ => acc
                   end) 0 steps.


(** ** Rule routes of the HTTP API (api.ts) on the SQLite store (db.ts) *)

Module AlertRoutes.

(** The row the [INSERT] of [createAlert] writes, as it is read back:
    [last_state] goes through JSON text. *)
Definition stored_rule (a : Alert) : Alert :=
  mkAlert (id a) (symbol a) (condition_type a) (threshold a)
    (poll_interval_sec a) (cooldown_sec a) (is_enabled a) (last_triggered_at a)
    (json_state <$> last_state a) (user_id a) (notify_times a).

(** db.ts [createAlert]: [INSERT INTO alerts ...].  The insert throws,
    and writes nothing, when the id is taken ([id] is the primary key of
    the table) or when the threshold is NaN (bound as [NULL] to a
    [NOT NULL] column). *)
Definition createAlert (a : Alert) (s : SqliteStore) : option SqliteStore :=
  if bool_decide (id a ∈ id <$> alerts_table s) || PrimFloat.is_nan (threshold a)
  then None
  else Some (mkSqliteStore (alerts_table s ++ [stored_rule a]) (events_table s)).

(** db.ts [getAlert]: [SELECT * FROM alerts WHERE id = ?]. *)
Definition getAlert (i : string) (s : SqliteStore) : option Alert :=
  List.find (λ r, String.eqb (id r) i) (alerts_table s).

(** db.ts [deleteAlert]: [DELETE FROM alerts WHERE id = ?].
    [alert_events.alert_id] is a foreign key into [alerts]: the delete
    throws, and removes nothing, when it would take away a rule that an
    event row refers to. *)
Definition deleteAlert (i : string) (s : SqliteStore) : option SqliteStore :=
  if bool_decide (i ∈ id <$> alerts_table s ∧ i ∈ alert_id <$> events_table s)
  then None
  else Some (mkSqliteStore (filter (λ r, id r ≠ i) (alerts_table s)) (events_table s)).

(** db.ts [updateAlert(id, updates)] for the [updates] object of the
    PATCH route, which holds [is_enabled] or nothing; the column is set
    to [updates.is_enabled ? 1 : 0]. *)
Definition updateAlert_is_enabled (i : string) (is_enabled_ : option bool)
  (s : SqliteStore) : SqliteStore :=
  match is_enabled_ with
  | Some b =>
      mkSqliteStore
        ((λ r, if String.eqb (id r) i then set_enabled b r else r) <$> alerts_table s)
        (events_table s)
  | None => s
  end.

Section Routes.
Context {fmt : Js.NumberFormat}.

(** [POST /api/alerts], once [parseAlertInput] has accepted the body and
    built the rule [parsed] from it.  The result is the status code and
    the new state; an exception of the store gives status 500. *)
Definition post_alert (now : Z) (parsed : Alert) (w : World SqliteStore)
  : Z * World SqliteStore :=
  match createAlert parsed (store w) with
  | Some s' =>
      (201, mkWorld (applyChange now no_telegram Upsert parsed (engine w)) s' (outbox w))
  | None => (500, w)
  end.

(** [PATCH /api/alerts/:id]; [body_is_enabled] is the truthiness of
    [body.is_enabled], if the body defines it. *)
Definition patch_alert (now : Z) (i : string) (body_is_enabled : option bool)
  (w : World SqliteStore) : Z * World SqliteStore :=
  match getAlert i (store w) with
  | None => (404, w)
  | Some existing =>
      let s' := updateAlert_is_enabled i body_is_enabled (store w) in
      match getAlert i s' with
      | Some updated =>
          (200, mkWorld (applyChange now no_telegram Update updated (engine w)) s'
                  (outbox w))
      | None => (200, mkWorld (engine w) s' (outbox w))
      end
  end.

(** [DELETE /api/alerts/:id]; an exception of the store gives status
    500, before the indexes are touched. *)
Definition delete_alert (now : Z) (i : string) (w : World SqliteStore)
  : Z * World SqliteStore :=
  match getAlert i (store w) with
  | None => (404, w)
  | Some existing =>
      match deleteAlert i (store w) with
      | Some s' =>
          (200, mkWorld (applyChange now no_telegram Delete existing (engine w)) s'
                  (outbox w))
      | None => (500, w)
      end
  end.

(** [POST /api/engine/rebuild] *)
Definition rebuild (now : Z) (w : World SqliteStore) : Z * World SqliteStore :=
  (200, mkWorld (rebuildFromDb now (getEnabledAlerts (alerts_table (store w))))
          (store w) (outbox w)).

(** What happens to the server: one of the four routes is served, or a
    group tick runs. *)
Inductive Call :=
  | Post (parsed : Alert)
  | Patch (i : string) (body_is_enabled : option bool)
  | Remove (i : string)
  | Rebuild
  | Tick (fetched : option PriceResult) (group : AlertGroup).

Definition handle (now : Z) (c : Call) (w : World SqliteStore) : World SqliteStore :=
  match c with
  | Post parsed => (post_alert now parsed w).2
  | Patch i b => (patch_alert now i b w).2
  | Remove i => (delete_alert now i w).2
  | Rebuild => (rebuild now w).2
  | Tick fetched group => (TickTs.executeGroupTick now fetched group w).2
  end.

(** A history of calls, each with the clock reading at its start. *)
Definition after (h : list (Z * Call)) (w : World SqliteStore) : World SqliteStore :=
  foldl (λ w c, handle c.1 c.2 w) w h.

End Routes.
End AlertRoutes.

(** ** Vocabulary for the store and the index together *)

(** [r'] is the row [r] up to what a tick writes. *)
Definition same_row (r r' : Alert) : Prop :=
  id r' = id r ∧ symbol r' = symbol r ∧ condition_type r' = condition_type r
  ∧ threshold r' = threshold r ∧ poll_interval_sec r' = poll_interval_sec r
  ∧ cooldown_sec r' = cooldown_sec r ∧ is_enabled r' = is_enabled r
  ∧ user_id r' = user_id r ∧ notify_times r' = notify_times r.

(** The by-id index holds the enabled rows of the [alerts] table, whose
    ids are distinct: every indexed rule is such a row up to what a tick
    writes, and every such row is indexed. *)
Definition mirrors (w : World SqliteStore) : Prop :=
  NoDup (id <$> alerts_table (store w))
  ∧ (∀ i aw, alertsById (engine w) !! i = Some aw →
       ∃ row, row ∈ alerts_table (store w) ∧ id row = i ∧ is_enabled row = true
              ∧ same_rule (index_entry no_telegram row) aw)
  ∧ (∀ row, row ∈ alerts_table (store w) → is_enabled row = true →
       is_Some (alertsById (engine w) !! id row)).

(** A rule as [parseAlertInput] builds it, for examples. *)
Definition sol_rule (on : bool) : Alert :=
  mkAlert "r7" "SOLUSDT" "price_lte" 20%float 10 300 on None None None None.






(** ** Rule routes of the CommonJS server (api.cjs) on the JSON store *)

Module AlertRoutesCjs.

(** db.cjs [getAlert(id)] *)
Definition getAlert (i : string) (d : JsonDb.Data) : option Alert :=
  List.find (λ a, String.eqb (id a) i) (JsonDb.alerts d).

(** db.cjs [deleteAlert(id)] *)
Definition deleteAlert (i : string) (d : JsonDb.Data) : JsonDb.Data :=
  JsonDb.mkData (JsonDb.users d) (filter (λ a, id a ≠ i) (JsonDb.alerts d))
    (JsonDb.events d).

(** db.cjs [updateAlert(id, updates)] for the [updates] object of the
    PATCH route, which holds [is_enabled] or nothing.  The engine only
    ever tests the truthiness of the stored value. *)
Definition updateAlert_is_enabled (i : string) (is_enabled_ : option bool)
  (d : JsonDb.Data) : JsonDb.Data :=
  match list_find (λ a, id a = i) (JsonDb.alerts d) with
  | Some (index, a) =>
      JsonDb.mkData (JsonDb.users d)
        (<[index := match is_enabled_ with Some b => set_enabled b a | None => a end]>
           (JsonDb.alerts d))
        (JsonDb.events d)
  | None => d
  end.

(** [PATCH /api/alerts/:id] for the session of user [userId]. *)
Definition patch_alert (now : Z) (userId i : string) (body_is_enabled : option bool)
  (st : JsonDb.Data * Engine) : Z * (JsonDb.Data * Engine) :=
  match getAlert i st.1 with
  | None => (404, st)
  | Some existing =>
      if bool_decide (user_id existing = Some userId) then
        let d' := updateAlert_is_enabled i body_is_enabled st.1 in
        match getAlert i d' with
        | Some updated =>
            (200, (d', applyChange now (JsonDb.owner_telegram updated d') Update
                         updated st.2))
        | None => (200, (d', st.2))
        end
      else (404, st)
  end.

(** [DELETE /api/alerts/:id] for the session of user [userId]. *)
Definition delete_alert (now : Z) (userId i : string) (st : JsonDb.Data * Engine)
  : Z * (JsonDb.Data * Engine) :=
  match getAlert i st.1 with
  | None => (404, st)
  | Some existing =>
      if bool_decide (user_id existing = Some userId) then
        (200, (deleteAlert i st.1, applyChange now no_telegram Delete existing st.2))
      else (404, st)
  end.

End AlertRoutesCjs.

(** A second user's rule, for examples. *)
Definition bobs_rule : Alert :=
  mkAlert "r8" "BTCUSDT" "price_gte" 60000%float 5 300 true None None (Some "u2") None.




(** * Properties *)

(** ** Condition evaluator *)

Lemma in_cooldown_iff a now :
  in_cooldown a now = true ↔ within_cooldown a now.
Proof.
  unfold in_cooldown, within_cooldown, Js.truthy_int.
  destruct (last_triggered_at (alert a)) as [t|]; split.
  - intros [Ht Hlt]%andb_true_iff. exists t. repeat split.
    + apply negb_true_iff, Z.eqb_neq in Ht. exact Ht.
    + apply Z.ltb_lt. exact Hlt.
  - intros (t' & [= <-] & Hne & Hlt). apply andb_true_iff. split.
    + apply negb_true_iff, Z.eqb_neq. exact Hne.
    + apply Z.ltb_lt. exact Hlt.
  - discriminate.
  - intros (t' & Habs & _). discriminate.
Qed.

Lemma not_in_cooldown_iff a now :
  in_cooldown a now = false ↔ ¬ within_cooldown a now.
Proof.
  rewrite <- in_cooldown_iff. destruct (in_cooldown a now); split; auto; try discriminate.
  intros Hn. exfalso. apply Hn. reflexivity.
Qed.

(** Case analysis on the [switch (alert.condition_type)]. *)
Ltac kind_cases k :=
  destruct (String.eqb_spec k "cross_up");
  [| destruct (String.eqb_spec k "cross_down");
     [| destruct (String.eqb_spec k "price_gte");
        [| destruct (String.eqb_spec k "price_lte");
           [| destruct (String.eqb_spec k "pct_change_up");
              [| destruct (String.eqb_spec k "pct_change_down") ]]]]].

(** A cross_up (resp. cross_down) rule whose state holds no was-above
    (resp. was-below) flag does not trigger when it is evaluated, whatever
    the price and the threshold, in either engine; and unless the cooldown
    guard returns first, the evaluation stores the current
    price-versus-threshold comparison as the flag. *)
Lemma cross_flag_lazily_initialized (F : Js.NumberFormat)
  (a : AlertWithState) (now : Z) (p : float) :
  (condition_type (alert a) = "cross_up" ∧ wasAbove (_lastState a) = None)
  ∨ (condition_type (alert a) = "cross_down" ∧ wasBelow (_lastState a) = None) →
  let ts := MonitorEngineTs.shouldTrigger a now p in
  let cjs := MonitorEngineCjs.shouldTrigger a now p in
  triggered ts.1 = false ∧ triggered cjs.1 = false ∧ ts.2 = cjs.2
  ∧ (¬ within_cooldown a now →
     (condition_type (alert a) = "cross_up" →
      wasAbove ts.2 = Some (Js.ge p (threshold (alert a))))
     ∧ (condition_type (alert a) = "cross_down" →
        wasBelow ts.2 = Some (Js.le p (threshold (alert a))))).
Proof.
  intros Hkind ts cjs. subst ts cjs.
  unfold MonitorEngineTs.shouldTrigger, MonitorEngineCjs.shouldTrigger.
  destruct (in_cooldown a now) eqn:Hcd.
  - simpl. do 3 (split; [reflexivity|]).
    intros Hout. exfalso. apply Hout, in_cooldown_iff, Hcd.
  - destruct Hkind as [[Hk Hflag] | [Hk Hflag]]; rewrite Hk, Hflag; simpl;
      [ destruct (Js.ge p (threshold (alert a))) | destruct (Js.le p (threshold (alert a))) ];
      simpl; repeat split; try reflexivity; try discriminate.
Qed.

(** C5 (evaluation of the code).  The first half of the claim holds: a
    cross_up (resp. cross_down) rule whose state holds no flag never
    triggers on that evaluation, for every price and threshold, and
    outside the cooldown window the evaluation stores the current
    comparison as the flag.  The second half does not: a trigger need not
    be a genuine transition.  A cross_up rule with threshold 100 and no
    cooldown, first observed at 90, triggers at 110, where the price has
    crossed the threshold, and triggers again at 120, where it has not:
    the price was already above at the observation before.  The trigger
    at 110 left the flag at [false].  Both engines. *)
Theorem cross_trigger_without_transition :
  (∀ (F : Js.NumberFormat) (a : AlertWithState) (now : Z) (p : float),
     (condition_type (alert a) = "cross_up" ∧ wasAbove (_lastState a) = None)
     ∨ (condition_type (alert a) = "cross_down" ∧ wasBelow (_lastState a) = None) →
     let ts := MonitorEngineTs.shouldTrigger a now p in
     let cjs := MonitorEngineCjs.shouldTrigger a now p in
     triggered ts.1 = false ∧ triggered cjs.1 = false
     ∧ (¬ within_cooldown a now →
        (condition_type (alert a) = "cross_up" →
         wasAbove ts.2 = Some (Js.ge p (threshold (alert a)))
         ∧ wasAbove cjs.2 = Some (Js.ge p (threshold (alert a))))
        ∧ (condition_type (alert a) = "cross_down" →
           wasBelow ts.2 = Some (Js.le p (threshold (alert a)))
           ∧ wasBelow cjs.2 = Some (Js.le p (threshold (alert a))))))
  ∧ (let a0 := index_entry no_telegram cross_up_100 in
     let r1 := MonitorEngineTs.shouldTrigger (fmt := plain_format) a0 1000 90%float in
     let a1 := after_evaluation 1000 r1 a0 in
     let r2 := MonitorEngineTs.shouldTrigger (fmt := plain_format) a1 1005 110%float in
     let a2 := after_evaluation 1005 r2 a1 in
     let r3 := MonitorEngineTs.shouldTrigger (fmt := plain_format) a2 1010 120%float in
     let c1 := MonitorEngineCjs.shouldTrigger (fmt := plain_format) a0 1000 90%float in
     let b1 := after_evaluation 1000 c1 a0 in
     let c2 := MonitorEngineCjs.shouldTrigger (fmt := plain_format) b1 1005 110%float in
     let b2 := after_evaluation 1005 c2 b1 in
     let c3 := MonitorEngineCjs.shouldTrigger (fmt := plain_format) b2 1010 120%float in
     wasAbove (_lastState a0) = None
     ∧ crosses_up 100%float 90%float 110%float
     ∧ ¬ crosses_up 100%float 110%float 120%float
     ∧ (triggered r1.1 = false ∧ wasAbove r1.2 = Some false)
     ∧ (triggered r2.1 = true ∧ wasAbove r2.2 = Some false)
     ∧ triggered r3.1 = true
     ∧ (triggered c1.1 = false ∧ wasAbove c1.2 = Some false)
     ∧ (triggered c2.1 = true ∧ wasAbove c2.2 = Some false)
     ∧ triggered c3.1 = true).
Proof.
  split.
  - intros F a now p Hkind ts cjs.
    destruct (cross_flag_lazily_initialized F a now p Hkind) as (Hts & Hcjs & Heq & Hflag).
    fold ts cjs in Hts, Hcjs, Heq, Hflag.
    split; [exact Hts |]. split; [exact Hcjs |].
    intros Hout. destruct (Hflag Hout) as [Hup Hdown].
    split; intros Hk; rewrite <- Heq; split; auto.
  - cbv zeta. split; [reflexivity |].
    split; [split; vm_compute; reflexivity |].
    split; [intros [Hwas _]; vm_compute in Hwas; discriminate |].
    vm_compute. repeat split; reflexivity.
Qed.

(** The guard tests [last_triggered_at] for truthiness: a stored [0]
    opens no window. *)
Lemma epoch_timestamp_opens_no_window a now :
  last_triggered_at (alert a) = Some 0 → in_cooldown a now = false.
Proof. unfold in_cooldown. now intros ->. Qed.

(** C4.  Inside the cooldown window (a last trigger at a time [t] that
    the guard sees as set, i.e. not [0], with [now - t < cooldown_sec])
    both evaluators answer non-triggered and
    return the evaluator state as it was; at [now = t + cooldown_sec] the
    window is over; and outside the window a price_gte (resp. price_lte)
    rule triggers exactly when [price >= threshold] (resp.
    [price <= threshold]), reading and changing nothing of the state. *)
Theorem cooldown_gate_then_level_comparison (F : Js.NumberFormat)
  (a : AlertWithState) (now : Z) (p : float) :
  let ts := MonitorEngineTs.shouldTrigger a now p in
  let cjs := MonitorEngineCjs.shouldTrigger a now p in
  (within_cooldown a now →
   ts = (mkTriggerResult false "cooldown", _lastState a)
   ∧ cjs = (mkTriggerResult false "cooldown", _lastState a))
  ∧ (∀ t, last_triggered_at (alert a) = Some t →
     ¬ within_cooldown a (t + cooldown_sec (alert a)))
  ∧ (¬ within_cooldown a now → condition_type (alert a) = "price_gte" →
     triggered ts.1 = Js.ge p (threshold (alert a)) ∧ ts.2 = _lastState a
     ∧ cjs = ts)
  ∧ (¬ within_cooldown a now → condition_type (alert a) = "price_lte" →
     triggered ts.1 = Js.le p (threshold (alert a)) ∧ ts.2 = _lastState a
     ∧ cjs = ts).
Proof.
  intros ts cjs. subst ts cjs.
  unfold MonitorEngineTs.shouldTrigger, MonitorEngineCjs.shouldTrigger.
  split; [| split; [| split]].
  - intros Hin%in_cooldown_iff. rewrite Hin. split; reflexivity.
  - intros t Ht (t' & Ht' & _ & Hlt). rewrite Ht in Ht'. injection Ht' as <-. lia.
  - intros Hout%not_in_cooldown_iff Hk. rewrite Hout, Hk. simpl.
    destruct (Js.ge p (threshold (alert a))); repeat split; reflexivity.
  - intros Hout%not_in_cooldown_iff Hk. rewrite Hout, Hk. simpl.
    destruct (Js.le p (threshold (alert a))); repeat split; reflexivity.
Qed.

Lemma cooldown_gate_then_level_comparison_witness :
  let a := with_last_triggered_at 1000
             (index_entry no_telegram
                (new_alert "r1" "BTCUSDT" "price_gte" 50000%float 5 300)) in
  MonitorEngineTs.shouldTrigger (fmt := plain_format) a 1299 50100%float
    = (mkTriggerResult false "cooldown", empty_state)
  ∧ ¬ within_cooldown a 1300
  ∧ triggered (MonitorEngineTs.shouldTrigger (fmt := plain_format) a 1300 50100%float).1
    = true.
Proof.
  intros a.
  assert (Hout : ¬ within_cooldown a 1300).
  { apply (proj1 (proj2 (cooldown_gate_then_level_comparison plain_format a 0 0%float))
             1000 eq_refl). }
  split; [| split; [exact Hout |]].
  - apply (proj1 (cooldown_gate_then_level_comparison plain_format a 1299 50100%float)).
    exists 1000. split; [reflexivity | split; [discriminate | reflexivity]].
  - destruct (proj1 (proj2 (proj2
      (cooldown_gate_then_level_comparison plain_format a 1300 50100%float)))
      Hout eq_refl) as (Htrig & _).
    rewrite Htrig. reflexivity.
Defined.

Lemma single_rule_group_rebuilt t0 r :
  is_enabled r = true →
  groups (rebuildFromDb t0 (getEnabledAlerts [r]))
    !! makeGroupKey (symbol r) (poll_interval_sec r)
  = Some (single_rule_group t0 r).
Proof.
  intros Hen. unfold getEnabledAlerts. simpl.
  rewrite filter_cons_True by exact Hen. rewrite filter_nil. simpl.
  unfold rebuildFromDb, index_alert, add_to_group. simpl.
  rewrite lookup_empty, lookup_alter_eq, lookup_insert_eq. reflexivity.
Qed.

(** A trigger returns before any of the evaluator's state updates, in
    every condition kind and in both engines. *)
Lemma trigger_leaves_state (F : Js.NumberFormat) a now p :
  (triggered (MonitorEngineTs.shouldTrigger a now p).1 = true →
   (MonitorEngineTs.shouldTrigger a now p).2 = _lastState a)
  ∧ (triggered (MonitorEngineCjs.shouldTrigger a now p).1 = true →
     (MonitorEngineCjs.shouldTrigger a now p).2 = _lastState a).
Proof.
  unfold MonitorEngineTs.shouldTrigger, MonitorEngineCjs.shouldTrigger.
  destruct (in_cooldown a now); [split; discriminate|].
  kind_cases (condition_type (alert a)); simpl;
    repeat match goal with
           | |- context [if ?b then _ else _] => destruct b; simpl
           | |- context [match ?o with Some _ => _ | None => _ end] => destruct o; simpl
           end; split; first [reflexivity | discriminate].
Qed.

(** An evaluation of a percent-change rule that does not trigger and is
    not stopped by the cooldown guard stores the observed price as the
    baseline. *)
Lemma pct_change_no_trigger_rebases (F : Js.NumberFormat) a now p :
  ¬ within_cooldown a now →
  condition_type (alert a) = "pct_change_up"
  ∨ condition_type (alert a) = "pct_change_down" →
  (triggered (MonitorEngineTs.shouldTrigger a now p).1 = false →
   basePrice (MonitorEngineTs.shouldTrigger a now p).2 = Some p)
  ∧ (triggered (MonitorEngineCjs.shouldTrigger a now p).1 = false →
     basePrice (MonitorEngineCjs.shouldTrigger a now p).2 = Some p).
Proof.
  intros Hout%not_in_cooldown_iff Hk.
  unfold MonitorEngineTs.shouldTrigger, MonitorEngineCjs.shouldTrigger.
  rewrite Hout. destruct Hk as [-> | ->]; simpl;
    repeat match goal with
           | |- context [if ?b then _ else _] => destruct b; simpl
           | |- context [match ?o with Some _ => _ | None => _ end] => destruct o; simpl
           end; split; first [reflexivity | discriminate].
Qed.

(** With a usable baseline, a percent-change rule outside its cooldown
    triggers exactly when the computed change meets the threshold. *)
Lemma pct_change_trigger_condition (F : Js.NumberFormat) a now p base :
  ¬ within_cooldown a now →
  basePrice_truthy (_lastState a) = Some base →
  (condition_type (alert a) = "pct_change_up" →
   triggered (MonitorEngineCjs.shouldTrigger a now p).1
   = Js.ge (pct_change p base) (threshold (alert a)))
  ∧ (condition_type (alert a) = "pct_change_down" →
     triggered (MonitorEngineCjs.shouldTrigger a now p).1
     = Js.le (pct_change p base) (PrimFloat.opp (threshold (alert a))))
  ∧ (∀ w, windowSec (_lastState a) = Some w → 0 < w →
     (condition_type (alert a) = "pct_change_up" →
      triggered (MonitorEngineTs.shouldTrigger a now p).1
      = Js.ge (pct_change p base) (threshold (alert a)))
     ∧ (condition_type (alert a) = "pct_change_down" →
        triggered (MonitorEngineTs.shouldTrigger a now p).1
        = Js.le (pct_change p base) (PrimFloat.opp (threshold (alert a))))).
Proof.
  intros Hout%not_in_cooldown_iff Hbase.
  unfold MonitorEngineTs.shouldTrigger, MonitorEngineCjs.shouldTrigger.
  rewrite Hout.
  assert (Hor : ∀ w, 0 < w → Js.or_int w 0 = w).
  { intros w Hpos. unfold Js.or_int, Js.truthy_int.
    destruct (Z.eqb_spec w 0); [lia | reflexivity]. }
  split; [| split; [| intros w Hws Hpos; split]].
  - intros ->. simpl. rewrite Hbase.
    destruct (Js.ge (pct_change p base) (threshold (alert a))); reflexivity.
  - intros ->. simpl. rewrite Hbase.
    destruct (Js.le (pct_change p base) (- threshold (alert a))%float); reflexivity.
  - intros ->. simpl. rewrite Hws. simpl. rewrite (Hor w Hpos).
    destruct (Z.ltb_spec 0 w); [| lia]. rewrite Hbase.
    destruct (Js.ge (pct_change p base) (threshold (alert a))); reflexivity.
  - intros ->. simpl. rewrite Hws. simpl. rewrite (Hor w Hpos).
    destruct (Z.ltb_spec 0 w); [| lia]. rewrite Hbase.
    destruct (Js.le (pct_change p base) (- threshold (alert a))%float); reflexivity.
Qed.

(** The rule object a tick has evaluated is the one [after_evaluation]
    describes, in both engines. *)
Lemma tick_alert_object (F : Js.NumberFormat) {S : Type} (St : RuleStore S)
  (now : Z) (p : float) (w : World S) (i : string) (a : AlertWithState) :
  alertsById (engine w) !! i = Some a → is_enabled (alert a) = true →
  alertsById (engine (TickTs.tick_alert now p w i)) !! i
  = Some (after_evaluation now (MonitorEngineTs.shouldTrigger a now p) a)
  ∧ alertsById (engine (TickCjs.tick_alert now p w i)) !! i
    = Some (after_evaluation now (MonitorEngineCjs.shouldTrigger a now p) a).
Proof.
  intros Ha Hon.
  unfold TickTs.tick_alert, TickCjs.tick_alert, TickTs.tick_alert_run,
    TickCjs.tick_alert_run, after_evaluation.
  rewrite Ha, Hon. simpl.
  destruct (MonitorEngineTs.shouldTrigger a now p) as [rt st].
  destruct (MonitorEngineCjs.shouldTrigger a now p) as [rc sc]. simpl.
  split.
  - destruct (triggered rt).
    + destruct (createAlertEvent _ _) as [[evId s2]|]; simpl; apply lookup_insert_eq.
    + simpl. apply lookup_insert_eq.
  - destruct (triggered rc).
    + destruct (createAlertEvent _ _) as [[evId s2]|]; simpl; apply lookup_insert_eq.
    + simpl. apply lookup_insert_eq.
Qed.

(** C3 (evaluation of the code).  A cross_up rule with threshold 100 and
    no cooldown, observed at 90, 110 and 120: the second observation
    triggers and leaves the was-above flag at [false], so the third
    observation triggers again; three ticks of its group record two
    trigger events.  Both engines. *)
Theorem cross_up_retriggers_while_above :
  let a0 := index_entry no_telegram cross_up_100 in
  let r1 := MonitorEngineTs.shouldTrigger (fmt := plain_format) a0 1000 90%float in
  let a1 := after_evaluation 1000 r1 a0 in
  let r2 := MonitorEngineTs.shouldTrigger (fmt := plain_format) a1 1005 110%float in
  let a2 := after_evaluation 1005 r2 a1 in
  let r3 := MonitorEngineTs.shouldTrigger (fmt := plain_format) a2 1010 120%float in
  let c1 := MonitorEngineCjs.shouldTrigger (fmt := plain_format) a0 1000 90%float in
  let b1 := after_evaluation 1000 c1 a0 in
  let c2 := MonitorEngineCjs.shouldTrigger (fmt := plain_format) b1 1005 110%float in
  let b2 := after_evaluation 1005 c2 b1 in
  let c3 := MonitorEngineCjs.shouldTrigger (fmt := plain_format) b2 1010 120%float in
  let obs := [(1000, 90%float); (1005, 110%float); (1010, 120%float)] in
  let start := (single_rule_group 995 cross_up_100, single_rule_world 995 cross_up_100) in
  (triggered r1.1 = false ∧ wasAbove r1.2 = Some false)
  ∧ (triggered r2.1 = true ∧ wasAbove r2.2 = Some false)
  ∧ triggered r3.1 = true
  ∧ (triggered c1.1 = false ∧ wasAbove c1.2 = Some false)
  ∧ (triggered c2.1 = true ∧ wasAbove c2.2 = Some false)
  ∧ triggered c3.1 = true
  ∧ triggered_at <$> events_table (store (ticks_ts plain_format obs start).2)
    = [1005; 1010]
  ∧ triggered_at <$> events_table (store (ticks_cjs plain_format obs start).2)
    = [1005; 1010].
Proof. vm_compute. repeat split; reflexivity. Qed.

(** C2 (evaluation of the code).  A pct_change_up rule with threshold 5
    whose baseline is 100, observed at 110: the rule triggers (the change
    is 10) and the stored baseline is still 100, not the observed 110; so
    a further observation at 110 is again measured against 100 and
    triggers again.  The same for pct_change_down at 90.  Both engines. *)
Theorem pct_change_trigger_keeps_old_baseline :
  let up0 := index_entry no_telegram pct_up_5 in
  let u1 := MonitorEngineTs.shouldTrigger (fmt := plain_format) up0 1000 100%float in
  let up1 := after_evaluation 1000 u1 up0 in
  let u2 := MonitorEngineTs.shouldTrigger (fmt := plain_format) up1 1005 110%float in
  let up2 := after_evaluation 1005 u2 up1 in
  let u3 := MonitorEngineTs.shouldTrigger (fmt := plain_format) up2 1010 110%float in
  let v1 := MonitorEngineCjs.shouldTrigger (fmt := plain_format) up0 1000 100%float in
  let vp1 := after_evaluation 1000 v1 up0 in
  let v2 := MonitorEngineCjs.shouldTrigger (fmt := plain_format) vp1 1005 110%float in
  let vp2 := after_evaluation 1005 v2 vp1 in
  let v3 := MonitorEngineCjs.shouldTrigger (fmt := plain_format) vp2 1010 110%float in
  let dn0 := index_entry no_telegram pct_down_5 in
  let d1 := MonitorEngineTs.shouldTrigger (fmt := plain_format) dn0 1000 100%float in
  let dn1 := after_evaluation 1000 d1 dn0 in
  let d2 := MonitorEngineTs.shouldTrigger (fmt := plain_format) dn1 1005 90%float in
  (triggered u1.1 = false ∧ basePrice u1.2 = Some 100%float)
  ∧ (triggered u2.1 = true ∧ basePrice u2.2 = Some 100%float)
  ∧ triggered u3.1 = true
  ∧ (triggered v1.1 = false ∧ basePrice v1.2 = Some 100%float)
  ∧ (triggered v2.1 = true ∧ basePrice v2.2 = Some 100%float)
  ∧ triggered v3.1 = true
  ∧ (triggered d2.1 = true ∧ basePrice d2.2 = Some 100%float).
Proof. vm_compute. repeat split; reflexivity. Qed.

(** ** Group tick *)

Lemma failed_fetch_is_identity (F : Js.NumberFormat) {S : Type} (St : RuleStore S)
  (now : Z) (g : AlertGroup) (w : World S) :
  TickTs.executeGroupTick now None g w = (g, w)
  ∧ TickCjs.executeGroupTick now None g w = (g, w).
Proof. split; reflexivity. Qed.

(** C1 (evaluation of the code).  When the price fetch fails the tick
    returns the group object and the world exactly as they were: no rule
    state, no [last_triggered_at], no event changes, and neither does
    [nextRunAt].  For the group of a rule polled every 5 s that is due at
    1000, a failed tick at 1000 leaves [nextRunAt] at 1000 rather than
    1005, so the group is still due at the next scan.  Both engines. *)
Theorem failed_fetch_leaves_nextRunAt (F : Js.NumberFormat) :
  (∀ (S : Type) (St : RuleStore S) now g (w : World S),
     TickTs.executeGroupTick now None g w = (g, w)
     ∧ TickCjs.executeGroupTick now None g w = (g, w))
  ∧ (let g := single_rule_group 995 cross_up_100 in
     let w := single_rule_world 995 cross_up_100 in
     let ts := TickTs.executeGroupTick 1000 None g w in
     let cjs := TickCjs.executeGroupTick 1000 None g w in
     is_due 1000 g = true
     ∧ 1000 + g_interval g = 1005
     ∧ nextRunAt ts.1 = 1000 ∧ is_due 1000 ts.1 = true ∧ ts.2 = w
     ∧ nextRunAt cjs.1 = 1000 ∧ is_due 1000 cjs.1 = true ∧ cjs.2 = w).
Proof.
  split.
  - intros S St now g w. apply failed_fetch_is_identity.
  - simpl. repeat split; reflexivity.
Qed.

(** ** Reason strings *)

Lemma append_empty_r (s : string) : s +:+ "" = s.
Proof.
  induction s as [|c s IH]; [reflexivity |].
  change (String c (s +:+ "") = String c s). now rewrite IH.
Qed.

Lemma append_assoc (s1 s2 s3 : string) : (s1 +:+ s2) +:+ s3 = s1 +:+ (s2 +:+ s3).
Proof.
  induction s1 as [|c s1 IH]; [reflexivity |].
  change (String c ((s1 +:+ s2) +:+ s3) = String c (s1 +:+ (s2 +:+ s3))).
  now rewrite IH.
Qed.

Lemma starts_with_spec (p s : string) :
  starts_with p s = true ↔ ∃ post, s = p +:+ post.
Proof.
  revert s. induction p as [|a p IH]; intros s; simpl.
  - split; [intros _; exists s; reflexivity | reflexivity].
  - destruct s as [|b s].
    + split; [discriminate | intros [post Hpost]; discriminate].
    + rewrite andb_true_iff, IH. split.
      * intros [Hab [post ->]]. apply Ascii.eqb_eq in Hab as ->. exists post. reflexivity.
      * intros [post [= -> ->]]. split; [apply Ascii.eqb_refl | exists post; reflexivity].
Qed.

Lemma includes_spec (needle hay : string) :
  includes needle hay = true ↔ embeds needle hay.
Proof.
  unfold embeds. split.
  - induction hay as [|c hay IH]; simpl; rewrite orb_true_iff.
    + intros [Hp | Habs]; [| discriminate].
      apply starts_with_spec in Hp as [post ->]. exists "", post. reflexivity.
    + intros [Hp | Hr].
      * apply starts_with_spec in Hp as [post ->]. exists "", post. reflexivity.
      * destruct (IH Hr) as (pre & post & ->). exists (String c pre), post. reflexivity.
  - intros (pre & post & ->). induction pre as [|c pre IH].
    + simpl. assert (Hp : starts_with needle (needle +:+ post) = true)
        by (apply starts_with_spec; exists post; reflexivity).
      destruct (needle +:+ post); simpl in *; rewrite Hp; reflexivity.
    + simpl. rewrite IH. apply orb_true_r.
Qed.

Lemma not_includes_not_embeds (needle hay : string) :
  includes needle hay = false → ¬ embeds needle hay.
Proof. intros Hf He%includes_spec. congruence. Qed.

(** The two places of a reason that interpolate a value. *)
Lemma embeds_first (pre v post : string) : embeds v (pre +:+ v +:+ post).
Proof. exists pre, post. reflexivity. Qed.

Lemma embeds_second (pre v mid w post : string) :
  embeds w (pre +:+ v +:+ mid +:+ w +:+ post).
Proof.
  exists (pre +:+ v +:+ mid), post. now rewrite !append_assoc.
Qed.

Lemma embeds_last (pre v mid w : string) : embeds w (pre +:+ v +:+ mid +:+ w).
Proof.
  exists (pre +:+ v +:+ mid), "". now rewrite !append_assoc, append_empty_r.
Qed.

(** The reason of a cross trigger, with the condition type rewritten to
    the literal the [switch] matched. *)
Ltac cross_reason_form :=
  match goal with
  | Hk : condition_type (alert ?a) = _ |- context [condition_type (alert ?a)] =>
      rewrite Hk; reflexivity
  end.

(** C9 (as stated, refuted).  A cross_up rule with threshold 100 whose
    flag is [false] triggers at price 110, and its reason is the text
    [cross_up: undefined -> true] (TypeScript engine) or
    [cross_up: false -> true] (CommonJS engine): neither "110" nor "100",
    nor any digit at all, occurs in it. *)
Lemma cross_reason_embeds_no_value :
  let a := with_state (set_wasAbove false empty_state)
             (index_entry no_telegram cross_up_100) in
  let ts := (MonitorEngineTs.shouldTrigger (fmt := plain_format) a 1005 110%float).1 in
  let cjs := (MonitorEngineCjs.shouldTrigger (fmt := plain_format) a 1005 110%float).1 in
  Js.Number_toString (fmt := plain_format) 110%float = "110"
  ∧ Js.Number_toString (fmt := plain_format) 100%float = "100"
  ∧ triggered ts = true ∧ reason ts = "cross_up: undefined -> true"
  ∧ ¬ embeds "110" (reason ts) ∧ ¬ embeds "100" (reason ts)
  ∧ has_digit (reason ts) = false
  ∧ triggered cjs = true ∧ reason cjs = "cross_up: false -> true"
  ∧ ¬ embeds "110" (reason cjs) ∧ ¬ embeds "100" (reason cjs)
  ∧ has_digit (reason cjs) = false.
Proof.
  intros a ts cjs.
  repeat match goal with |- _ ∧ _ => split end;
    first [ apply not_includes_not_embeds; vm_compute; reflexivity
          | vm_compute; reflexivity ].
Qed.

Lemma basePrice_truthy_Some s b : basePrice_truthy s = Some b → basePrice s = Some b.
Proof.
  unfold basePrice_truthy. destruct (basePrice s) as [b'|]; [| discriminate].
  destruct (Js.truthy_num b'); [congruence | discriminate].
Qed.

Lemma guarded_basePrice_Some (c : bool) s b :
  (if c then basePrice_truthy s else None) = Some b → basePrice s = Some b.
Proof. destruct c; [apply basePrice_truthy_Some | discriminate]. Qed.

(** C9 (amended).  A triggered evaluation of a price_gte or price_lte
    rule returns a reason that embeds the observed price and the
    threshold; of a pct_change_up or pct_change_down rule, a reason that
    embeds the percent change against the stored baseline, to two
    decimals, and the threshold; of a cross_up or cross_down rule, a
    reason of the form [<condition>: <flag> -> true], which names the
    transition of the rule's flag and contains no digit, so neither the
    price nor the threshold.  In particular a price_gte trigger at 50100
    against threshold 50000 has a reason containing "50100" and "50000".
    Both engines. *)
Theorem trigger_reason_contents (F : Js.NumberFormat)
  (a : AlertWithState) (now : Z) (p : float) (r : TriggerResult) :
  r = (MonitorEngineTs.shouldTrigger a now p).1
  ∨ r = (MonitorEngineCjs.shouldTrigger a now p).1 →
  let kind := condition_type (alert a) in
  let th := threshold (alert a) in
  (triggered r = true →
   ((kind = "price_gte" ∨ kind = "price_lte")
    ∧ embeds (Js.Number_toString p) (reason r)
    ∧ embeds (Js.Number_toString th) (reason r))
   ∨ ((kind = "pct_change_up" ∨ kind = "pct_change_down")
      ∧ ∃ base, basePrice (_lastState a) = Some base
          ∧ embeds (Js.toFixed2 (pct_change p base)) (reason r)
          ∧ embeds (Js.Number_toString th) (reason r))
   ∨ ((kind = "cross_up" ∨ kind = "cross_down")
      ∧ (∃ flag, reason r = kind +:+ ": " +:+ flag +:+ " -> true")
      ∧ has_digit (reason r) = false))
  ∧ (kind = "price_gte" → p = 50100%float → th = 50000%float →
     ¬ within_cooldown a now →
     triggered r = true ∧ embeds "50100" (reason r) ∧ embeds "50000" (reason r)).
Proof.
  intros Hr kind th. subst kind th. split.
  - intros Htrig.
    assert (Hcd : in_cooldown a now = false).
    { destruct (in_cooldown a now) eqn:Hcd; [| reflexivity].
      destruct Hr as [-> | ->];
        unfold MonitorEngineTs.shouldTrigger, MonitorEngineCjs.shouldTrigger in Htrig;
        rewrite Hcd in Htrig; discriminate. }
    destruct Hr as [-> | ->];
      unfold MonitorEngineTs.shouldTrigger, MonitorEngineCjs.shouldTrigger in *;
      rewrite Hcd in *;
      kind_cases (condition_type (alert a)); cbv zeta in *;
      repeat match goal with
             | H : triggered (if ?b then _ else _).1 = true |- _ =>
                 destruct b eqn:?; cbn [fst triggered reason no_condition_met] in H |- *
             | H : triggered (match ?o with Some _ => _ | None => _ end).1 = true |- _ =>
                 destruct o eqn:?; cbn [fst triggered reason no_condition_met] in H |- *
             end;
      try discriminate;
      try (left; split; [auto | split; [apply embeds_first | apply embeds_last]]; fail);
      try (right; left; split; [auto |];
           match goal with
           | Hb : _ = Some ?b |- _ =>
               exists b; split;
               [ first [ exact (guarded_basePrice_Some _ _ _ Hb)
                       | exact (basePrice_truthy_Some _ _ Hb) ]
               | split; [apply embeds_first | apply embeds_second] ]
           end; fail);
      try (right; right; split; [auto |];
           split; [eexists; cross_reason_form | repeat case_match; reflexivity]).
  - intros Hk -> Hth Hout%not_in_cooldown_iff.
    destruct Hr as [-> | ->];
      unfold MonitorEngineTs.shouldTrigger, MonitorEngineCjs.shouldTrigger;
      rewrite Hout, Hk, Hth; cbn [String.eqb Ascii.eqb Bool.eqb];
      (split; [vm_compute; reflexivity |]);
      split; apply includes_spec; vm_compute; reflexivity.
Qed.

Lemma trigger_reason_contents_witness :
  let a := index_entry no_telegram
             (new_alert "r1" "BTCUSDT" "price_gte" 50000%float 5 300) in
  triggered (MonitorEngineTs.shouldTrigger (fmt := plain_format) a 1000 49000%float).1
    = false
  ∧ (let r := (MonitorEngineTs.shouldTrigger (fmt := plain_format) a 1005 50100%float).1 in
     triggered r = true ∧ embeds "50100" (reason r) ∧ embeds "50000" (reason r)).
Proof.
  intros a. split; [reflexivity |].
  apply (proj2 (trigger_reason_contents plain_format a 1005 50100%float _
                  (or_introl eq_refl)));
    try reflexivity.
  intros (t & Habs & _). discriminate Habs.
Defined.

(** ** Notification worker *)

Import NotifyWorker.

Lemma retry_delay_schedule :
  retry_delay 1 = 1000 ∧ retry_delay 2 = 3000 ∧ retry_delay 3 = 10000
  ∧ ∀ n, (3 < n)%nat → retry_delay n = 10000.
Proof.
  repeat split; try reflexivity.
  intros n Hn. unfold retry_delay, retry_delay_in, RETRY_DELAYS.
  destruct n as [|[|[|[|n]]]]; try lia. reflexivity.
Qed.

Lemma sqlite_event_marked (rowid : Z) (status : string) (err : option string)
  (s : SqliteStore) :
  event_marked rowid status err (events_table s)
    (events_table (updateAlertEventStatus rowid status err s)).
Proof.
  unfold event_marked, event_row. cbn [updateAlertEventStatus sqlite_store].
  unfold sqlite_updateAlertEventStatus.
  destruct (Z.leb_spec 1 rowid) as [Hrow | Hrow]; cbn [events_table].
  - split; [apply length_alter |]. split; [| split].
    + intros old Hold. exists (with_status status err old).
      split; [now rewrite list_lookup_alter_eq, Hold | repeat split].
    + intros Hnone. now rewrite list_lookup_alter_eq, Hnone.
    + intros k Hk. destruct (Z.leb_spec 1 k); [| reflexivity].
      apply list_lookup_alter_ne. lia.
  - split; [reflexivity |]. split; [discriminate |]. split; [reflexivity |].
    intros k Hk. reflexivity.
Qed.

(** C6.  Delivery of a task always ends, after at most 3 calls of the
    sink.  After a failed first attempt it sleeps 1 s, after a failed
    second attempt 3 s, and the delay expression continues 10 s, 10 s, ...
    for any later attempt.  As soon as an attempt succeeds the event row
    the task refers to gets status [success] and a null error message; if
    all three fail it gets status [failed] and, as error message, the
    error text of the third attempt.  No other column of that row, no
    other event row and no rule row changes. *)
Theorem processTask_retry_policy (sink : nat → SendOutcome) (t0 t1 : Z)
  (task : NotifyTask) (lastSendTime : Z) (s : SqliteStore) :
  let spacing :=
    if t0 - lastSendTime <? RATE_LIMIT_DELAY
    then [Sleep (RATE_LIMIT_DELAY - (t0 - lastSendTime))] else [] in
  let marked status err s' :=
    event_marked (eventId task) status err (events_table s) (events_table s') in
  ∃ steps s',
    processTask sink t0 t1 task lastSendTime s = Some ((spacing ++ steps)%list, t1, s')
    ∧ (length (sends steps) ≤ 3)%nat
    ∧ alerts_table s' = alerts_table s
    ∧ (retry_delay 1 = 1000 ∧ retry_delay 2 = 3000 ∧ retry_delay 3 = 10000
       ∧ ∀ n, (3 < n)%nat → retry_delay n = 10000)
    ∧ (sink 1%nat = SendOk →
       steps = [Send 1] ∧ marked "success" None s')
    ∧ (∀ e1, sink 1%nat = SendFailed e1 → sink 2%nat = SendOk →
       steps = [Send 1; Sleep 1000; Send 2] ∧ marked "success" None s')
    ∧ (∀ e1 e2, sink 1%nat = SendFailed e1 → sink 2%nat = SendFailed e2 →
       sink 3%nat = SendOk →
       steps = [Send 1; Sleep 1000; Send 2; Sleep 3000; Send 3]
       ∧ marked "success" None s')
    ∧ (∀ e1 e2 e3, sink 1%nat = SendFailed e1 → sink 2%nat = SendFailed e2 →
       sink 3%nat = SendFailed e3 →
       steps = [Send 1; Sleep 1000; Send 2; Sleep 3000; Send 3]
       ∧ marked "failed" (Some (error_text e3)) s').
Proof.
  intros spacing marked. subst spacing marked.
  unfold processTask. cbn [retry_loop MAX_RETRIES Nat.ltb Nat.leb].
  destruct (sink 1%nat) as [|e1] eqn:H1;
    [| destruct (sink 2%nat) as [|e2] eqn:H2;
       [| destruct (sink 3%nat) as [|e3] eqn:H3 ]];
    eexists _, _; (split; [reflexivity |]);
    (split; [cbn; lia |]);
    (split; [ cbn [updateAlertEventStatus sqlite_store];
              unfold sqlite_updateAlertEventStatus;
              destruct (1 <=? eventId task); reflexivity |]);
    (split; [exact retry_delay_schedule |]);
    (split; [| split; [| split]]); intros; try discriminate;
    repeat match goal with H : SendFailed _ = SendFailed _ |- _ =>
             injection H as <- end;
    (split; [reflexivity | apply sqlite_event_marked]).
Qed.

Lemma processTask_retry_policy_witness :
  let s := mkSqliteStore [price_gte_50000] [queued_event] in
  (∃ s' row, processTask flaky_sink 2000 2000 sample_task 0 s
             = Some ([Send 1; Sleep 1000; Send 2; Sleep 3000; Send 3], 2000, s')
             ∧ event_row 1 (events_table s') = Some row
             ∧ notify_status row = "success" ∧ error_message row = None)
  ∧ (∃ s' row, processTask dead_sink 2000 2000 sample_task 0 s
               = Some ([Send 1; Sleep 1000; Send 2; Sleep 3000; Send 3], 2000, s')
               ∧ event_row 1 (events_table s') = Some row
               ∧ notify_status row = "failed"
               ∧ error_message row = Some "timeout 3").
Proof.
  intros s. split.
  - destruct (processTask_retry_policy flaky_sink 2000 2000 sample_task 0 s)
      as (steps & s' & Hrun & _ & _ & _ & _ & _ & Hthird & _).
    destruct (Hthird (timeout_error 1) (timeout_error 2) eq_refl eq_refl eq_refl)
      as [-> (_ & Hrow & _)].
    destruct (Hrow queued_event eq_refl) as (row & Hnew & Hstatus & Herr & _).
    exists s', row. split; [exact Hrun |]. split; [exact Hnew |].
    split; [exact Hstatus | exact Herr].
  - destruct (processTask_retry_policy dead_sink 2000 2000 sample_task 0 s)
      as (steps & s' & Hrun & _ & _ & _ & _ & _ & _ & Hall).
    destruct (Hall (timeout_error 1) (timeout_error 2) (timeout_error 3)
                eq_refl eq_refl eq_refl) as [-> (_ & Hrow & _)].
    destruct (Hrow queued_event eq_refl) as (row & Hnew & Hstatus & Herr & _).
    exists s', row. split; [exact Hrun |]. split; [exact Hnew |].
    split; [exact Hstatus | exact Herr].
Defined.

(** ** Delivery queue *)

Import DeliveryQueue.

Lemma one_consumer_initial : one_consumer initial.
Proof. right. repeat split; reflexivity. Qed.

Lemma step_one_consumer ev st st' :
  one_consumer st → step ev st = Some st' →
  one_consumer st'
  ∧ (started st' ++ tasks (notifyQueue st')
     = started st ++ tasks (notifyQueue st) ++ enqueued [ev])%list.
Proof.
  destruct st as [[ts ip] cs log]. unfold one_consumer. simpl.
  intros [[-> [c ->]] | (-> & -> & ->)]; destruct ev as [task | n]; simpl.
  - intros [= <-]. unfold pushToNotifyQueue, processQueue. simpl.
    split; [left; eauto | reflexivity].
  - unfold settle. simpl. destruct n as [|n]; simpl; [| discriminate].
    intros [= <-]. unfold drain. simpl. destruct ts as [|t rest]; simpl.
    + split; [right; auto | now rewrite !app_nil_r].
    + split; [left; eauto | now rewrite app_nil_r, <- app_assoc].
  - intros [= <-]. unfold pushToNotifyQueue, processQueue, drain. simpl.
    split; [left; eauto | now rewrite app_nil_r].
  - unfold settle. simpl. discriminate.
Qed.

Lemma enqueued_cons ev evs : enqueued (ev :: evs) = (enqueued [ev] ++ enqueued evs)%list.
Proof. destruct ev; reflexivity. Qed.

Lemma run_one_consumer evs : ∀ st st',
  one_consumer st → run evs st = Some st' →
  one_consumer st'
  ∧ (started st' ++ tasks (notifyQueue st')
     = started st ++ tasks (notifyQueue st) ++ enqueued evs)%list.
Proof.
  induction evs as [|ev evs IH]; intros st st' Hinv Hrun; simpl in Hrun.
  - injection Hrun as <-. split; [exact Hinv | simpl; now rewrite app_nil_r].
  - destruct (step ev st) as [st1|] eqn:Hstep; [| discriminate].
    destruct (step_one_consumer _ _ _ Hinv Hstep) as [Hinv1 Heq1].
    destruct (IH _ _ Hinv1 Hrun) as [Hinv' Heq']. split; [exact Hinv' |].
    rewrite Heq', app_assoc, Heq1, (enqueued_cons ev evs).
    now rewrite <- !app_assoc.
Qed.

(** While a drain is in progress, every completion hands the next
    queued task to the one consumer: after as many completions as tasks
    are waiting, the last of them is in flight and all were started in
    queue order. *)
Lemma drain_reaches_last_task ts : ∀ x c log,
  run (replicate (S (length ts)) (Settled 0))
    (mkQueueState (mkNotifyQueue (ts ++ [x]) true) [c] log)
  = Some (mkQueueState (mkNotifyQueue [] true) [x] (log ++ ts ++ [x])%list).
Proof.
  induction ts as [|t ts IH]; intros x c log.
  - reflexivity.
  - change (run (replicate (S (length (t :: ts))) (Settled 0))
              (mkQueueState (mkNotifyQueue ((t :: ts) ++ [x]) true) [c] log))
      with (run (replicate (S (length ts)) (Settled 0))
              (mkQueueState (mkNotifyQueue (ts ++ [x]) true) [t] (log ++ [t])%list)).
    rewrite IH. now rewrite <- app_assoc.
Qed.

(** C8.  In every state the queue reaches from its initial state, by
    pushes and by completions of the task in flight, at most one run of
    [processQueue] is active, and exactly one while [isProcessing] is
    set; the tasks started so far followed by the tasks still queued are
    the tasks pushed, in push order.  A push that arrives while a drain
    is in progress only appends the task: it starts no consumer and no
    task; and once the tasks queued before it have completed, the same
    consumer has that task in flight. *)
Theorem single_drain_loop (evs : list QueueEvent) (st : QueueState) :
  run evs initial = Some st →
  (length (consumers st) ≤ 1)%nat
  ∧ (isProcessing (notifyQueue st) = true ↔ length (consumers st) = 1%nat)
  ∧ (started st ++ tasks (notifyQueue st))%list = enqueued evs
  ∧ (∀ task, isProcessing (notifyQueue st) = true →
     pushToNotifyQueue task st
     = mkQueueState (mkNotifyQueue (tasks (notifyQueue st) ++ [task]) true)
         (consumers st) (started st)
     ∧ run (replicate (S (length (tasks (notifyQueue st)))) (Settled 0))
         (pushToNotifyQueue task st)
       = Some (mkQueueState (mkNotifyQueue [] true) [task]
                 (started st ++ tasks (notifyQueue st) ++ [task])%list)).
Proof.
  intros Hrun.
  destruct (run_one_consumer evs initial st one_consumer_initial Hrun) as [Hinv Hlog].
  simpl in Hlog.
  destruct st as [[ts ip] cs log]. unfold one_consumer in Hinv. simpl in *.
  destruct Hinv as [[-> [c ->]] | (-> & -> & ->)]; simpl.
  - split; [lia |]. split; [tauto |]. split; [exact Hlog |].
    intros task _. unfold pushToNotifyQueue, processQueue. simpl.
    split; [reflexivity | apply (drain_reaches_last_task ts task c log)].
  - split; [lia |]. split; [split; [discriminate | lia] |]. split; [exact Hlog |].
    intros task Habs. discriminate.
Qed.

Lemma single_drain_loop_witness :
  let t2 := mkNotifyTask 2 "r2" "ETHUSDT" "price_lte" 1000%float 990%float
              "price_lte: 990 <= 1000" 1006 no_telegram in
  let st := mkQueueState (mkNotifyQueue [t2] true) [sample_task] [sample_task] in
  run [Enqueue sample_task; Enqueue t2] initial = Some st
  ∧ (length (consumers st) ≤ 1)%nat
  ∧ run [Enqueue sample_task; Enqueue t2; Settled 0] initial
    = Some (mkQueueState (mkNotifyQueue [] true) [t2] [sample_task; t2]).
Proof.
  intros t2 st.
  assert (Hrun : run [Enqueue sample_task; Enqueue t2] initial = Some st)
    by reflexivity.
  split; [exact Hrun |]. split.
  - exact (proj1 (single_drain_loop _ _ Hrun)).
  - reflexivity.
Defined.

(** ** Index / group manager *)

(** C10.  [applyChange("delete", rule)] on a rule whose id is not in the
    by-id index returns the three maps unchanged, and a second delete of
    any rule changes nothing the first one left. *)
Theorem delete_unknown_is_noop_and_idempotent (now1 now2 : Z) (tg1 tg2 : Telegram)
  (a : Alert) (e : Engine) :
  (alertsById e !! id a = None → applyChange now1 tg1 Delete a e = e)
  ∧ applyChange now2 tg2 Delete a (applyChange now1 tg1 Delete a e)
    = applyChange now1 tg1 Delete a e.
Proof.
  assert (Hnoop : ∀ now tg e', alertsById e' !! id a = None →
                               applyChange now tg Delete a e' = e').
  { intros now tg [byId syms gs] Hnone. simpl in *. rewrite Hnone.
    now rewrite (delete_id _ _ Hnone). }
  split; [apply Hnoop |].
  apply Hnoop. unfold applyChange.
  destruct (alertsById e !! id a); simpl; apply lookup_delete_eq.
Qed.

Lemma delete_unknown_is_noop_and_idempotent_witness :
  let e := rebuildFromDb 995 (getEnabledAlerts [cross_up_100]) in
  applyChange 1000 no_telegram Delete pct_up_5 e = e
  ∧ applyChange 1001 no_telegram Delete cross_up_100
      (applyChange 1000 no_telegram Delete cross_up_100 e)
    = applyChange 1000 no_telegram Delete cross_up_100 e.
Proof.
  intros e. split.
  - apply (proj1 (delete_unknown_is_noop_and_idempotent 1000 1000 no_telegram
                    no_telegram pct_up_5 e)).
    vm_compute. reflexivity.
  - apply (proj2 (delete_unknown_is_noop_and_idempotent 1000 1001 no_telegram
                    no_telegram cross_up_100 e)).
Defined.

(** *** Group keys *)

Lemma has_colon_app (s1 s2 : string) :
  has_colon (s1 +:+ s2) = has_colon s1 || has_colon s2.
Proof.
  induction s1 as [|c s1 IH]; [reflexivity |].
  change (has_colon (String c (s1 +:+ s2)) = has_colon (String c s1) || has_colon s2).
  simpl. rewrite IH. now rewrite orb_assoc.
Qed.

Lemma pretty_N_char_no_colon (x : N) : Ascii.eqb (pretty_N_char x) ":" = false.
Proof. unfold pretty_N_char. repeat case_match; reflexivity. Qed.

Lemma pretty_N_go_no_colon (x : N) : ∀ s,
  has_colon s = false → has_colon (pretty_N_go x s) = false.
Proof.
  induction (N.lt_wf_0 x) as [x _ IH]. intros s Hs.
  destruct (decide (x = 0)%N) as [-> | Hpos].
  - rewrite pretty_N_go_0. exact Hs.
  - rewrite pretty_N_go_step by lia. apply IH.
    + apply N.div_lt; lia.
    + simpl. now rewrite pretty_N_char_no_colon, Hs.
Qed.

Lemma pretty_N_no_colon (x : N) : has_colon (pretty x) = false.
Proof.
  unfold pretty, pretty_N. case_decide; [reflexivity |].
  now apply pretty_N_go_no_colon.
Qed.

Lemma pretty_Z_no_colon (z : Z) : has_colon (pretty z) = false.
Proof.
  destruct z as [|q|q]; [reflexivity | apply pretty_N_no_colon |].
  change (has_colon ("-" +:+ pretty (N.pos q)) = false).
  rewrite has_colon_app. simpl. apply pretty_N_no_colon.
Qed.

(** A key splits at its last colon. *)
Lemma key_split (s : string) : ∀ s' d d',
  has_colon d = false → has_colon d' = false →
  s +:+ ":" +:+ d = s' +:+ ":" +:+ d' → s = s' ∧ d = d'.
Proof.
  induction s as [|c s IH]; intros [|c' s'] d d' Hd Hd' Heq.
  - change (String ":" d = String ":" d') in Heq.
    injection Heq as ->. split; reflexivity.
  - change (String ":" d = String c' (s' +:+ ":" +:+ d')) in Heq.
    injection Heq as _ ->. rewrite has_colon_app in Hd. simpl in Hd.
    rewrite orb_true_r in Hd. discriminate.
  - change (String c (s +:+ ":" +:+ d) = String ":" d') in Heq.
    injection Heq as _ <-. rewrite has_colon_app in Hd'. simpl in Hd'.
    rewrite orb_true_r in Hd'. discriminate.
  - change (String c (s +:+ ":" +:+ d) = String c' (s' +:+ ":" +:+ d')) in Heq.
    injection Heq as -> Heq. destruct (IH _ _ _ Hd Hd' Heq) as [-> ->].
    split; reflexivity.
Qed.

(** Distinct (symbol, interval) pairs have distinct group keys. *)
Lemma makeGroupKey_inj (s s' : string) (i i' : Z) :
  makeGroupKey s i = makeGroupKey s' i' → s = s' ∧ i = i'.
Proof.
  unfold makeGroupKey. intros Heq.
  apply key_split in Heq as [-> Hp]; try apply pretty_Z_no_colon.
  split; [reflexivity |]. exact (pretty_Z_inj _ _ Hp).
Qed.

(** *** Id sets *)

Lemma elem_of_set_add (x i : string) (s : list string) :
  x ∈ Js.set_add i s ↔ x ∈ s ∨ x = i.
Proof.
  unfold Js.set_add. case_bool_decide as Hin.
  - split; [auto | intros [H | ->]; assumption].
  - rewrite elem_of_app, list_elem_of_singleton. reflexivity.
Qed.

Lemma set_add_nonempty (i : string) (s : list string) : Js.set_add i s ≠ [].
Proof.
  intros Hnil. assert (Hin : i ∈ Js.set_add i s) by (apply elem_of_set_add; auto).
  rewrite Hnil in Hin. inversion Hin.
Qed.

Lemma elem_of_set_delete (x i : string) (s : list string) :
  x ∈ Js.set_delete i s ↔ x ∈ s ∧ x ≠ i.
Proof. unfold Js.set_delete. rewrite list_elem_of_filter. tauto. Qed.

Lemma size_zero_iff {A} (l : list A) : Nat.eqb (length l) 0 = true ↔ l = [].
Proof. destruct l; simpl; split; auto; discriminate. Qed.

(** *** Membership after the two group updates *)

Lemma member_remove_from_group (gs : gmap string AlertGroup) (i key0 j key : string) :
  member (remove_from_group i key0 gs) j key
  ↔ member gs j key ∧ ¬ (j = i ∧ key = key0).
Proof.
  unfold remove_from_group, member.
  destruct (gs !! key0) as [g0|] eqn:Hg0.
  - destruct (Nat.eqb (length (Js.set_delete i (alertIds g0))) 0) eqn:Hsz.
    + apply size_zero_iff in Hsz.
      destruct (decide (key = key0)) as [-> | Hne].
      * rewrite lookup_delete_eq. split.
        -- intros (g & Habs & _). discriminate.
        -- intros [(g & Hg & Hin) Hnot]. rewrite Hg0 in Hg. injection Hg as <-.
           exfalso. apply Hnot. split; [| reflexivity].
           destruct (decide (j = i)) as [-> | Hji]; [reflexivity |].
           assert (Hj : j ∈ Js.set_delete i (alertIds g0))
             by (apply elem_of_set_delete; auto).
           rewrite Hsz in Hj. inversion Hj.
      * rewrite lookup_delete_ne by congruence. split.
        -- intros Hm. split; [exact Hm | intros [_ ?]; contradiction].
        -- intros [Hm _]. exact Hm.
    + destruct (decide (key = key0)) as [-> | Hne].
      * rewrite lookup_insert_eq. split.
        -- intros (g & [= <-] & Hin). simpl in Hin.
           apply elem_of_set_delete in Hin as [Hin Hji].
           split; [exists g0; auto | intros [? _]; contradiction].
        -- intros [(g & Hg & Hin) Hnot]. rewrite Hg0 in Hg. injection Hg as <-.
           eexists. split; [reflexivity |]. simpl.
           apply elem_of_set_delete. split; [exact Hin |].
           intros ->. apply Hnot. auto.
      * rewrite lookup_insert_ne by congruence. split.
        -- intros Hm. split; [exact Hm | intros [_ ?]; contradiction].
        -- intros [Hm _]. exact Hm.
  - split.
    + intros Hm. split; [exact Hm |].
      intros [-> ->]. destruct Hm as (g & Hg & _). congruence.
    + intros [Hm _]. exact Hm.
Qed.

Lemma member_add_to_group (now : Z) (gs : gmap string AlertGroup)
  (i sym : string) (itv : Z) (j key : string) :
  member (add_to_group now i sym itv gs) j key
  ↔ member gs j key ∨ (j = i ∧ key = makeGroupKey sym itv).
Proof.
  unfold add_to_group, member.
  set (k := makeGroupKey sym itv).
  destruct (decide (key = k)) as [-> | Hne].
  - rewrite lookup_alter_eq.
    destruct (gs !! k) as [g0|] eqn:Hg0.
    + rewrite Hg0. simpl. split.
      * intros (g & [= <-] & Hin). simpl in Hin.
        apply elem_of_set_add in Hin as [Hin | ->]; [left; eauto | right; auto].
      * intros [(g & [= <-] & Hin) | [-> _]];
          (eexists; split; [reflexivity |]); simpl; apply elem_of_set_add; auto.
    + rewrite lookup_insert_eq. simpl. split.
      * intros (g & [= <-] & Hin). simpl in Hin.
        apply elem_of_set_add in Hin as [Hin | ->]; [inversion Hin | right; auto].
      * intros [(g & Habs & _) | [-> _]]; [discriminate |].
        eexists. split; [reflexivity |]. simpl. apply elem_of_set_add. auto.
  - rewrite lookup_alter_ne by congruence.
    assert (Hsame : (match gs !! k with
                     | Some _ => gs
                     | None => <[k := mkAlertGroup sym itv [] (now + itv)]> gs
                     end) !! key = gs !! key).
    { destruct (gs !! k); [reflexivity | now rewrite lookup_insert_ne by congruence]. }
    rewrite Hsame. split.
    + intros Hm. left. exact Hm.
    + intros [Hm | [_ ?]]; [exact Hm | contradiction].
Qed.

Lemma groups_ok_remove (gs : gmap string AlertGroup) (i key0 : string) :
  groups_ok gs → groups_ok (remove_from_group i key0 gs).
Proof.
  unfold groups_ok, remove_from_group. intros Hok key g.
  destruct (gs !! key0) as [g0|] eqn:Hg0; [| apply Hok].
  destruct (Nat.eqb (length (Js.set_delete i (alertIds g0))) 0) eqn:Hsz.
  - intros [_ Hg]%lookup_delete_Some. apply Hok, Hg.
  - intros [[<- <-] | [_ Hg]]%lookup_insert_Some; [| apply Hok, Hg].
    simpl. split; [| apply (Hok _ _ Hg0)].
    intros Hnil. rewrite Hnil in Hsz. discriminate.
Qed.

Lemma groups_ok_add (now : Z) (gs : gmap string AlertGroup) (i sym : string) (itv : Z) :
  groups_ok gs → groups_ok (add_to_group now i sym itv gs).
Proof.
  unfold groups_ok, add_to_group. intros Hok key g.
  set (k := makeGroupKey sym itv).
  destruct (decide (key = k)) as [-> | Hne].
  - rewrite lookup_alter_eq. destruct (gs !! k) as [g0|] eqn:Hg0.
    + rewrite Hg0. intros [= <-]. simpl.
      split; [apply set_add_nonempty | apply (Hok _ _ Hg0)].
    + rewrite lookup_insert_eq. intros [= <-]. simpl.
      split; [apply set_add_nonempty | reflexivity].
  - rewrite lookup_alter_ne by congruence.
    destruct (gs !! k); [apply Hok |].
    rewrite lookup_insert_ne by congruence. apply Hok.
Qed.

(** *** What [applyChange] does to the by-id index and to the groups *)

Lemma applyChange_removing now tg action a e :
  action = Delete ∨ is_enabled a = false →
  alertsById (applyChange now tg action a e) = delete (id a) (alertsById e)
  ∧ groups (applyChange now tg action a e)
    = match alertsById e !! id a with
      | Some old => remove_from_group (id a) (current_key old) (groups e)
      | None => groups e
      end.
Proof.
  intros [-> | Hoff].
  - simpl. destruct (alertsById e !! id a); split; reflexivity.
  - destruct action; simpl; rewrite ?Hoff;
      destruct (alertsById e !! id a); split; reflexivity.
Qed.

Lemma applyChange_enabling now tg action a e :
  action ≠ Delete → is_enabled a = true →
  let newkey := makeGroupKey (symbol a) (poll_interval_sec a) in
  alertsById (applyChange now tg action a e)
  = <[id a := index_entry tg a]> (alertsById e)
  ∧ ∃ gs1,
      groups (applyChange now tg action a e)
      = add_to_group now (id a) (symbol a) (poll_interval_sec a) gs1
      ∧ ((alertsById e !! id a = None ∧ gs1 = groups e)
         ∨ (∃ old, alertsById e !! id a = Some old
                   ∧ current_key old = newkey ∧ gs1 = groups e)
         ∨ (∃ old, alertsById e !! id a = Some old
                   ∧ gs1 = remove_from_group (id a) (current_key old) (groups e))).
Proof.
  intros Hact Hon newkey.
  assert (Hshape : applyChange now tg action a e = applyChange now tg Upsert a e)
    by (destruct action; [reflexivity | reflexivity | contradiction]).
  rewrite Hshape. simpl. rewrite Hon. simpl.
  split; [reflexivity |].
  destruct (alertsById e !! id a) as [old|] eqn:Hold.
  - destruct (negb (poll_interval_sec (alert old) =? poll_interval_sec a)
              || negb (String.eqb (symbol (alert old)) (symbol a))) eqn:Hchg.
    + eexists. split; [reflexivity |]. right. right. exists old. split; reflexivity.
    + eexists. split; [reflexivity |]. right. left. exists old.
      split; [reflexivity |]. split; [| reflexivity].
      apply orb_false_iff in Hchg as [Hi Hs].
      apply negb_false_iff in Hi, Hs.
      apply Z.eqb_eq in Hi. apply String.eqb_eq in Hs.
      unfold current_key, newkey. now rewrite Hi, Hs.
  - eexists. split; [reflexivity |]. left. split; reflexivity.
Qed.

(** *** The invariant is kept by every change *)

Lemma applyChange_removing_invariant now tg action a e :
  action = Delete ∨ is_enabled a = false →
  group_invariant e → group_invariant (applyChange now tg action a e).
Proof.
  intros Hrem [Hidx Habs Hok].
  destruct (applyChange_removing now tg action a e Hrem) as [Hby Hgs].
  assert (Hmem : ∀ j key, member (groups (applyChange now tg action a e)) j key
                          → member (groups e) j key).
  { intros j key. rewrite Hgs. destruct (alertsById e !! id a); [| auto].
    intros [Hm _]%member_remove_from_group. exact Hm. }
  constructor.
  - intros i b. rewrite Hby. intros [Hne Hb]%lookup_delete_Some.
    destruct (Hidx i b Hb) as (Hid & Hon & Hkeys).
    split; [exact Hid |]. split; [exact Hon |].
    intros key. rewrite <- Hkeys. split; [apply Hmem |].
    intros Hm. rewrite Hgs. destruct (alertsById e !! id a); [| exact Hm].
    apply member_remove_from_group. split; [exact Hm |].
    intros [-> _]. contradiction.
  - intros i. rewrite Hby. intros [<- | Hnone]%lookup_delete_None key Hm.
    + rewrite Hgs in Hm. destruct (alertsById e !! id a) as [old|] eqn:Hold.
      * apply member_remove_from_group in Hm as [Hm Hnot].
        apply Hnot. split; [reflexivity |].
        apply (proj2 (proj2 (Hidx _ _ Hold))). exact Hm.
      * exact (Habs _ Hold key Hm).
    + exact (Habs _ Hnone key (Hmem _ _ Hm)).
  - rewrite Hgs. destruct (alertsById e !! id a); [apply groups_ok_remove |]; exact Hok.
Qed.

Lemma applyChange_enabling_invariant now tg action a e :
  action ≠ Delete → is_enabled a = true →
  group_invariant e → group_invariant (applyChange now tg action a e).
Proof.
  intros Hact Hon [Hidx Habs Hok].
  destruct (applyChange_enabling now tg action a e Hact Hon)
    as (Hby & gs1 & Hgs & Hcases).
  set (newkey := makeGroupKey (symbol a) (poll_interval_sec a)) in *.
  (* rules other than [a] are where they were; [a] is nowhere but under its new key *)
  assert (Hother : ∀ j key, j ≠ id a → member gs1 j key ↔ member (groups e) j key).
  { intros j key Hj.
    destruct Hcases as [[_ ->] | [(old & _ & _ & ->) | (old & _ & ->)]];
      [reflexivity | reflexivity |].
    rewrite member_remove_from_group. split; [intros [Hm _]; exact Hm |].
    intros Hm. split; [exact Hm | intros [? _]; contradiction]. }
  assert (Hself : ∀ key, member gs1 (id a) key → key = newkey).
  { intros key.
    destruct Hcases as [[Hnone ->] | [(old & Hold & Hkey & ->) | (old & Hold & ->)]].
    - intros Hm. destruct (Habs _ Hnone key Hm).
    - intros Hm. rewrite <- Hkey. apply (proj2 (proj2 (Hidx _ _ Hold))). exact Hm.
    - intros [Hm Hnot]%member_remove_from_group. exfalso. apply Hnot.
      split; [reflexivity |]. apply (proj2 (proj2 (Hidx _ _ Hold))). exact Hm. }
  assert (Hok1 : groups_ok gs1).
  { destruct Hcases as [[_ ->] | [(old & _ & _ & ->) | (old & _ & ->)]];
      [exact Hok | exact Hok | apply groups_ok_remove, Hok]. }
  constructor.
  - intros i b. rewrite Hby, Hgs.
    intros [[<- <-] | [Hne Hb]]%lookup_insert_Some.
    + split; [reflexivity |]. split; [exact Hon |].
      intros key. rewrite member_add_to_group. fold newkey.
      change (current_key (index_entry tg a)) with newkey.
      split; [intros [Hm | [_ Hk]]; [apply Hself, Hm | exact Hk] | intros ->; right; auto].
    + destruct (Hidx i b Hb) as (Hid & Hen & Hkeys).
      split; [exact Hid |]. split; [exact Hen |].
      intros key. rewrite member_add_to_group, <- Hkeys, Hother by congruence.
      split; [intros [Hm | [? _]]; [exact Hm | congruence] | auto].
  - intros i. rewrite Hby, Hgs. intros [Hnone Hne]%lookup_insert_None key.
    rewrite member_add_to_group, Hother by congruence.
    intros [Hm | [? _]]; [exact (Habs _ Hnone key Hm) | congruence].
  - rewrite Hgs. apply groups_ok_add, Hok1.
Qed.

Lemma applyChange_invariant now tg action a e :
  group_invariant e → group_invariant (applyChange now tg action a e).
Proof.
  assert (Hcase : action = Delete ∨ action ≠ Delete)
    by (destruct action; [right | right | left]; congruence).
  destruct Hcase as [Hdel | Hact].
  - apply applyChange_removing_invariant. left. exact Hdel.
  - destruct (is_enabled a) eqn:Hon.
    + now apply applyChange_enabling_invariant.
    + apply applyChange_removing_invariant. right. exact Hon.
Qed.

Lemma apply_changes_invariant cs : ∀ e,
  group_invariant e → group_invariant (apply_changes cs e).
Proof.
  induction cs as [|c cs IH]; intros e Hinv; [exact Hinv |].
  apply IH, applyChange_invariant, Hinv.
Qed.

(** *** The rebuilt state *)

Lemma empty_engine_invariant : group_invariant empty_engine.
Proof.
  constructor; simpl.
  - intros i a Habs. rewrite lookup_empty in Habs. discriminate.
  - intros i _ key (g & Habs & _). rewrite lookup_empty in Habs. discriminate.
  - intros key g Habs. rewrite lookup_empty in Habs. discriminate.
Qed.

Lemma index_alert_is_upsert now e (row : Telegram * Alert) :
  alertsById e !! id row.2 = None → is_enabled row.2 = true →
  index_alert now e row = applyChange now row.1 Upsert row.2 e.
Proof.
  intros Hnone Hon. unfold index_alert. simpl. now rewrite Hon, Hnone.
Qed.

Lemma rebuild_invariant now (rows : list (Telegram * Alert)) : ∀ e,
  NoDup ((λ r, id r.2) <$> rows) →
  (∀ r, r ∈ rows → is_enabled r.2 = true) →
  (∀ r, r ∈ rows → alertsById e !! id r.2 = None) →
  group_invariant e → group_invariant (foldl (index_alert now) e rows).
Proof.
  induction rows as [|row rows IH]; intros e Hnd Hen Hfresh Hinv; [exact Hinv |].
  rewrite fmap_cons in Hnd. apply NoDup_cons in Hnd as [Hnotin Hnd].
  simpl. apply IH.
  - exact Hnd.
  - intros r Hr. apply Hen. now right.
  - intros r Hr. unfold index_alert. simpl. rewrite lookup_insert_ne.
    + apply Hfresh. now right.
    + intros Heq. apply Hnotin. rewrite Heq.
      apply (list_elem_of_fmap_2 (λ r, id r.2)). exact Hr.
  - rewrite index_alert_is_upsert.
    + apply applyChange_invariant, Hinv.
    + apply Hfresh. now left.
    + apply Hen. now left.
Qed.

Lemma rebuildFromDb_invariant now (rows : list (Telegram * Alert)) :
  NoDup ((λ r, id r.2) <$> rows) →
  (∀ r, r ∈ rows → is_enabled r.2 = true) →
  group_invariant (rebuildFromDb now rows).
Proof.
  intros Hnd Hen. apply rebuild_invariant; auto using empty_engine_invariant.
Qed.

(** The read of the TypeScript store yields enabled rules with the ids of
    the table, which are unique (primary key). *)
Lemma getEnabledAlerts_rows (table : list Alert) :
  NoDup (id <$> table) →
  NoDup ((λ r, id r.2) <$> getEnabledAlerts table)
  ∧ ∀ r, r ∈ getEnabledAlerts table → is_enabled r.2 = true.
Proof.
  intros Hnd. unfold getEnabledAlerts. split.
  - rewrite <- list_fmap_compose.
    induction table as [|a table IH]; [constructor |].
    rewrite fmap_cons in Hnd. apply NoDup_cons in Hnd as [Hnotin Hnd].
    rewrite filter_cons. case_decide; [| now apply IH].
    rewrite fmap_cons. apply NoDup_cons. split; [| now apply IH].
    simpl. intros (b & Hid & Hb)%list_elem_of_fmap.
    apply list_elem_of_filter in Hb as [_ Hb]. apply Hnotin.
    simpl in Hid. rewrite Hid. now apply list_elem_of_fmap_2.
  - intros r (a & -> & Ha)%list_elem_of_fmap.
    apply list_elem_of_filter in Ha as [Hon _]. exact Hon.
Qed.

(** C7.  Start from the state rebuilt from the enabled rules of the
    store (unique ids) and apply any sequence of changes.  Then every
    rule in the by-id index is enabled and is listed by exactly one
    group, the one filed under the key of its current (symbol, interval)
    pair, and that group carries this very pair; a rule that is not in
    the index (disabled or deleted) is listed by no group, in particular
    right after its delete or disable; no group is empty.  And if a rule
    is disabled and then enabled again with its symbol and interval
    unchanged, it is in no group in between and afterwards in exactly
    the group of the same key as before. *)
Theorem groups_track_enabled_rules (now0 : Z) (rows : list (Telegram * Alert))
  (cs : list Change) :
  NoDup ((λ r, id r.2) <$> rows) →
  (∀ r, r ∈ rows → is_enabled r.2 = true) →
  let e := apply_changes cs (rebuildFromDb now0 rows) in
  (∀ i a, alertsById e !! i = Some a →
     is_enabled (alert a) = true
     ∧ (∀ key, member (groups e) i key
               ↔ key = makeGroupKey (symbol (alert a)) (poll_interval_sec (alert a)))
     ∧ (∀ key g, groups e !! key = Some g → i ∈ alertIds g →
        g_symbol g = symbol (alert a) ∧ g_interval g = poll_interval_sec (alert a)))
  ∧ (∀ i, alertsById e !! i = None → ∀ key, ¬ member (groups e) i key)
  ∧ (∀ now tg action a, action = Delete ∨ is_enabled a = false →
     let e' := applyChange now tg action a e in
     alertsById e' !! id a = None ∧ ∀ key, ¬ member (groups e') (id a) key)
  ∧ (∀ key g, groups e !! key = Some g → alertIds g ≠ [])
  ∧ (∀ a old now1 now2 tg1 tg2,
       alertsById e !! id a = Some old → is_enabled a = true →
       symbol a = symbol (alert old) →
       poll_interval_sec a = poll_interval_sec (alert old) →
       let key0 := makeGroupKey (symbol a) (poll_interval_sec a) in
       let off := applyChange now1 tg1 Update (set_enabled false a) e in
       let on := applyChange now2 tg2 Update a off in
       (∀ key, member (groups e) (id a) key ↔ key = key0)
       ∧ (∀ key, ¬ member (groups off) (id a) key)
       ∧ (∀ key, member (groups on) (id a) key ↔ key = key0)).
Proof.
  intros Hnd Hen e.
  assert (Hinv : group_invariant e)
    by (apply apply_changes_invariant, rebuildFromDb_invariant; assumption).
  split; [| split; [| split; [| split]]].
  - intros i a Ha. destruct (inv_indexed _ Hinv i a Ha) as (_ & Hon & Hkeys).
    split; [exact Hon |]. split; [exact Hkeys |].
    intros key g Hg Hin.
    assert (Hkey : key = current_key a) by (apply Hkeys; exists g; auto).
    destruct (inv_groups _ Hinv key g Hg) as [_ Hfiled].
    rewrite Hkey in Hfiled. unfold current_key in Hfiled.
    apply makeGroupKey_inj in Hfiled as [-> ->]. split; reflexivity.
  - exact (inv_absent _ Hinv).
  - intros now tg action a Hrem e'.
    assert (Hnone : alertsById e' !! id a = None).
    { subst e'. rewrite (proj1 (applyChange_removing now tg action a e Hrem)).
      apply lookup_delete_eq. }
    split; [exact Hnone |].
    apply (inv_absent _ (applyChange_invariant now tg action a e Hinv)), Hnone.
  - intros key g Hg. apply (inv_groups _ Hinv key g Hg).
  - intros a old now1 now2 tg1 tg2 Hold Hon Hsym Hitv key0 off on.
    assert (Hoff : group_invariant off) by apply applyChange_invariant, Hinv.
    assert (Hon' : group_invariant on) by apply applyChange_invariant, Hoff.
    split; [| split].
    + intros key. rewrite (proj2 (proj2 (inv_indexed _ Hinv _ _ Hold)) key).
      unfold current_key, key0. now rewrite Hsym, Hitv.
    + apply (inv_absent _ Hoff). subst off.
      rewrite (proj1 (applyChange_removing now1 tg1 Update (set_enabled false a) e
                        (or_intror eq_refl))).
      apply lookup_delete_eq.
    + assert (Hentry : alertsById on !! id a = Some (index_entry tg2 a)).
      { subst on.
        rewrite (proj1 (applyChange_enabling now2 tg2 Update a off
                          ltac:(discriminate) Hon)).
        apply lookup_insert_eq. }
      exact (proj2 (proj2 (inv_indexed _ Hon' _ _ Hentry))).
Qed.

Lemma groups_track_enabled_rules_witness :
  let rows := getEnabledAlerts [cross_up_100; pct_up_5] in
  let cs := [mkChange 1000 no_telegram Update (set_enabled false cross_up_100);
             mkChange 1010 no_telegram Update cross_up_100] in
  let e := apply_changes cs (rebuildFromDb 995 rows) in
  member (groups e) "r1" "BTCUSDT:5" ∧ ¬ member (groups e) "r1" "ETHUSDT:5".
Proof.
  intros rows cs e.
  assert (Hnd : NoDup ((λ r, id r.2) <$> rows))
    by (refine (bool_decide_unpack _ _); vm_compute; exact I).
  assert (Hen : ∀ r, r ∈ rows → is_enabled r.2 = true)
    by (apply getEnabledAlerts_rows; refine (bool_decide_unpack _ _);
        vm_compute; exact I).
  destruct (groups_track_enabled_rules 995 rows cs Hnd Hen) as (Hidx & _).
  destruct (Hidx "r1" (index_entry no_telegram cross_up_100)) as (_ & Hkeys & _).
  - vm_compute. reflexivity.
  - split.
    + apply Hkeys. reflexivity.
    + intros Hm%Hkeys. discriminate Hm.
Defined.

(** * Further properties of the code *)

(** ** Group keys *)

(** X1.  Two (symbol, interval) pairs have the same group key only when
    they are the same pair, also for symbols that contain a colon. *)
Theorem group_key_determines_pair (s s' : string) (i i' : Z) :
  makeGroupKey s i = makeGroupKey s' i' ↔ s = s' ∧ i = i'.
Proof.
  split; [apply makeGroupKey_inj | intros [-> ->]; reflexivity].
Qed.

(** ** By-symbol index *)

Lemma sym_member_add (idx : gmap string (list string)) (i s j sym : string) :
  sym_member (add_to_symbol_index i s idx) j sym
  ↔ sym_member idx j sym ∨ (j = i ∧ sym = s).
Proof.
  unfold add_to_symbol_index, sym_member.
  destruct (decide (sym = s)) as [-> | Hne].
  - rewrite lookup_alter_eq. destruct (idx !! s) as [ids0|] eqn:H0.
    + rewrite H0. simpl. split.
      * intros (ids & [= <-] & Hin).
        apply elem_of_set_add in Hin as [Hin | ->]; [left; eauto | right; auto].
      * intros [(ids & [= <-] & Hin) | [-> _]];
          (eexists; split; [reflexivity |]); apply elem_of_set_add; auto.
    + rewrite lookup_insert_eq. simpl. split.
      * intros (ids & [= <-] & Hin).
        apply elem_of_set_add in Hin as [Hin | ->]; [inversion Hin | right; auto].
      * intros [(ids & Habs & _) | [-> _]]; [discriminate |].
        eexists. split; [reflexivity |]. apply elem_of_set_add. auto.
  - rewrite lookup_alter_ne by congruence.
    assert (Hsame : (match idx !! s with Some _ => idx | None => <[s := []]> idx end)
                      !! sym = idx !! sym).
    { destruct (idx !! s); [reflexivity | now rewrite lookup_insert_ne by congruence]. }
    rewrite Hsame. split; [auto |]. intros [Hm | [_ ?]]; [exact Hm | contradiction].
Qed.

Lemma sym_member_remove (idx : gmap string (list string)) (i s j sym : string) :
  sym_member (remove_from_symbol_index i s idx) j sym
  ↔ sym_member idx j sym ∧ ¬ (j = i ∧ sym = s).
Proof.
  unfold remove_from_symbol_index, sym_member.
  destruct (idx !! s) as [ids0|] eqn:H0.
  - destruct (Nat.eqb (length (Js.set_delete i ids0)) 0) eqn:Hsz.
    + apply size_zero_iff in Hsz.
      destruct (decide (sym = s)) as [-> | Hne].
      * rewrite lookup_delete_eq. split.
        -- intros (ids & Habs & _). discriminate.
        -- intros [(ids & Hids & Hin) Hnot]. rewrite H0 in Hids. injection Hids as <-.
           exfalso. apply Hnot. split; [| reflexivity].
           destruct (decide (j = i)) as [-> | Hji]; [reflexivity |].
           assert (Hj : j ∈ Js.set_delete i ids0) by (apply elem_of_set_delete; auto).
           rewrite Hsz in Hj. inversion Hj.
      * rewrite lookup_delete_ne by congruence. split.
        -- intros Hm. split; [exact Hm | intros [_ ?]; contradiction].
        -- intros [Hm _]. exact Hm.
    + destruct (decide (sym = s)) as [-> | Hne].
      * rewrite lookup_insert_eq. split.
        -- intros (ids & [= <-] & Hin).
           apply elem_of_set_delete in Hin as [Hin Hji].
           split; [exists ids0; auto | intros [? _]; contradiction].
        -- intros [(ids & Hids & Hin) Hnot]. rewrite H0 in Hids. injection Hids as <-.
           eexists. split; [reflexivity |].
           apply elem_of_set_delete. split; [exact Hin |].
           intros ->. apply Hnot. auto.
      * rewrite lookup_insert_ne by congruence. split.
        -- intros Hm. split; [exact Hm | intros [_ ?]; contradiction].
        -- intros [Hm _]. exact Hm.
  - split.
    + intros Hm. split; [exact Hm |].
      intros [-> ->]. destruct Hm as (ids & Hids & _). congruence.
    + intros [Hm _]. exact Hm.
Qed.

Lemma add_to_symbol_index_nonempty (idx : gmap string (list string)) (i s : string) :
  (∀ sym ids, idx !! sym = Some ids → ids ≠ []) →
  ∀ sym ids, add_to_symbol_index i s idx !! sym = Some ids → ids ≠ [].
Proof.
  unfold add_to_symbol_index. intros Hok sym ids.
  destruct (decide (sym = s)) as [-> | Hne].
  - rewrite lookup_alter_eq. destruct (idx !! s) as [ids0|] eqn:H0.
    + rewrite H0. intros [= <-]. apply set_add_nonempty.
    + rewrite lookup_insert_eq. intros [= <-]. apply set_add_nonempty.
  - rewrite lookup_alter_ne by congruence.
    destruct (idx !! s); [apply Hok |].
    rewrite lookup_insert_ne by congruence. apply Hok.
Qed.

Lemma remove_from_symbol_index_nonempty (idx : gmap string (list string)) (i s : string) :
  (∀ sym ids, idx !! sym = Some ids → ids ≠ []) →
  ∀ sym ids, remove_from_symbol_index i s idx !! sym = Some ids → ids ≠ [].
Proof.
  unfold remove_from_symbol_index. intros Hok sym ids.
  destruct (idx !! s) as [ids0|] eqn:H0; [| apply Hok].
  destruct (Nat.eqb (length (Js.set_delete i ids0)) 0) eqn:Hsz.
  - intros [_ Hids]%lookup_delete_Some. apply (Hok _ _ Hids).
  - intros [[<- <-] | [_ Hids]]%lookup_insert_Some; [| apply (Hok _ _ Hids)].
    intros Hnil. rewrite Hnil in Hsz. discriminate.
Qed.

Lemma applyChange_symbols now tg action a e :
  (action ≠ Delete ∧ is_enabled a = true
   ∧ enabledAlertsBySymbol (applyChange now tg action a e)
     = add_to_symbol_index (id a) (symbol a) (enabledAlertsBySymbol e))
  ∨ ((action = Delete ∨ is_enabled a = false)
     ∧ enabledAlertsBySymbol (applyChange now tg action a e)
       = match alertsById e !! id a with
         | Some old =>
             remove_from_symbol_index (id a) (symbol (alert old))
               (enabledAlertsBySymbol e)
         | None => enabledAlertsBySymbol e
         end).
Proof.
  assert (Hen : ∀ act, act ≠ Delete → is_enabled a = true →
            enabledAlertsBySymbol (applyChange now tg act a e)
            = add_to_symbol_index (id a) (symbol a) (enabledAlertsBySymbol e)).
  { intros act Hact Hon. destruct act; [| | contradiction]; simpl; now rewrite Hon. }
  assert (Hoff : ∀ act, act ≠ Delete → is_enabled a = false →
            enabledAlertsBySymbol (applyChange now tg act a e)
            = match alertsById e !! id a with
              | Some old =>
                  remove_from_symbol_index (id a) (symbol (alert old))
                    (enabledAlertsBySymbol e)
              | None => enabledAlertsBySymbol e
              end).
  { intros act Hact Hon. destruct act; [| | contradiction]; simpl; rewrite Hon;
      destruct (alertsById e !! id a); reflexivity. }
  destruct action.
  - destruct (is_enabled a) eqn:Hon.
    + left. split; [discriminate |]. split; [reflexivity |]. now apply Hen.
    + right. split; [right; reflexivity |]. now apply Hoff.
  - destruct (is_enabled a) eqn:Hon.
    + left. split; [discriminate |]. split; [reflexivity |]. now apply Hen.
    + right. split; [right; reflexivity |]. now apply Hoff.
  - right. split; [left; reflexivity |]. simpl.
    destruct (alertsById e !! id a); reflexivity.
Qed.

Lemma applyChange_symbols_ok now tg action a e :
  symbols_ok e → symbols_ok (applyChange now tg action a e).
Proof.
  intros [Hlisted Hne].
  destruct (applyChange_symbols now tg action a e)
    as [(Hact & Hon & Hsyms) | (Hrem & Hsyms)].
  - destruct (applyChange_enabling now tg action a e Hact Hon) as (Hby & _).
    split.
    + intros i b. rewrite Hby, Hsyms.
      intros [[<- <-] | [Hi Hb]]%lookup_insert_Some; apply sym_member_add.
      * right. split; reflexivity.
      * left. apply Hlisted, Hb.
    + rewrite Hsyms. apply add_to_symbol_index_nonempty, Hne.
  - destruct (applyChange_removing now tg action a e Hrem) as (Hby & _).
    split.
    + intros i b. rewrite Hby, Hsyms. intros [Hi Hb]%lookup_delete_Some.
      destruct (alertsById e !! id a); [| apply Hlisted, Hb].
      apply sym_member_remove. split; [apply Hlisted, Hb |].
      intros [-> _]. contradiction.
    + rewrite Hsyms. destruct (alertsById e !! id a); [| exact Hne].
      apply remove_from_symbol_index_nonempty, Hne.
Qed.

Lemma index_alert_symbols_ok now e row :
  symbols_ok e → symbols_ok (index_alert now e row).
Proof.
  intros [Hlisted Hne]. unfold index_alert. split; simpl.
  - intros i b [[<- <-] | [Hi Hb]]%lookup_insert_Some; apply sym_member_add.
    + right. split; reflexivity.
    + left. apply Hlisted, Hb.
  - apply add_to_symbol_index_nonempty, Hne.
Qed.

(** X2.  In the state rebuilt from any list of rules and changed by any
    sequence of [applyChange] calls, every rule of the by-id index is
    listed under its current symbol in the by-symbol index, and no symbol
    is left with an empty id set. *)
Theorem symbol_index_lists_indexed_rules (now0 : Z) (rows : list (Telegram * Alert))
  (cs : list Change) :
  symbols_ok (apply_changes cs (rebuildFromDb now0 rows)).
Proof.
  assert (Hre : symbols_ok (rebuildFromDb now0 rows)).
  { unfold rebuildFromDb.
    assert (Hgen : ∀ e, symbols_ok e → symbols_ok (foldl (index_alert now0) e rows)).
    { induction rows as [|row rows IH]; intros e He; [exact He |].
      simpl. apply IH, index_alert_symbols_ok, He. }
    apply Hgen. split; simpl.
    - intros i a Habs. rewrite lookup_empty in Habs. discriminate.
    - intros sym ids Habs. rewrite lookup_empty in Habs. discriminate. }
  revert Hre. generalize (rebuildFromDb now0 rows).
  induction cs as [|c cs IH]; intros e He; [exact He |].
  simpl. apply IH, applyChange_symbols_ok, He.
Qed.

(** X3.  When an indexed rule comes back from the store with another
    symbol, [applyChange] lists it under the new symbol and leaves it
    listed under the old one; a later delete of the rule removes it from
    the new symbol's set only, so the old entry outlives the rule. *)
Theorem symbol_change_leaves_stale_entry (now1 now2 : Z) (tg1 tg2 : Telegram)
  (action : Action) (a : Alert) (old : AlertWithState) (e : Engine) :
  alertsById e !! id a = Some old →
  sym_member (enabledAlertsBySymbol e) (id a) (symbol (alert old)) →
  symbol a ≠ symbol (alert old) →
  action ≠ Delete → is_enabled a = true →
  let e1 := applyChange now1 tg1 action a e in
  let e2 := applyChange now2 tg2 Delete a e1 in
  sym_member (enabledAlertsBySymbol e1) (id a) (symbol a)
  ∧ sym_member (enabledAlertsBySymbol e1) (id a) (symbol (alert old))
  ∧ alertsById e2 !! id a = None
  ∧ ¬ sym_member (enabledAlertsBySymbol e2) (id a) (symbol a)
  ∧ sym_member (enabledAlertsBySymbol e2) (id a) (symbol (alert old)).
Proof.
  intros Hold Hlisted Hsym Hact Hon e1 e2.
  destruct (applyChange_symbols now1 tg1 action a e)
    as [(_ & _ & Hs1) | ([? | Hoff] & _)]; [| contradiction | congruence].
  destruct (applyChange_enabling now1 tg1 action a e Hact Hon) as (Hby1 & _).
  assert (Hentry : alertsById e1 !! id a = Some (index_entry tg1 a))
    by (subst e1; rewrite Hby1; apply lookup_insert_eq).
  destruct (applyChange_symbols now2 tg2 Delete a e1)
    as [(Habs & _) | (_ & Hs2)]; [contradiction |].
  rewrite Hentry in Hs2. cbv beta iota in Hs2.
  change (symbol (alert (index_entry tg1 a))) with (symbol a) in Hs2.
  fold e1 in Hs1. fold e2 in Hs2.
  split; [| split; [| split; [| split]]].
  - rewrite Hs1. apply sym_member_add. right. auto.
  - rewrite Hs1. apply sym_member_add. left. exact Hlisted.
  - unfold e2.
    rewrite (proj1 (applyChange_removing now2 tg2 Delete a e1 (or_introl eq_refl))).
    apply lookup_delete_eq.
  - rewrite Hs2. intros [_ Hnot]%sym_member_remove. apply Hnot. auto.
  - rewrite Hs2. apply sym_member_remove. split.
    + rewrite Hs1. apply sym_member_add. left. exact Hlisted.
    + intros [_ Heq]. apply Hsym. symmetry. exact Heq.
Qed.

Lemma symbol_change_leaves_stale_entry_witness :
  let e := rebuildFromDb 995 (getEnabledAlerts [cross_up_100]) in
  let e1 := applyChange 1000 no_telegram Update cross_up_100_eth e in
  let e2 := applyChange 1010 no_telegram Delete cross_up_100_eth e1 in
  alertsById e2 !! "r1" = None
  ∧ sym_member (enabledAlertsBySymbol e2) "r1" "BTCUSDT".
Proof.
  intros e e1 e2.
  destruct (symbol_change_leaves_stale_entry 1000 1010 no_telegram no_telegram Update
              cross_up_100_eth (index_entry no_telegram cross_up_100) e)
    as (_ & _ & Hgone & _ & Hstale).
  - vm_compute. reflexivity.
  - exists ["r1"]. split; [vm_compute; reflexivity | apply list_elem_of_here].
  - discriminate.
  - discriminate.
  - reflexivity.
  - split; [exact Hgone | exact Hstale].
Defined.

(** ** Scheduling of groups *)

Lemma lookup_remove_from_group_ne (gs : gmap string AlertGroup) (i key0 key : string) :
  key ≠ key0 → remove_from_group i key0 gs !! key = gs !! key.
Proof.
  intros Hne. unfold remove_from_group. destruct (gs !! key0); [| reflexivity].
  destruct (Nat.eqb _ 0).
  - apply lookup_delete_ne. congruence.
  - apply lookup_insert_ne. congruence.
Qed.

Lemma lookup_remove_from_group_Some (gs : gmap string AlertGroup) (i key0 key : string)
  (g' : AlertGroup) :
  remove_from_group i key0 gs !! key = Some g' →
  ∃ g, gs !! key = Some g ∧ same_schedule g g'.
Proof.
  unfold remove_from_group. destruct (gs !! key0) as [g0|] eqn:Hg0.
  - destruct (Nat.eqb _ 0).
    + intros [_ Hg]%lookup_delete_Some. exists g'. repeat split; auto.
    + intros [[<- <-] | [_ Hg]]%lookup_insert_Some.
      * exists g0. repeat split; auto.
      * exists g'. repeat split; auto.
  - intros Hg. exists g'. repeat split; auto.
Qed.

Lemma lookup_add_to_group_Some (now : Z) (gs : gmap string AlertGroup)
  (i sym : string) (itv : Z) (key : string) (g' : AlertGroup) :
  add_to_group now i sym itv gs !! key = Some g' →
  (∃ g, gs !! key = Some g ∧ same_schedule g g')
  ∨ (gs !! key = None ∧ key = makeGroupKey sym itv
     ∧ g' = mkAlertGroup sym itv [i] (now + itv)).
Proof.
  unfold add_to_group. set (k := makeGroupKey sym itv).
  destruct (decide (key = k)) as [-> | Hne].
  - rewrite lookup_alter_eq. destruct (gs !! k) as [g0|] eqn:Hg0.
    + rewrite Hg0. intros [= <-]. left. exists g0. repeat split; auto.
    + rewrite lookup_insert_eq. intros [= <-]. right. repeat split; auto.
  - rewrite lookup_alter_ne by congruence.
    destruct (gs !! k).
    + intros Hg. left. exists g'. repeat split; auto.
    + rewrite lookup_insert_ne by congruence.
      intros Hg. left. exists g'. repeat split; auto.
Qed.

(** The groups after an enabling change, with the fact that a rule is
    only moved between groups of different keys. *)
Lemma groups_after_enabling now tg action a e :
  action ≠ Delete → is_enabled a = true →
  let newkey := makeGroupKey (symbol a) (poll_interval_sec a) in
  ∃ gs1,
    groups (applyChange now tg action a e)
    = add_to_group now (id a) (symbol a) (poll_interval_sec a) gs1
    ∧ (gs1 = groups e
       ∨ ∃ old, alertsById e !! id a = Some old ∧ current_key old ≠ newkey
                ∧ gs1 = remove_from_group (id a) (current_key old) (groups e)).
Proof.
  intros Hact Hon newkey.
  assert (Hshape : applyChange now tg action a e = applyChange now tg Upsert a e)
    by (destruct action; [reflexivity | reflexivity | contradiction]).
  rewrite Hshape. simpl. rewrite Hon. simpl.
  destruct (alertsById e !! id a) as [old|] eqn:Hold.
  - destruct (negb (poll_interval_sec (alert old) =? poll_interval_sec a)
              || negb (String.eqb (symbol (alert old)) (symbol a))) eqn:Hchg.
    + eexists. split; [reflexivity |]. right. exists old.
      split; [reflexivity |]. split; [| reflexivity].
      unfold current_key, newkey. intros [Hs Hi]%makeGroupKey_inj.
      rewrite Hs, Hi, Z.eqb_refl, String.eqb_refl in Hchg. discriminate.
    + eexists. split; [reflexivity |]. left. reflexivity.
  - eexists. split; [reflexivity |]. left. reflexivity.
Qed.

(** X4.  [applyChange] never reschedules a group: a group that exists
    before and after the call keeps its symbol, interval and [nextRunAt];
    a group that the call creates is the group of the changed rule's
    pair, lists that rule alone and is first due [interval] seconds
    after the call. *)
Theorem applyChange_keeps_schedules (now : Z) (tg : Telegram) (action : Action)
  (a : Alert) (e : Engine) (key : string) (g' : AlertGroup) :
  groups (applyChange now tg action a e) !! key = Some g' →
  (∃ g, groups e !! key = Some g ∧ same_schedule g g')
  ∨ (groups e !! key = None ∧ action ≠ Delete ∧ is_enabled a = true
     ∧ key = makeGroupKey (symbol a) (poll_interval_sec a)
     ∧ g' = mkAlertGroup (symbol a) (poll_interval_sec a) [id a]
              (now + poll_interval_sec a)).
Proof.
  intros Hg'.
  assert (Hcase : (action ≠ Delete ∧ is_enabled a = true)
                  ∨ (action = Delete ∨ is_enabled a = false)).
  { destruct action; [| | right; left; reflexivity];
      (destruct (is_enabled a);
       [left; split; [discriminate | reflexivity] | right; right; reflexivity]). }
  destruct Hcase as [[Hact Hon] | Hrem].
  - destruct (groups_after_enabling now tg action a e Hact Hon)
      as (gs1 & Hgs & Hgs1).
    rewrite Hgs in Hg'.
    apply lookup_add_to_group_Some in Hg' as [(g1 & Hg1 & Hsame) | (Hnone & Hkey & ->)].
    + left. destruct Hgs1 as [-> | (old & _ & _ & ->)]; [eauto |].
      apply lookup_remove_from_group_Some in Hg1 as (g & Hg & Hsame0).
      exists g. split; [exact Hg |].
      destruct Hsame as (?&?&?), Hsame0 as (?&?&?). repeat split; congruence.
    + right. repeat split; auto.
      destruct Hgs1 as [-> | (old & _ & Hne & ->)]; [exact Hnone |].
      rewrite lookup_remove_from_group_ne in Hnone; [exact Hnone |].
      rewrite Hkey. congruence.
  - left. rewrite (proj2 (applyChange_removing now tg action a e Hrem)) in Hg'.
    destruct (alertsById e !! id a); [| exists g'; repeat split; auto].
    apply lookup_remove_from_group_Some in Hg'. exact Hg'.
Qed.

Lemma applyChange_keeps_schedules_witness :
  let e := rebuildFromDb 995 (getEnabledAlerts [cross_up_100]) in
  let e1 := applyChange 2000 no_telegram Upsert pct_up_5 e in
  (∃ g, groups e1 !! "BTCUSDT:5" = Some g ∧ nextRunAt g = 1000)
  ∧ (∃ g, groups e1 !! "ETHUSDT:5" = Some g ∧ nextRunAt g = 2005).
Proof.
  intros e e1. split.
  - destruct (applyChange_keeps_schedules 2000 no_telegram Upsert pct_up_5 e
                "BTCUSDT:5" (mkAlertGroup "BTCUSDT" 5 ["r1"] 1000))
      as [(g & Hg & _ & _ & Hnext) | (Habs & _)].
    + vm_compute. reflexivity.
    + eexists. split; [vm_compute; reflexivity | reflexivity].
    + vm_compute in Habs. discriminate Habs.
  - destruct (applyChange_keeps_schedules 2000 no_telegram Upsert pct_up_5 e
                "ETHUSDT:5" (mkAlertGroup "ETHUSDT" 5 ["r2"] 2005))
      as [(g & Habs & _) | (_ & _ & _ & _ & Hnew)].
    + vm_compute. reflexivity.
    + vm_compute in Habs. discriminate Habs.
    + eexists. split; [vm_compute; reflexivity | reflexivity].
Defined.

(** ** Scheduler *)

Lemma rebuild_schedule now (rows : list (Telegram * Alert)) : ∀ e,
  (∀ key g, groups e !! key = Some g →
     nextRunAt g = now + g_interval g
     ∧ ∃ r, r ∈ rows ∧ g_interval g = poll_interval_sec r.2) →
  ∀ key g, groups (foldl (index_alert now) e rows) !! key = Some g →
    nextRunAt g = now + g_interval g
    ∧ ∃ r, r ∈ rows ∧ g_interval g = poll_interval_sec r.2.
Proof.
  assert (Hgen : ∀ (seen todo : list (Telegram * Alert)) e,
    (∀ key g, groups e !! key = Some g →
       nextRunAt g = now + g_interval g
       ∧ ∃ r, r ∈ (seen ++ todo)%list ∧ g_interval g = poll_interval_sec r.2) →
    ∀ key g, groups (foldl (index_alert now) e todo) !! key = Some g →
      nextRunAt g = now + g_interval g
      ∧ ∃ r, r ∈ (seen ++ todo)%list ∧ g_interval g = poll_interval_sec r.2).
  { intros seen todo. revert seen.
    induction todo as [|row todo IH]; intros seen e He key g; [apply He |].
    simpl. replace (seen ++ row :: todo)%list with ((seen ++ [row]) ++ todo)%list
      by (now rewrite <- app_assoc).
    apply IH. clear key g. intros key g Hg. unfold index_alert in Hg. simpl in Hg.
    apply lookup_add_to_group_Some in Hg as [(g0 & Hg0 & Hi & Hs & Hn) | (_ & _ & ->)].
    - destruct (He _ _ Hg0) as [Hnext (r & Hr & Hitv)].
      split; [congruence |]. exists r. split; [| congruence].
      rewrite <- app_assoc. exact Hr.
    - simpl. split; [reflexivity |]. exists row. split; [| reflexivity].
      apply elem_of_app. left. apply elem_of_app. right. apply list_elem_of_here. }
  intros e He. apply (Hgen [] rows e He).
Qed.

(** X5.  Starting a stopped monitor rebuilds the indexes, sets the
    running flag and arms the timer; every rebuilt group is first due one
    interval after the rebuild, so the first scan, made before the
    shortest interval has passed, hands no group to a tick. *)
Theorem start_dispatches_nothing_at_once (t0 t1 : Z) (rows : list (Telegram * Alert))
  (m : Scheduler.Monitor) :
  Scheduler.isRunning m = false →
  (∀ r, r ∈ rows → t1 < t0 + poll_interval_sec r.2) →
  Scheduler.startMonitor t0 rows t1 m
  = (∅, Scheduler.mkMonitor true true (rebuildFromDb t0 rows))
  ∧ ∀ key g, groups (rebuildFromDb t0 rows) !! key = Some g →
      nextRunAt g = t0 + g_interval g.
Proof.
  intros Hstopped Hsoon.
  assert (Hsched : ∀ key g, groups (rebuildFromDb t0 rows) !! key = Some g →
            nextRunAt g = t0 + g_interval g
            ∧ ∃ r, r ∈ rows ∧ g_interval g = poll_interval_sec r.2).
  { apply rebuild_schedule. simpl. intros key g Habs.
    rewrite lookup_empty in Habs. discriminate. }
  split; [| intros key g Hg; apply (Hsched key g Hg)].
  unfold Scheduler.startMonitor, Scheduler.monitorLoop. rewrite Hstopped. simpl.
  f_equal. apply map_eq. intros key. rewrite lookup_empty.
  apply map_lookup_filter_None. right. intros g Hg. simpl.
  destruct (Hsched key g Hg) as [Hnext (r & Hr & Hitv)].
  unfold is_due. rewrite Hnext, Hitv.
  specialize (Hsoon r Hr). intros Hdue%Z.leb_le. lia.
Qed.

Lemma start_dispatches_nothing_at_once_witness :
  Scheduler.startMonitor 995 (getEnabledAlerts [cross_up_100; pct_up_5]) 995
    (Scheduler.mkMonitor false false empty_engine)
  = (∅, Scheduler.mkMonitor true true
          (rebuildFromDb 995 (getEnabledAlerts [cross_up_100; pct_up_5]))).
Proof.
  apply (start_dispatches_nothing_at_once 995 995).
  - reflexivity.
  - intros r Hr.
    assert (Hrows : getEnabledAlerts [cross_up_100; pct_up_5]
                    = [(no_telegram, cross_up_100); (no_telegram, pct_up_5)])
      by (vm_compute; reflexivity).
    rewrite Hrows in Hr.
    apply elem_of_cons in Hr as [-> | Hr]; [simpl; lia |].
    apply elem_of_cons in Hr as [-> | Hr]; [simpl; lia |].
    inversion Hr.
Defined.

(** X6.  A scan hands over every group that is due, whether or not an
    earlier tick of that group is still waiting for its price: with the
    indexes unchanged, every group handed over by one scan is handed over
    again by every later scan; and a stopped monitor hands over nothing,
    arms no timer and keeps its indexes. *)
Theorem scan_repeats_unsettled_groups (now1 now2 : Z) (m : Scheduler.Monitor) :
  now1 ≤ now2 →
  (Scheduler.monitorLoop now1 m).1
    ⊆ (Scheduler.monitorLoop now2 (Scheduler.monitorLoop now1 m).2).1
  ∧ Scheduler.indexes (Scheduler.monitorLoop now1 m).2 = Scheduler.indexes m
  ∧ Scheduler.monitorLoop now2 (Scheduler.stopMonitor m)
    = (∅, Scheduler.mkMonitor false false (Scheduler.indexes m)).
Proof.
  intros Hle. unfold Scheduler.monitorLoop, Scheduler.stopMonitor.
  destruct (Scheduler.isRunning m) eqn:Hrun; simpl; rewrite ?Hrun; simpl.
  - split; [| split; reflexivity].
    apply map_subseteq_spec. intros key g.
    rewrite !map_lookup_filter_Some. simpl. unfold is_due.
    intros [Hg Hdue%Z.leb_le]. split; [exact Hg |]. apply Z.leb_le. lia.
  - split; [| split; reflexivity]. apply map_subseteq_spec. intros key g.
    rewrite lookup_empty. discriminate.
Qed.

Lemma scan_repeats_unsettled_groups_witness :
  let m := Scheduler.mkMonitor true true
             (rebuildFromDb 995 (getEnabledAlerts [cross_up_100])) in
  (Scheduler.monitorLoop 1000 m).1
    ⊆ (Scheduler.monitorLoop 1001 (Scheduler.monitorLoop 1000 m).2).1
  ∧ (Scheduler.monitorLoop 1000 m).1 !! "BTCUSDT:5"
    = Some (single_rule_group 995 cross_up_100).
Proof.
  intros m. split.
  - apply (scan_repeats_unsettled_groups 1000 1001 m). lia.
  - vm_compute. reflexivity.
Defined.

Lemma first_rule_member (gs : gmap string AlertGroup) key g :
  groups_ok gs → gs !! key = Some g → member gs (first_rule g) key.
Proof.
  intros Hok Hg. exists g. split; [exact Hg |].
  destruct (Hok _ _ Hg) as [Hne _]. unfold first_rule.
  destruct (alertIds g) as [|i ids]; [contradiction |].
  simpl. apply list_elem_of_here.
Qed.

Lemma groups_no_more_than_rules (e : Engine) :
  group_invariant e → (size (groups e) ≤ size (alertsById e))%nat.
Proof.
  intros [Hidx Habs Hok].
  rewrite <- (length_map_to_list (groups e)), <- (length_map_to_list (alertsById e)).
  rewrite <- (length_fmap (λ kg : string * AlertGroup, first_rule kg.2)).
  rewrite <- (length_fmap fst (map_to_list (alertsById e))).
  apply submseteq_length, NoDup_submseteq.
  - apply NoDup_fmap_2_strong; [| apply NoDup_map_to_list].
    intros [k1 g1] [k2 g2] H1%elem_of_map_to_list H2%elem_of_map_to_list Heq.
    simpl in Heq.
    pose proof (first_rule_member _ _ _ Hok H1) as M1.
    pose proof (first_rule_member _ _ _ Hok H2) as M2.
    rewrite <- Heq in M2.
    destruct (alertsById e !! first_rule g1) as [a|] eqn:Ha.
    + destruct (Hidx _ _ Ha) as (_ & _ & Hkeys).
      apply Hkeys in M1, M2. subst k1 k2.
      assert (g1 = g2) by congruence. subst. reflexivity.
    + destruct (Habs _ Ha _ M1).
  - intros i ([k g] & -> & Hkg%elem_of_map_to_list)%list_elem_of_fmap. simpl.
    pose proof (first_rule_member _ _ _ Hok Hkg) as M.
    destruct (alertsById e !! first_rule g) as [a|] eqn:Ha.
    + apply list_elem_of_fmap. exists (first_rule g, a). split; [reflexivity |].
      apply elem_of_map_to_list. exact Ha.
    + destruct (Habs _ Ha _ M).
Qed.

Lemma rebuild_size now (rows : list (Telegram * Alert)) : ∀ e,
  NoDup ((λ r, id r.2) <$> rows) →
  (∀ r, r ∈ rows → alertsById e !! id r.2 = None) →
  size (alertsById (foldl (index_alert now) e rows))
  = (size (alertsById e) + length rows)%nat.
Proof.
  induction rows as [|row rows IH]; intros e Hnd Hfresh; [simpl; lia |].
  rewrite fmap_cons in Hnd. apply NoDup_cons in Hnd as [Hnotin Hnd].
  simpl. rewrite IH.
  - unfold index_alert. simpl. rewrite map_size_insert_None; [lia |].
    apply Hfresh. apply list_elem_of_here.
  - exact Hnd.
  - intros r Hr. unfold index_alert. simpl. rewrite lookup_insert_ne.
    + apply Hfresh. now right.
    + intros Heq. apply Hnotin. rewrite Heq.
      apply (list_elem_of_fmap_2 (λ r, id r.2)). exact Hr.
Qed.

(** X7.  The status counts: right after a rebuild [alertsCount] is the
    number of enabled rules read from the store, and after any further
    changes the engine never holds more groups than rules, so a round of
    ticks never fetches more prices than there are rules. *)
Theorem status_counts (now0 : Z) (rows : list (Telegram * Alert)) (cs : list Change)
  (run : bool) (timer : bool) :
  NoDup ((λ r, id r.2) <$> rows) →
  (∀ r, r ∈ rows → is_enabled r.2 = true) →
  let rebuilt := Scheduler.getEngineStatus
                   (Scheduler.mkMonitor run timer (rebuildFromDb now0 rows)) in
  let later := Scheduler.getEngineStatus
                 (Scheduler.mkMonitor run timer
                    (apply_changes cs (rebuildFromDb now0 rows))) in
  Scheduler.alertsCount rebuilt = length rows
  ∧ (Scheduler.groupsCount rebuilt ≤ length rows)%nat
  ∧ (Scheduler.groupsCount later ≤ Scheduler.alertsCount later)%nat.
Proof.
  intros Hnd Hen rebuilt later. subst rebuilt later. simpl.
  assert (Hsize : size (alertsById (rebuildFromDb now0 rows)) = length rows).
  { unfold rebuildFromDb. rewrite rebuild_size; [reflexivity | exact Hnd |].
    intros r _. apply lookup_empty. }
  split; [exact Hsize |]. split.
  - rewrite <- Hsize. apply groups_no_more_than_rules, rebuildFromDb_invariant; assumption.
  - apply groups_no_more_than_rules, apply_changes_invariant,
      rebuildFromDb_invariant; assumption.
Qed.

Lemma status_counts_witness :
  let rows := getEnabledAlerts [cross_up_100; pct_up_5; pct_down_5] in
  let st := Scheduler.getEngineStatus
              (Scheduler.mkMonitor true true (rebuildFromDb 995 rows)) in
  Scheduler.alertsCount st = 3%nat ∧ (Scheduler.groupsCount st ≤ 3)%nat.
Proof.
  intros rows st.
  assert (Hnd : NoDup ((λ r, id r.2) <$> rows))
    by (refine (bool_decide_unpack _ _); vm_compute; exact I).
  assert (Hen : ∀ r, r ∈ rows → is_enabled r.2 = true)
    by (apply getEnabledAlerts_rows; refine (bool_decide_unpack _ _);
        vm_compute; exact I).
  destruct (status_counts 995 rows [] true true Hnd Hen) as (Hcount & Hgroups & _).
  split; [exact Hcount | exact Hgroups].
Defined.

(** ** What a tick does to the indexes *)

Lemma same_rule_refl a : same_rule a a.
Proof. repeat split. Qed.

Lemma same_rule_trans a b c : same_rule a b → same_rule b c → same_rule a c.
Proof.
  unfold same_rule. intros (?&?&?&?&?&?&?&?&?&?) (?&?&?&?&?&?&?&?&?&?).
  repeat split; congruence.
Qed.

Lemma same_rule_written now st a :
  same_rule a (with_state st a)
  ∧ same_rule a (with_last_triggered_at now (with_state st a)).
Proof. split; repeat split. Qed.

Lemma touches_only_refl ids e : touches_only ids e e.
Proof.
  repeat split; auto. intros a Ha. exists a. repeat split; auto.
Qed.

Lemma touches_only_trans ids1 ids2 e1 e2 e3 :
  touches_only ids1 e1 e2 → touches_only ids2 e2 e3 →
  touches_only (ids1 ++ ids2) e1 e3.
Proof.
  intros (Hg1 & Hs1 & H1) (Hg2 & Hs2 & H2).
  split; [congruence |]. split; [congruence |].
  intros j. split.
  - intros Hn. apply (proj1 (H2 j)), (proj1 (H1 j)), Hn.
  - intros a Ha.
    destruct (proj2 (H1 j) a Ha) as (a1 & Ha1 & Hsame1 & Heq1).
    destruct (proj2 (H2 j) a1 Ha1) as (a2 & Ha2 & Hsame2 & Heq2).
    exists a2. split; [exact Ha2 |]. split; [eapply same_rule_trans; eauto |].
    intros Hnot. rewrite elem_of_app in Hnot.
    rewrite Heq2, Heq1; tauto.
Qed.

Lemma put_alert_touches_only (i : string) (a a' : AlertWithState) (e : Engine) :
  alertsById e !! i = Some a → same_rule a a' →
  touches_only [i] e (put_alert i a' e).
Proof.
  intros Ha Hsame. unfold put_alert. repeat split; simpl.
  - intros Hn. rewrite lookup_insert_ne; [exact Hn | congruence].
  - intros b Hb. destruct (decide (j = i)) as [-> | Hne].
    + rewrite lookup_insert_eq. exists a'.
      assert (b = a) by congruence. subst b.
      split; [reflexivity |]. split; [exact Hsame |].
      intros Hnot. exfalso. apply Hnot, list_elem_of_here.
    + rewrite lookup_insert_ne by congruence. exists b.
      repeat split; auto.
Qed.

Lemma tick_alert_touches_only (F : Js.NumberFormat) {S : Type} (St : RuleStore S)
  (now : Z) (p : float) (w : World S) (i : string) :
  touches_only [i] (engine w) (engine (TickTs.tick_alert now p w i))
  ∧ touches_only [i] (engine w) (engine (TickCjs.tick_alert now p w i)).
Proof.
  unfold TickTs.tick_alert, TickCjs.tick_alert,
    TickTs.tick_alert_run, TickCjs.tick_alert_run.
  destruct (alertsById (engine w) !! i) as [a|] eqn:Ha;
    [| split; apply touches_only_refl].
  destruct (is_enabled (alert a)); simpl; [| split; apply touches_only_refl].
  destruct (MonitorEngineTs.shouldTrigger a now p) as [rt st].
  destruct (MonitorEngineCjs.shouldTrigger a now p) as [rc sc].
  split.
  - destruct (triggered rt).
    + destruct (createAlertEvent _ _) as [[evId s2]|]; simpl;
        apply (put_alert_touches_only _ _ _ _ Ha), (same_rule_written now st a).
    + simpl. apply (put_alert_touches_only _ _ _ _ Ha), (same_rule_written now st a).
  - destruct (triggered rc).
    + destruct (createAlertEvent _ _) as [[evId s2]|]; simpl;
        apply (put_alert_touches_only _ _ _ _ Ha), (same_rule_written now sc a).
    + simpl. apply (put_alert_touches_only _ _ _ _ Ha), (same_rule_written now sc a).
Qed.

Lemma touches_only_more ids ids' e e' :
  touches_only ids e e' → (∀ j, j ∈ ids → j ∈ ids') → touches_only ids' e e'.
Proof.
  intros (Hg & Hs & Hby) Hsub. split; [exact Hg |]. split; [exact Hs |].
  intros j. split; [apply (Hby j) |].
  intros a Ha. destruct (proj2 (Hby j) a Ha) as (a' & Ha' & Hsame & Heq).
  exists a'. split; [exact Ha' |]. split; [exact Hsame |].
  intros Hnot. apply Heq. intros Hin. apply Hnot, Hsub, Hin.
Qed.

(** The loop over the rules of a group, whether it runs to its end or is
    cut short. *)
Lemma tick_alerts_touches_only (F : Js.NumberFormat) {S : Type} (St : RuleStore S)
  (now : Z) (p : float) (ids : list string) : ∀ w : World S,
  touches_only ids (engine w) (engine (TickTs.tick_alerts now p ids w).1)
  ∧ touches_only ids (engine w) (engine (TickCjs.tick_alerts now p ids w).1).
Proof.
  induction ids as [|i ids IH]; intros w.
  - split; apply touches_only_refl.
  - destruct (tick_alert_touches_only F St now p w i) as [Hts Hcjs].
    unfold TickTs.tick_alert, TickCjs.tick_alert in Hts, Hcjs.
    cbn [TickTs.tick_alerts TickCjs.tick_alerts].
    destruct (TickTs.tick_alert_run now p w i) as [wt tt].
    destruct (TickCjs.tick_alert_run now p w i) as [wc tc].
    cbn [fst] in Hts, Hcjs. split.
    + destruct tt; cbn [fst].
      * apply (touches_only_more [i]); [exact Hts |].
        intros j ->%list_elem_of_singleton. left.
      * apply (touches_only_trans [i] ids _ (engine wt)); [exact Hts | apply IH].
    + destruct tc; cbn [fst].
      * apply (touches_only_more [i]); [exact Hcjs |].
        intros j ->%list_elem_of_singleton. left.
      * apply (touches_only_trans [i] ids _ (engine wc)); [exact Hcjs | apply IH].
Qed.

Lemma touches_only_invariant ids e e' :
  touches_only ids e e' → group_invariant e → group_invariant e'.
Proof.
  intros (Hg & _ & Hby) [Hidx Habs Hok]. constructor; rewrite ?Hg.
  - intros i a' Ha'.
    destruct (alertsById e !! i) as [a|] eqn:Ha.
    + destruct (proj2 (Hby i) a Ha) as (a'' & Ha'' & Hsame & _).
      assert (a'' = a') by congruence. subst a''.
      destruct Hsame as (Hid & Hsym & _ & _ & Hitv & _ & Hen & _).
      destruct (Hidx i a Ha) as (Hi & Hon & Hkeys).
      split; [congruence |]. split; [congruence |].
      intros key. rewrite Hkeys. unfold current_key. now rewrite Hsym, Hitv.
    + rewrite (proj1 (Hby i) Ha) in Ha'. discriminate.
  - intros i Hnone key.
    destruct (alertsById e !! i) as [a|] eqn:Ha.
    + destruct (proj2 (Hby i) a Ha) as (a' & Ha' & _). congruence.
    + apply (Habs i Ha).
  - exact Hok.
Qed.

Lemma touches_only_symbols_ok ids e e' :
  touches_only ids e e' → symbols_ok e → symbols_ok e'.
Proof.
  intros (_ & Hs & Hby) [Hlisted Hne]. split; rewrite Hs; [| exact Hne].
  intros i a' Ha'.
  destruct (alertsById e !! i) as [a|] eqn:Ha.
  - destruct (proj2 (Hby i) a Ha) as (a'' & Ha'' & Hsame & _).
    assert (a'' = a') by congruence. subst a''.
    destruct Hsame as (_ & Hsym & _). rewrite Hsym. apply Hlisted, Ha.
  - rewrite (proj1 (Hby i) Ha) in Ha'. discriminate.
Qed.

(** *** The group object and the [groups] map *)

Lemma reschedule_rules t g e :
  alertsById (reschedule t g e) = alertsById e
  ∧ enabledAlertsBySymbol (reschedule t g e) = enabledAlertsBySymbol e.
Proof. unfold reschedule. case_bool_decide; split; reflexivity. Qed.

Lemma reschedule_groups t g e :
  let key := makeGroupKey (g_symbol g) (g_interval g) in
  (∀ k, k ≠ key → groups (reschedule t g e) !! k = groups e !! k)
  ∧ (groups e !! key = Some g →
     groups (reschedule t g e) !! key = Some (with_nextRunAt t g))
  ∧ (groups e !! key ≠ Some g → reschedule t g e = e).
Proof.
  intros key. unfold reschedule. fold key. case_bool_decide as Hheld; cbn [groups].
  - split; [intros k Hk; apply lookup_insert_ne; congruence |].
    split; [intros _; apply lookup_insert_eq | intros Hno; contradiction].
  - split; [reflexivity |]. split; [intros Hyes; contradiction | reflexivity].
Qed.

Lemma reschedule_member t g e i k :
  member (groups (reschedule t g e)) i k ↔ member (groups e) i k.
Proof.
  unfold reschedule. case_bool_decide as Hheld; [| reflexivity].
  cbn [groups]. unfold member.
  destruct (decide (k = makeGroupKey (g_symbol g) (g_interval g))) as [-> | Hne].
  - rewrite lookup_insert_eq, Hheld.
    split; intros (g' & [= <-] & Hin); eexists; (split; [reflexivity | exact Hin]).
  - rewrite lookup_insert_ne by congruence. reflexivity.
Qed.

Lemma reschedule_invariant t g e :
  group_invariant e → group_invariant (reschedule t g e).
Proof.
  intros [Hidx Habs Hok]. destruct (reschedule_rules t g e) as [Hby _].
  constructor.
  - intros i a Ha. rewrite Hby in Ha. destruct (Hidx i a Ha) as (Hid & Hon & Hkeys).
    split; [exact Hid |]. split; [exact Hon |].
    intros key. rewrite reschedule_member. apply Hkeys.
  - intros i Hn key. rewrite Hby in Hn. rewrite reschedule_member. apply Habs, Hn.
  - unfold reschedule. case_bool_decide as Hheld; [| exact Hok].
    cbn [groups]. intros k g' Hg'.
    apply lookup_insert_Some in Hg' as [[<- <-] | [_ Hg']]; [| apply (Hok _ _ Hg')].
    apply (Hok _ _ Hheld).
Qed.

Lemma reschedule_symbols_ok t g e : symbols_ok e → symbols_ok (reschedule t g e).
Proof.
  destruct (reschedule_rules t g e) as [Hby Hsym].
  unfold symbols_ok. now rewrite Hby, Hsym.
Qed.

Lemma touches_only_rules_kept ids e e' : touches_only ids e e' → rules_kept ids e e'.
Proof. intros (_ & _ & Hby). exact Hby. Qed.

(** What the last statement of a tick adds to the loop. *)
Lemma tick_effect_of_loop {S : Type} now g (w w1 : World S) (threw : bool) :
  touches_only (alertIds g) (engine w) (engine w1) →
  let r := if threw then (g, w1)
           else (with_nextRunAt (now + g_interval g) g,
                 mkWorld (reschedule (now + g_interval g) g (engine w1))
                   (store w1) (outbox w1)) in
  tick_effect now g w threw r
  ∧ (group_invariant (engine w) → group_invariant (engine r.2))
  ∧ (symbols_ok (engine w) → symbols_ok (engine r.2)).
Proof.
  intros Hloop r. pose proof Hloop as (Hg & Hs & Hby).
  destruct threw; subst r; cbn [fst snd engine].
  - split; [| split; [now apply touches_only_invariant with (ids := alertIds g)
                     | now apply touches_only_symbols_ok with (ids := alertIds g)]].
    unfold tick_effect. cbn [fst snd]. rewrite Hg.
    split; [reflexivity |]. split; [exact Hby |]. split; [exact Hs |].
    split; [reflexivity |]. split; [auto | reflexivity].
  - destruct (reschedule_rules (now + g_interval g) g (engine w1)) as [Rby Rsym].
    destruct (reschedule_groups (now + g_interval g) g (engine w1)) as (Rk & Ry & Rn).
    rewrite Hg in Rk, Ry, Rn.
    split; [| split].
    + unfold tick_effect. cbn [fst snd engine].
      split; [reflexivity |].
      split; [unfold rules_kept; rewrite Rby; exact Hby |].
      split; [now rewrite Rsym |].
      split; [exact Rk |]. split; [exact Ry |].
      intros Hno. rewrite (Rn Hno). exact Hg.
    + intros Hinv. apply reschedule_invariant.
      now apply touches_only_invariant with (ids := alertIds g) (e := engine w).
    + intros Hsym. apply reschedule_symbols_ok.
      now apply touches_only_symbols_ok with (ids := alertIds g) (e := engine w).
Qed.



(** ** Events and tasks of a tick (SQLite store) *)

Lemma event_row_app_l (rowid : Z) (evs more : list AlertEvent) (ev : AlertEvent) :
  event_row rowid evs = Some ev → event_row rowid ((evs ++ more)%list) = Some ev.
Proof.
  unfold event_row. destruct (1 <=? rowid); [| discriminate].
  intros Hl. now apply lookup_app_l_Some.
Qed.

Lemma event_row_new (evs : list AlertEvent) (ev : AlertEvent) :
  event_row (Z.of_nat (length evs) + 1) ((evs ++ [ev])%list) = Some ev.
Proof.
  unfold event_row. destruct (Z.leb_spec 1 (Z.of_nat (length evs) + 1)); [| lia].
  replace (Z.to_nat (Z.of_nat (length evs) + 1 - 1)) with (length evs) by lia.
  rewrite lookup_app_r by lia. now rewrite Nat.sub_diag.
Qed.

Lemma task_refers_to_app now evs more ev dt :
  task_refers_to now evs ev dt → task_refers_to now ((evs ++ more)%list) ev dt.
Proof.
  intros (Hrow & Hrest). split; [now apply event_row_app_l | exact Hrest].
Qed.

Lemma sqlite_updateAlert_events i u s :
  events_table (sqlite_updateAlert i u s) = events_table s.
Proof.
  unfold sqlite_updateAlert.
  destruct (upd_last_triggered_at u), (upd_last_state u); reflexivity.
Qed.

Lemma sqlite_updateAlert_ids i u s :
  id <$> alerts_table (sqlite_updateAlert i u s) = id <$> alerts_table s.
Proof.
  unfold sqlite_updateAlert.
  destruct (upd_last_triggered_at u), (upd_last_state u); try reflexivity;
    cbn [alerts_table]; rewrite <- list_fmap_compose; apply list_fmap_ext;
    intros k r _; cbn; destruct (String.eqb (id r) i); reflexivity.
Qed.

(** One rule of a tick, TypeScript engine: no event and no task, or one
    event and the one task that refers to it. *)
Lemma tick_alert_ts_events (F : Js.NumberFormat) now p (w : World SqliteStore) i :
  let w' := TickTs.tick_alert now p w i in
  (events_table (store w') = events_table (store w) ∧ outbox w' = outbox w)
  ∨ ∃ ev t,
      events_table (store w') = (events_table (store w) ++ [ev])%list
      ∧ outbox w' = (outbox w ++ [(0, t)])%list
      ∧ task_refers_to now (events_table (store w')) ev (0, t)
      ∧ ev_reason ev = Some (nt_reason t).
Proof.
  unfold TickTs.tick_alert, TickTs.tick_alert_run.
  destruct (alertsById (engine w) !! i) as [a|]; [| left; split; reflexivity].
  destruct (is_enabled (alert a)); simpl; [| left; split; reflexivity].
  destruct (MonitorEngineTs.shouldTrigger a now p) as [r st].
  destruct (triggered r); simpl.
  - unfold sqlite_createAlertEvent. case_bool_decide; simpl.
    + right. eexists _, _.
      split; [reflexivity |]. split; [reflexivity |].
      split; [| reflexivity].
      split; [apply event_row_new | repeat split].
    + left. split; reflexivity.
  - left. split; reflexivity.
Qed.

Lemma tick_ts_events (F : Js.NumberFormat) now p ids : ∀ w : World SqliteStore,
  let w' := (TickTs.tick_alerts now p ids w).1 in
  ∃ evs tasks,
    events_table (store w') = (events_table (store w) ++ evs)%list
    ∧ outbox w' = (outbox w ++ tasks)%list
    ∧ Forall2 (λ ev dt, dt.1 = 0 ∧ ev_reason ev = Some (nt_reason dt.2)
                        ∧ task_refers_to now (events_table (store w')) ev dt)
        evs tasks.
Proof.
  induction ids as [|i ids IH]; intros w; cbn [TickTs.tick_alerts].
  - exists [], []. cbn [fst]. rewrite !app_nil_r. repeat split; constructor.
  - pose proof (tick_alert_ts_events F now p w i) as Hone.
    unfold TickTs.tick_alert in Hone.
    destruct (TickTs.tick_alert_run now p w i) as [w1 threw]. cbn [fst] in Hone.
    destruct threw.
    + cbn [fst].
      destruct Hone as [[Hev1 Hout1] | (ev & t & Hev1 & Hout1 & Href & Hreason)].
      * exists [], []. rewrite !app_nil_r. repeat split; auto; constructor.
      * exists [ev], [(0, t)]. split; [exact Hev1 |]. split; [exact Hout1 |].
        constructor; [| constructor].
        split; [reflexivity |]. split; [exact Hreason | exact Href].
    + destruct (IH w1) as (evs & tasks & Hev & Hout & Hall).
      cbn zeta in Hev, Hout, Hall |- *.
      destruct Hone as [[Hev1 Hout1] | (ev & t & Hev1 & Hout1 & Href & Hreason)].
      * exists evs, tasks.
        split; [now rewrite Hev, Hev1 |]. split; [now rewrite Hout, Hout1 |].
        exact Hall.
      * exists (ev :: evs), ((0, t) :: tasks).
        split; [now rewrite Hev, Hev1, <- app_assoc |].
        split; [now rewrite Hout, Hout1, <- app_assoc |].
        constructor; [| exact Hall].
        split; [reflexivity |]. split; [exact Hreason |].
        rewrite Hev. apply task_refers_to_app. exact Href.
Qed.

(** The insert of an event for an indexed rule that has a row does not
    violate the foreign key. *)
Lemma tick_alert_ts_completes (F : Js.NumberFormat) now p (w : World SqliteStore) i :
  every_rule_has_a_row w →
  (TickTs.tick_alert_run now p w i).2 = false
  ∧ every_rule_has_a_row (TickTs.tick_alert_run now p w i).1.
Proof.
  intros Hrows. unfold TickTs.tick_alert_run.
  destruct (alertsById (engine w) !! i) as [a|] eqn:Ha; [| split; [reflexivity | exact Hrows]].
  destruct (is_enabled (alert a)); cbn [negb]; [| split; [reflexivity | exact Hrows]].
  destruct (MonitorEngineTs.shouldTrigger a now p) as [r st].
  assert (Hput : ∀ a' s', id (alert a') = id (alert a) →
            id <$> alerts_table s' = id <$> alerts_table (store w) →
            ∀ out, every_rule_has_a_row (mkWorld (put_alert i a' (engine w)) s' out)).
  { intros a' s' Hid Hids out j b. unfold every_rule_has_a_row in Hrows.
    cbn [engine store put_alert alertsById]. rewrite Hids.
    intros [[<- <-] | [_ Hb]]%lookup_insert_Some.
    - rewrite Hid. apply (Hrows _ _ Ha).
    - apply (Hrows _ _ Hb). }
  destruct (triggered r).
  - cbv zeta. cbn [createAlertEvent updateAlert sqlite_store].
    unfold sqlite_createAlertEvent. rewrite bool_decide_true.
    + cbn [fst snd]. split; [reflexivity |].
      apply Hput; [reflexivity |]. cbn [alerts_table]. apply sqlite_updateAlert_ids.
    + rewrite sqlite_updateAlert_ids. apply (Hrows _ _ Ha).
  - cbv zeta. cbn [fst snd]. split; [reflexivity |].
    apply Hput; [reflexivity |]. apply sqlite_updateAlert_ids.
Qed.

Lemma tick_alerts_ts_completes (F : Js.NumberFormat) now p ids :
  ∀ w : World SqliteStore,
    every_rule_has_a_row w →
    TickTs.tick_alerts now p ids w = (foldl (TickTs.tick_alert now p) w ids, false)
    ∧ every_rule_has_a_row (foldl (TickTs.tick_alert now p) w ids).
Proof.
  induction ids as [|i ids IH]; intros w Hrows; cbn [TickTs.tick_alerts foldl].
  - split; [reflexivity | exact Hrows].
  - destruct (tick_alert_ts_completes F now p w i Hrows) as [Hno Hrows1].
    change (TickTs.tick_alert now p w i) with (TickTs.tick_alert_run now p w i).1.
    destruct (TickTs.tick_alert_run now p w i) as [w1 threw].
    cbn [fst snd] in Hno, Hrows1 |- *. subst threw. apply IH, Hrows1.
Qed.

(** X9.  TypeScript engine on the SQLite store: a tick only appends to
    the event table, and the tasks it pushes correspond one to one, in
    order, to the events it appends: each task is pushed without delay
    and carries the row id of its event, which belongs to the same rule,
    has status [queued], no error, the tick's timestamp and the task's
    reason, price and threshold (a NaN is stored as NULL).  This holds
    also for a tick that the store cuts short: an insert that violates the
    foreign key of the event table appends nothing and pushes nothing.
    When every indexed rule has a row in the rule table no insert does,
    the tick runs to its end and reschedules its group, and every indexed
    rule still has a row. *)
Theorem tick_tasks_match_new_events (F : Js.NumberFormat) (now : Z)
  (fetched : PriceResult) (g : AlertGroup) (w : World SqliteStore) :
  let r := TickTs.executeGroupTick now (Some fetched) g w in
  let w' := r.2 in
  (∃ evs tasks,
     events_table (store w') = (events_table (store w) ++ evs)%list
     ∧ outbox w' = (outbox w ++ tasks)%list
     ∧ Forall2 (λ ev dt, dt.1 = 0 ∧ ev_reason ev = Some (nt_reason dt.2)
                         ∧ task_refers_to now (events_table (store w')) ev dt)
         evs tasks)
  ∧ (every_rule_has_a_row w →
     (TickTs.tick_alerts now (price fetched) (alertIds g) w).2 = false
     ∧ r.1 = with_nextRunAt (now + g_interval g) g
     ∧ every_rule_has_a_row w').
Proof.
  intros r w'. subst w' r. unfold TickTs.executeGroupTick. split.
  - pose proof (tick_ts_events F now (price fetched) (alertIds g) w) as Hloop.
    destruct (TickTs.tick_alerts now (price fetched) (alertIds g) w) as [w1 threw].
    cbn [fst] in Hloop. destruct threw; exact Hloop.
  - intros Hrows.
    destruct (tick_alerts_ts_completes F now (price fetched) (alertIds g) w Hrows)
      as [-> Hrows'].
    cbn [fst snd]. split; [reflexivity |]. split; [reflexivity |].
    intros j b. cbn [engine store].
    rewrite (proj1 (reschedule_rules _ _ _)). apply Hrows'.
Qed.

(** ** Repeat notifications (CommonJS engine, JSON store) *)





(** ** Cooldown across ticks *)

Lemma put_alert_same (i : string) (a : AlertWithState) (e : Engine) :
  alertsById e !! i = Some a → put_alert i a e = e.
Proof.
  intros Ha. destruct e as [byId syms gs]. unfold put_alert. simpl in *.
  now rewrite (insert_id _ _ _ Ha).
Qed.

Lemma with_state_same (a : AlertWithState) : with_state (_lastState a) a = a.
Proof. destruct a. reflexivity. Qed.

Lemma in_cooldown_after_trigger now1 now2 st a :
  now1 ≠ 0 → now2 - now1 < cooldown_sec (alert a) →
  in_cooldown (with_last_triggered_at now1 (with_state st a)) now2 = true.
Proof.
  intros Hne Hlt. unfold in_cooldown, Js.truthy_int. simpl.
  destruct (Z.eqb_spec now1 0); [contradiction |].
  destruct (Z.ltb_spec (now2 - now1) (cooldown_sec (alert a))); [reflexivity | lia].
Qed.

(** X11.  After a tick at [now1] in which a rule triggered, a tick of the
    same rule less than [cooldown_sec] seconds later creates no event and
    pushes no task, and leaves the indexes as they are, whatever the
    price: its only effect is one [updateAlert] that writes the unchanged
    evaluator state.  Both engines, any store. *)
Theorem no_second_trigger_within_cooldown (F : Js.NumberFormat) {S : Type}
  (St : RuleStore S) (now1 now2 : Z) (p1 p2 : float) (w : World S) (i : string)
  (a : AlertWithState) :
  alertsById (engine w) !! i = Some a →
  is_enabled (alert a) = true →
  now1 ≠ 0 →
  now2 - now1 < cooldown_sec (alert a) →
  (triggered (MonitorEngineTs.shouldTrigger a now1 p1).1 = true →
   let w1 := TickTs.tick_alert now1 p1 w i in
   let w2 := TickTs.tick_alert now2 p2 w1 i in
   engine w2 = engine w1 ∧ outbox w2 = outbox w1
   ∧ store w2
     = updateAlert (id (alert a)) (mkAlertUpdate None (Some (_lastState a))) (store w1))
  ∧ (triggered (MonitorEngineCjs.shouldTrigger a now1 p1).1 = true →
     let w1 := TickCjs.tick_alert now1 p1 w i in
     let w2 := TickCjs.tick_alert now2 p2 w1 i in
     engine w2 = engine w1 ∧ outbox w2 = outbox w1
     ∧ store w2
       = updateAlert (id (alert a)) (mkAlertUpdate None (Some (_lastState a)))
           (store w1)).
Proof.
  intros Ha Hon Hne Hlt.
  destruct (tick_alert_object F St now1 p1 w i a Ha Hon) as [Hts Hcjs].
  destruct (trigger_leaves_state F a now1 p1) as [Lts Lcjs].
  split; intros Htrig w1 w2.
  - specialize (Lts Htrig). unfold after_evaluation in Hts. rewrite Htrig, Lts in Hts.
    fold w1 in Hts.
    assert (Hw2 : w2 = mkWorld (engine w1)
                         (updateAlert (id (alert a))
                            (mkAlertUpdate None (Some (_lastState a))) (store w1))
                         (outbox w1)).
    { subst w2. unfold TickTs.tick_alert, TickTs.tick_alert_run. rewrite Hts.
      cbn [alert with_last_triggered_at with_state is_enabled]. rewrite Hon.
      cbn [negb]. unfold MonitorEngineTs.shouldTrigger.
      rewrite (in_cooldown_after_trigger now1 now2 (_lastState a) a Hne Hlt).
      cbn [triggered fst snd _lastState with_last_triggered_at with_state alert id].
      f_equal. rewrite with_state_same. apply put_alert_same, Hts. }
    rewrite Hw2. repeat split.
  - specialize (Lcjs Htrig). unfold after_evaluation in Hcjs. rewrite Htrig, Lcjs in Hcjs.
    fold w1 in Hcjs.
    assert (Hw2 : w2 = mkWorld (engine w1)
                         (updateAlert (id (alert a))
                            (mkAlertUpdate None (Some (_lastState a))) (store w1))
                         (outbox w1)).
    { subst w2. unfold TickCjs.tick_alert, TickCjs.tick_alert_run. rewrite Hcjs.
      cbn [alert with_last_triggered_at with_state is_enabled]. rewrite Hon.
      cbn [negb]. unfold MonitorEngineCjs.shouldTrigger.
      rewrite (in_cooldown_after_trigger now1 now2 (_lastState a) a Hne Hlt).
      cbn [triggered fst snd _lastState with_last_triggered_at with_state alert id].
      f_equal. rewrite with_state_same. apply put_alert_same, Hcjs. }
    rewrite Hw2. repeat split.
Qed.

Lemma no_second_trigger_within_cooldown_witness :
  let w := single_rule_world 995 price_gte_50000 in
  let w1 := TickTs.tick_alert (fmt := plain_format) 1000 50100%float w "r1" in
  let w2 := TickTs.tick_alert (fmt := plain_format) 1005 50200%float w1 "r1" in
  length (outbox w1) = 1%nat ∧ outbox w2 = outbox w1
  ∧ events_table (store w2) = events_table (store w1).
Proof.
  intros w w1 w2.
  destruct (no_second_trigger_within_cooldown plain_format sqlite_store 1000 1005
              50100%float 50200%float w "r1" (index_entry no_telegram price_gte_50000))
    as [Hts _].
  - vm_compute. reflexivity.
  - reflexivity.
  - discriminate.
  - reflexivity.
  - destruct Hts as (_ & Hout & Hstore); [vm_compute; reflexivity |].
    split; [vm_compute; reflexivity |]. split; [exact Hout |].
    fold w1 w2 in Hstore. rewrite Hstore. apply sqlite_updateAlert_events.
Defined.

(** ** What a tick persists *)

Lemma tick_alert_evaluated_as (F : Js.NumberFormat) now p (w : World SqliteStore) i :
  evaluated_as now i w (TickTs.tick_alert now p w i).
Proof.
  unfold TickTs.tick_alert, TickTs.tick_alert_run.
  destruct (alertsById (engine w) !! i) as [a|] eqn:Ha.
  - destruct (is_enabled (alert a)) eqn:Hon; cbn [negb].
    + right. exists a, (MonitorEngineTs.shouldTrigger a now p).
      destruct (MonitorEngineTs.shouldTrigger a now p) as [r st].
      unfold after_evaluation. cbn [fst snd]. cbv zeta.
      destruct (triggered r).
      * cbn [createAlertEvent updateAlert sqlite_store].
        unfold sqlite_createAlertEvent. case_bool_decide;
          cbn [fst engine store alerts_table]; repeat split; auto.
      * cbn [fst engine store updateAlert sqlite_store]. repeat split; auto.
    + left. cbn [fst]. split; [reflexivity |]. split; [reflexivity |].
      intros b Hb. congruence.
  - left. cbn [fst]. split; [reflexivity |]. split; [reflexivity |].
    intros b Hb. congruence.
Qed.






(** ** The queue drains *)

Lemma drain_to_idle ts : ∀ c log,
  run (replicate (S (length ts)) (Settled 0))
    (mkQueueState (mkNotifyQueue ts true) [c] log)
  = Some (mkQueueState (mkNotifyQueue [] false) [] (log ++ ts)%list).
Proof.
  induction ts as [|t ts IH]; intros c log.
  - simpl. now rewrite app_nil_r.
  - change (run (replicate (S (length (t :: ts))) (Settled 0))
              (mkQueueState (mkNotifyQueue (t :: ts) true) [c] log))
      with (run (replicate (S (length ts)) (Settled 0))
              (mkQueueState (mkNotifyQueue ts true) [t] (log ++ [t])%list)).
    rewrite IH. now rewrite <- app_assoc.
Qed.

(** X13.  From every state the queue reaches, once the task in flight and
    the tasks still queued have completed (one completion for each), the
    queue is idle: [isProcessing] is false again, nothing is queued, no
    run of [processQueue] is left, and the tasks handed to [processTask]
    are exactly the tasks pushed, in push order.  The next push then
    starts its task at once. *)
Theorem queue_drains_to_idle (evs : list QueueEvent) (st : QueueState) :
  run evs initial = Some st →
  let idle := mkQueueState (mkNotifyQueue [] false) [] (enqueued evs) in
  run (replicate (length (consumers st) + length (tasks (notifyQueue st))) (Settled 0)) st
  = Some idle
  ∧ ∀ task, pushToNotifyQueue task idle
            = mkQueueState (mkNotifyQueue [] true) [task] (enqueued evs ++ [task])%list.
Proof.
  intros Hrun idle. split; [| reflexivity].
  destruct (run_one_consumer evs initial st one_consumer_initial Hrun) as [Hinv Hlog].
  simpl in Hlog. subst idle. rewrite <- Hlog.
  destruct st as [[ts ip] cs log]. unfold one_consumer in Hinv. simpl in *.
  destruct Hinv as [[-> [c ->]] | [-> [-> ->]]].
  - apply drain_to_idle.
  - simpl. now rewrite app_nil_r.
Qed.

Lemma queue_drains_to_idle_witness :
  let t2 := mkNotifyTask 2 "r2" "ETHUSDT" "price_lte" 1000%float 990%float
              "price_lte: 990 <= 1000" 1006 no_telegram in
  let busy := mkQueueState (mkNotifyQueue [t2; sample_task] true) [sample_task]
                [sample_task] in
  run [Enqueue sample_task; Enqueue t2; Enqueue sample_task] initial = Some busy
  ∧ run [Settled 0; Settled 0; Settled 0] busy
    = Some (mkQueueState (mkNotifyQueue [] false) [] [sample_task; t2; sample_task]).
Proof.
  intros t2 busy.
  assert (Hrun : run [Enqueue sample_task; Enqueue t2; Enqueue sample_task] initial
                 = Some busy) by reflexivity.
  split; [exact Hrun |].
  exact (proj1 (queue_drains_to_idle _ _ Hrun)).
Defined.

(** ** Delivery through Telegram *)

Lemma processTask_all_fail {S : Type} {St : RuleStore S} (sink : nat → SendOutcome)
  (msg : string) (t0 t1 : Z) (task : NotifyTask) (lastSendTime : Z) (s : S) :
  (∀ n, ∃ e, sink n = SendFailed e ∧ error_text e = msg) →
  processTask sink t0 t1 task lastSendTime s
  = Some (three_failed_attempts (rate_limit_pause t0 lastSendTime), t1,
          updateAlertEventStatus (eventId task) "failed" (Some msg) s).
Proof.
  intros Hsink. unfold processTask. cbn [retry_loop MAX_RETRIES Nat.ltb Nat.leb].
  destruct (Hsink 1%nat) as (e1 & -> & _).
  destruct (Hsink 2%nat) as (e2 & -> & _).
  destruct (Hsink 3%nat) as (e3 & -> & ->).
  reflexivity.
Qed.

Lemma truthy_string_unset (v : option string) : unset v → truthy_string v = false.
Proof. now intros [-> | ->]. Qed.

(** X14.  TypeScript worker.  While the settings table has no bot token or
    no chat id, or an empty one, delivering a task issues no HTTP request
    at all, whatever the task: each of the three attempts fails at once,
    the worker still sleeps 1 s and 3 s between them, and the event ends
    [failed] with the message
    [Telegram not configured: missing bot_token or chat_id]. *)
Theorem unconfigured_bot_fails_without_request (F : Js.NumberFormat) (L : Locale)
  {S : Type} (St : RuleStore S) (settings : gmap string string)
  (post : nat → Http.Post → Http.Outcome) (t0 t1 : Z) (task : NotifyTask)
  (lastSendTime : Z) (s : S) :
  unset (settings !! "telegram.bot_token") ∨ unset (settings !! "telegram.chat_id") →
  let attempt n := NotifyTs.sendTelegramNotification settings (post n) task in
  processTask (λ n, (attempt n).1) t0 t1 task lastSendTime s
  = Some (three_failed_attempts (rate_limit_pause t0 lastSendTime), t1,
          updateAlertEventStatus (eventId task) "failed"
            (Some "Telegram not configured: missing bot_token or chat_id") s)
  ∧ ∀ n, (attempt n).2 = [].
Proof.
  intros Hunset attempt.
  assert (Hfail : ∀ n, attempt n
            = (SendFailed
                 (new_Error "Telegram not configured: missing bot_token or chat_id"), [])).
  { intros n. unfold attempt, NotifyTs.sendTelegramNotification.
    destruct Hunset as [H | H]; rewrite (truthy_string_unset _ H); simpl;
      [reflexivity | now rewrite orb_true_r]. }
  split.
  - apply processTask_all_fail. intros n. rewrite Hfail. eexists. split; reflexivity.
  - intros n. now rewrite Hfail.
Qed.

Lemma unconfigured_bot_fails_without_request_witness :
  let settings : gmap string string := {[ "telegram.bot_token" := "123:abc" ]} in
  let s := mkSqliteStore [] [queued_event] in
  ∃ s', processTask
          (λ n, (NotifyTs.sendTelegramNotification (fmt := plain_format)
                   (loc := plain_locale) settings
                   (λ _, Http.Replies (Http.mkReply true None)) sample_task).1)
          2000 2000 sample_task 0 s
        = Some ([Send 1; Sleep 1000; Send 2; Sleep 3000; Send 3], 2000, s')
        ∧ event_row 1 (events_table s')
          = Some (with_status "failed"
                    (Some "Telegram not configured: missing bot_token or chat_id")
                    queued_event).
Proof.
  intros settings s.
  destruct (unconfigured_bot_fails_without_request plain_format plain_locale
              sqlite_store settings (λ _ _, Http.Replies (Http.mkReply true None))
              2000 2000 sample_task 0 s) as [Hrun _].
  - right. left. reflexivity.
  - eexists. split; [exact Hrun | reflexivity].
Defined.

(** ** Telegram settings across a rebuild (CommonJS server) *)

Lemma enabled_rows_by_user_spec (d : JsonDb.Data) (row : Telegram * Alert) :
  row ∈ JsonDb.enabled_rows_by_user d →
  row.1 = no_telegram ∧ row.2 ∈ JsonDb.alerts d ∧ is_enabled row.2 = true
  ∧ ∃ u, u ∈ JsonDb.users d ∧ user_id row.2 = Some (JsonDb.u_id u).
Proof.
  unfold JsonDb.enabled_rows_by_user, JsonDb.getAllUsers, JsonDb.getEnabledAlertsByUser.
  intros Hrow. apply list_elem_of_bind in Hrow as (pub & Hrow & Hpub).
  apply list_elem_of_fmap in Hpub as (u & -> & Hu).
  apply list_elem_of_fmap in Hrow as (a & -> & Ha).
  apply list_elem_of_filter in Ha as [[Huid Hon] Ha]. simpl in *.
  split; [reflexivity |]. split; [exact Ha |]. split; [exact Hon |].
  exists u. split; [exact Hu | exact Huid].
Qed.

Lemma rebuild_telegram (tg : Telegram) (now : Z) (rows : list (Telegram * Alert)) :
  (∀ row, row ∈ rows → row.1 = tg) →
  ∀ i a, alertsById (rebuildFromDb now rows) !! i = Some a → _telegram a = tg.
Proof.
  unfold rebuildFromDb.
  assert (Hgen : ∀ e,
            (∀ i a, alertsById e !! i = Some a → _telegram a = tg) →
            (∀ row, row ∈ rows → row.1 = tg) →
            ∀ i a, alertsById (foldl (index_alert now) e rows) !! i = Some a →
                   _telegram a = tg).
  { induction rows as [|row rows IH]; intros e He Hrows; simpl; [exact He |].
    apply IH.
    - intros i a. unfold index_alert. simpl.
      destruct (decide (id row.2 = i)) as [<- | Hne].
      + rewrite lookup_insert_eq. intros [= <-]. simpl. apply Hrows. left.
      + rewrite lookup_insert_ne by exact Hne. apply He.
    - intros r Hr. apply Hrows. now right. }
  intros Hrows. apply Hgen; [| exact Hrows].
  intros i a. simpl. now rewrite lookup_empty.
Qed.

Lemma tick_alert_cjs_all_carry (F : Js.NumberFormat) {S : Type} (St : RuleStore S)
  (tg : Telegram) (now : Z) (p : float) (w : World S) (i : string) :
  all_carry tg w → all_carry tg (TickCjs.tick_alert now p w i).
Proof.
  intros [Hidx Hout]. unfold TickCjs.tick_alert, TickCjs.tick_alert_run.
  destruct (alertsById (engine w) !! i) as [a|] eqn:Ha; [| now split].
  destruct (is_enabled (alert a)); simpl; [| now split].
  destruct (MonitorEngineCjs.shouldTrigger a now p) as [res st].
  pose proof (Hidx _ _ Ha) as Htg.
  assert (Hput : ∀ a', _telegram a' = tg →
            ∀ j b, alertsById (put_alert i a' (engine w)) !! j = Some b →
                   _telegram b = tg).
  { intros a' Ha' j b. unfold put_alert. cbn [alertsById].
    destruct (decide (i = j)) as [<- | Hne].
    - rewrite lookup_insert_eq. now intros [= <-].
    - rewrite lookup_insert_ne by exact Hne. apply Hidx. }
  destruct (triggered res).
  - destruct (createAlertEvent _ _) as [[evId s2]|]; split; cbn [fst engine outbox].
    + now apply Hput.
    + intros dt Hdt. apply elem_of_app in Hdt as [Hdt | Hdt]; [now apply Hout |].
      unfold TickCjs.repeat_tasks in Hdt.
      apply list_elem_of_fmap in Hdt as (k & -> & _). exact Htg.
    + now apply Hput.
    + exact Hout.
  - split; cbn [fst engine outbox]; [now apply Hput | exact Hout].
Qed.

Lemma tick_alerts_cjs_all_carry (F : Js.NumberFormat) {S : Type} (St : RuleStore S)
  (tg : Telegram) (now : Z) (p : float) (ids : list string) :
  ∀ w : World S, all_carry tg w → all_carry tg (TickCjs.tick_alerts now p ids w).1.
Proof.
  induction ids as [|i ids IH]; intros w Hw; cbn [TickCjs.tick_alerts]; [exact Hw |].
  pose proof (tick_alert_cjs_all_carry F St tg now p w i Hw) as Hone.
  unfold TickCjs.tick_alert in Hone.
  destruct (TickCjs.tick_alert_run now p w i) as [w1 threw]. cbn [fst] in Hone.
  destruct threw; [exact Hone | now apply IH].
Qed.

Lemma after_ticks_cjs_all_carry (F : Js.NumberFormat) {S : Type} (St : RuleStore S)
  (tg : Telegram) (ticks : list (Z * option PriceResult * AlertGroup)) :
  ∀ w : World S, all_carry tg w → all_carry tg (after_ticks_cjs ticks w).
Proof.
  unfold after_ticks_cjs.
  induction ticks as [|[[now fetched] g] ticks IH]; intros w Hw; simpl; [exact Hw |].
  apply IH. unfold TickCjs.executeGroupTick.
  destruct fetched as [pr|]; cbn [snd]; [| exact Hw].
  pose proof (tick_alerts_cjs_all_carry F St tg now (price pr) (alertIds g) w Hw) as Hloop.
  destruct (TickCjs.tick_alerts now (price pr) (alertIds g) w) as [w1 threw].
  cbn [fst] in Hloop. destruct threw; cbn [snd]; [exact Hloop |].
  destruct Hloop as [Hidx Hout]. split; cbn [engine outbox]; [| exact Hout].
  rewrite (proj1 (reschedule_rules _ _ _)). exact Hidx.
Qed.

Lemma cjs_send_unconfigured (F : Js.NumberFormat) (L : Locale)
  (post : Http.Post → Http.Outcome) (task : NotifyTask) :
  nt_telegram task = no_telegram →
  NotifyCjs.sendTelegramNotification post task
  = (SendFailed (new_Error "Telegram not configured"), []).
Proof.
  intros Htg. unfold NotifyCjs.sendTelegramNotification. now rewrite Htg.
Qed.

(** X15.  CommonJS server.  [rebuildFromDb] reads the users through
    [getAllUsers], whose objects have no [telegram] property, so every
    rule it indexes is bound to empty Telegram settings, whatever its
    owner has configured.  Hence for every task that any sequence of
    group ticks pushes after a rebuild, delivery issues no HTTP request
    and ends, after three attempts, with the event [failed] and the
    message [Telegram not configured]. *)
Theorem cjs_rebuild_drops_telegram_settings (F : Js.NumberFormat) (L : Locale)
  {S : Type} (St : RuleStore S) (d : JsonDb.Data) (now0 : Z) (s : S)
  (ticks : list (Z * option PriceResult * AlertGroup))
  (post : nat → Http.Post → Http.Outcome) (t0 t1 lastSendTime : Z) (s' : S)
  (delay : Z) (task : NotifyTask) :
  let w := mkWorld (rebuildFromDb now0 (JsonDb.enabled_rows_by_user d)) s [] in
  (delay, task) ∈ outbox (after_ticks_cjs ticks w) →
  let attempt n := NotifyCjs.sendTelegramNotification (post n) task in
  processTask (λ n, (attempt n).1) t0 t1 task lastSendTime s'
  = Some (three_failed_attempts (rate_limit_pause t0 lastSendTime), t1,
          updateAlertEventStatus (eventId task) "failed"
            (Some "Telegram not configured") s')
  ∧ ∀ n, (attempt n).2 = [].
Proof.
  intros w Hin attempt.
  assert (Hw : all_carry no_telegram w).
  { split; simpl.
    - apply rebuild_telegram. intros row Hrow.
      now destruct (enabled_rows_by_user_spec d row Hrow).
    - intros dt Hdt. now apply elem_of_nil in Hdt. }
  destruct (after_ticks_cjs_all_carry F St no_telegram ticks w Hw) as [_ Hout].
  pose proof (Hout _ Hin) as Htg. simpl in Htg.
  assert (Hfail : ∀ n, attempt n = (SendFailed (new_Error "Telegram not configured"), [])).
  { intros n. now apply cjs_send_unconfigured. }
  split.
  - apply processTask_all_fail. intros n. rewrite Hfail. eexists. split; reflexivity.
  - intros n. now rewrite Hfail.
Qed.

Lemma cjs_rebuild_drops_telegram_settings_witness :
  let w := mkWorld (rebuildFromDb 995 (JsonDb.enabled_rows_by_user one_user_data))
             (mkSqliteStore [price_gte_times None] []) [] in
  let w' := after_ticks_cjs (F := plain_format)
              [(1000, Some (mkPriceResult 50100%float 1000),
                mkAlertGroup "BTCUSDT" 5 ["r9"] 1000)] w in
  let task := mkNotifyTask 1 "r9" "BTCUSDT" "price_gte" 50000%float 50100%float
                "price_gte: 50100 >= 50000 (1/1)" 1000 no_telegram in
  JsonDb.owner_telegram (price_gte_times None) one_user_data
  = mkTelegram (Some "123:abc") (Some "42")
  ∧ outbox w' = [(0, task)]
  ∧ processTask
      (λ n, (NotifyCjs.sendTelegramNotification (fmt := plain_format)
               (loc := plain_locale)
               (λ _, Http.Replies (Http.mkReply true None)) task).1)
      2000 2000 task 0 (store w')
    = Some ([Send 1; Sleep 1000; Send 2; Sleep 3000; Send 3], 2000,
            updateAlertEventStatus 1 "failed" (Some "Telegram not configured")
              (store w')).
Proof.
  intros w w' task.
  assert (Hout : outbox w' = [(0, task)]) by (vm_compute; reflexivity).
  split; [vm_compute; reflexivity |]. split; [exact Hout |].
  refine (proj1 (cjs_rebuild_drops_telegram_settings plain_format plain_locale
                   sqlite_store one_user_data 995
                   (mkSqliteStore [price_gte_times None] [])
                   [(1000, Some (mkPriceResult 50100%float 1000),
                     mkAlertGroup "BTCUSDT" 5 ["r9"] 1000)]
                   (λ _ _, Http.Replies (Http.mkReply true None))
                   2000 2000 0 (store w') 0 task _)).
  fold w. fold w'. rewrite Hout. left.
Defined.

(** ** Price source *)

Import PriceSource.

Lemma getSpotPrice_cache_ok (up : string → string) (now : Z) (sym : string)
  (http : HttpGet) (c : Cache) :
  cache_ok c → cache_ok (getSpotPrice up now sym http c).1.2.
Proof.
  intros Hc. unfold getSpotPrice.
  destruct (match priceCache c !! up sym with
            | Some r => match cacheTimeout c !! up sym with
                        | Some expire =>
                            if Js.truthy_int expire && (now <? expire)
                            then Some r else None
                        | None => None
                        end
            | None => None
            end) as [r|]; [exact Hc |].
  destruct http as [e | p]; [destruct (priceCache c !! up sym); exact Hc |].
  simpl. intros k r e. simpl.
  destruct (decide (up sym = k)) as [<- | Hne].
  - rewrite !lookup_insert_eq. intros [= <-] [= <-]. simpl.
    f_equal. unfold CACHE_TTL_MS. lia.
  - rewrite !lookup_insert_ne by exact Hne. apply Hc.
Qed.

Lemma after_calls_cache_ok (up : string → string) (calls : list Call) :
  cache_ok (after_calls up calls).
Proof.
  unfold after_calls.
  assert (Hgen : ∀ c, cache_ok c →
            cache_ok (foldl (λ c call,
                        (getSpotPrice up (at_ms call) (for_symbol call)
                           (network call) c).1.2) c calls)).
  { induction calls as [|call calls IH]; intros c Hc; simpl; [exact Hc |].
    apply IH. now apply getSpotPrice_cache_ok. }
  apply Hgen. intros k r e. simpl. now rewrite lookup_empty.
Qed.

(** X16.  Whenever the exchange answers, the price [getSpotPrice] returns
    is at most one second behind the clock: its [price_ts] is at least
    [floor(now / 1000) - 1].  It is either the price just fetched, stamped
    [floor(now / 1000)], or a cached one returned without any request.
    This holds after any history of calls since the cache was last
    cleared. *)
Theorem answered_price_is_fresh (up : string → string) (calls : list Call)
  (now : Z) (sym : string) (p : float) :
  ∃ r c' reqs,
    getSpotPrice up now sym (GetReturns p) (after_calls up calls) = (Resolved r, c', reqs)
    ∧ now / 1000 - 1 ≤ price_ts r
    ∧ ((r = mkPriceResult p (now / 1000) ∧ reqs = [up sym])
       ∨ (priceCache (after_calls up calls) !! up sym = Some r ∧ reqs = []
          ∧ c' = after_calls up calls)).
Proof.
  pose proof (after_calls_cache_ok up calls) as Hok.
  generalize dependent (after_calls up calls). intros c Hok.
  unfold getSpotPrice.
  destruct (priceCache c !! up sym) as [r|] eqn:Hr;
    [destruct (cacheTimeout c !! up sym) as [e|] eqn:He;
     [destruct (Js.truthy_int e && (now <? e)) eqn:Hfresh |] |].
  - eexists _, _, _. split; [reflexivity |]. split; [| right; now repeat split].
    apply andb_true_iff in Hfresh as [_ Hlt%Z.ltb_lt].
    rewrite (Hok _ _ _ Hr He). unfold CACHE_TTL_MS.
    replace (e - 1000) with (e + (-1) * 1000) by lia.
    rewrite Z.div_add by lia.
    assert (now / 1000 ≤ e / 1000) by (apply Z.div_le_mono; lia). lia.
  - eexists _, _, _. split; [reflexivity |]. split; [simpl; lia | left; now split].
  - eexists _, _, _. split; [reflexivity |]. split; [simpl; lia | left; now split].
  - eexists _, _, _. split; [reflexivity |]. split; [simpl; lia | left; now split].
Qed.

Lemma getSpotPrice_keeps_entries (up : string → string) (now : Z) (sym : string)
  (http : HttpGet) (c : Cache) (k : string) :
  is_Some (priceCache c !! k) →
  is_Some (priceCache (getSpotPrice up now sym http c).1.2 !! k).
Proof.
  intros Hk. unfold getSpotPrice.
  destruct (match priceCache c !! up sym with
            | Some r => match cacheTimeout c !! up sym with
                        | Some expire =>
                            if Js.truthy_int expire && (now <? expire)
                            then Some r else None
                        | None => None
                        end
            | None => None
            end) as [r|]; [exact Hk |].
  destruct http as [e | p]; [destruct (priceCache c !! up sym); exact Hk |].
  simpl. destruct (decide (up sym = k)) as [<- | Hne].
  - rewrite lookup_insert_eq. now eexists.
  - now rewrite lookup_insert_ne.
Qed.

Lemma getSpotPrice_answered_entry (up : string → string) (now : Z) (sym : string)
  (p : float) (c : Cache) :
  is_Some (priceCache (getSpotPrice up now sym (GetReturns p) c).1.2 !! up sym).
Proof.
  unfold getSpotPrice.
  destruct (priceCache c !! up sym) as [r|] eqn:Hr;
    [destruct (cacheTimeout c !! up sym) as [e|];
     [destruct (Js.truthy_int e && (now <? e)) |] |]; simpl;
    rewrite ?lookup_insert_eq, ?Hr; now eexists.
Qed.

Lemma fold_calls_keeps_entries (up : string → string) (calls : list Call) (k : string) :
  ∀ c, is_Some (priceCache c !! k) →
       is_Some (priceCache
                  (foldl (λ c call,
                     (getSpotPrice up (at_ms call) (for_symbol call)
                        (network call) c).1.2) c calls) !! k).
Proof.
  induction calls as [|call calls IH]; intros c Hc; simpl; [exact Hc |].
  apply IH. now apply getSpotPrice_keeps_entries.
Qed.

(** X17.  Once the exchange has answered a call for a symbol, no later
    call for that symbol (in any letter case) is rejected until the cache
    is cleared: when the request throws, [getSpotPrice] resolves with the
    cached price, however old it is, and leaves the cache as it is; so
    the group tick that awaits it evaluates its rules against the old
    price instead of taking its error path. *)
Theorem failed_fetch_serves_cached_price (up : string → string)
  (before after : list Call) (t now : Z) (sym sym' : string) (p : float)
  (e : JsError) :
  up sym' = up sym →
  let c := after_calls up (before ++ mkCall t sym (GetReturns p) :: after) in
  ∃ r reqs,
    priceCache c !! up sym = Some r
    ∧ getSpotPrice up now sym' (GetThrows e) c = (Resolved r, c, reqs)
    ∧ fetched (getSpotPrice up now sym' (GetThrows e) c).1.1 = Some r.
Proof.
  intros Hkey c.
  assert (Hentry : is_Some (priceCache c !! up sym)).
  { subst c. unfold after_calls. rewrite foldl_app. simpl.
    apply fold_calls_keeps_entries, getSpotPrice_answered_entry. }
  destruct Hentry as [r Hr]. generalize dependent c. intros c Hr.
  unfold getSpotPrice. rewrite Hkey, Hr.
  destruct (cacheTimeout c !! up sym) as [ex|];
    [destruct (Js.truthy_int ex && (now <? ex)) |];
    eexists _, _; (split; [reflexivity |]); split; reflexivity.
Qed.

Lemma failed_fetch_serves_cached_price_witness :
  let c := after_calls ascii_upper [mkCall 0 "btcusdt" (GetReturns 50000%float)] in
  getSpotPrice ascii_upper 86400000 "BTCUSDT" (GetThrows (new_Error "timeout")) c
  = (Resolved (mkPriceResult 50000%float 0), c, ["BTCUSDT"])
  ∧ ∃ e, getSpotPrice ascii_upper 86400000 "ETHUSDT" (GetThrows (new_Error "timeout")) c
         = (Rejected e, c, ["ETHUSDT"])
         ∧ error_text e = "Failed to fetch price for ETHUSDT: timeout".
Proof.
  intros c. split.
  - destruct (failed_fetch_serves_cached_price ascii_upper [] [] 0 86400000
                "btcusdt" "BTCUSDT" 50000%float (new_Error "timeout") eq_refl)
      as (r & reqs & Hr & Hget & _).
    change (after_calls _ _) with c in Hr, Hget. rewrite Hget.
    assert (Hc : priceCache c !! "BTCUSDT" = Some (mkPriceResult 50000%float 0))
      by (vm_compute; reflexivity).
    change (ascii_upper "btcusdt") with "BTCUSDT" in Hr.
    rewrite Hc in Hr. injection Hr as <-.
    assert (Hreqs : (getSpotPrice ascii_upper 86400000 "BTCUSDT"
                       (GetThrows (new_Error "timeout")) c).2 = ["BTCUSDT"])
      by (vm_compute; reflexivity).
    rewrite Hget in Hreqs. simpl in Hreqs. now rewrite Hreqs.
  - eexists. split; vm_compute; reflexivity.
Defined.

Lemma getSpotPrice_phases (up : string → string) (now : Z) (sym : string)
  (http : HttpGet) (c : Cache) :
  getSpotPrice up now sym http c
  = match getSpotPrice_begin up now sym c with
    | inl r => (Resolved r, c, [])
    | inr pending =>
        ((getSpotPrice_settle up pending http c).1,
         (getSpotPrice_settle up pending http c).2, [up sym])
    end.
Proof.
  unfold getSpotPrice, getSpotPrice_begin, getSpotPrice_settle.
  destruct (priceCache c !! up sym) as [r|];
    [destruct (cacheTimeout c !! up sym) as [e|];
     [destruct (Js.truthy_int e && (now <? e)) |] |];
    cbn [asked stale started]; destruct http; reflexivity.
Qed.

Lemma settle_keeps_other_keys (up : string → string) (q : Pending) (http : HttpGet)
  (c : Cache) (k : string) :
  up (asked q) ≠ k ∨ (∃ e, http = GetThrows e) →
  priceCache (getSpotPrice_settle up q http c).2 !! k = priceCache c !! k
  ∧ cacheTimeout (getSpotPrice_settle up q http c).2 !! k = cacheTimeout c !! k.
Proof.
  unfold getSpotPrice_settle. intros [Hne | [e ->]].
  - destruct http as [e | p]; [destruct (stale q); split; reflexivity |].
    cbn [snd priceCache cacheTimeout]. now rewrite !lookup_insert_ne.
  - destruct (stale q); split; reflexivity.
Qed.

(** X18.  The cache window, with calls that overlap.  When the request of
    a call that began at [t1] is answered, the price is cached under the
    upper-cased symbol with expiry [t1 + 1000]: the window counts from the
    beginning of the call, not from the answer.  From then on, and as long
    as no other request for that symbol is answered (requests for other
    symbols may be answered, and requests for this one may fail), a call
    for the symbol in any letter case that begins before [t1 + 1000] is
    served that price without a request, and a call that begins at
    [t1 + 1000] or later issues a request again, holding the cached price
    as its fallback.  Whether a call requests depends only on the cache
    when it begins: a call that begins while another call for its symbol
    is still waiting for the exchange requests too.  (A call that began
    at clock reading [-1000] never opens a window: its expiry [0] is
    falsy.) *)
Theorem cache_window (up : string → string) (c : Cache) (q : Pending) (p : float)
  (between : list (Pending * HttpGet)) (t2 : Z) (sym' : string) :
  up sym' = up (asked q) →
  started q + 1000 ≠ 0 →
  Forall (λ s, up (asked s.1) ≠ up (asked q) ∨ ∃ e, s.2 = GetThrows e) between →
  let r := mkPriceResult p (started q / 1000) in
  let c1 := (getSpotPrice_settle up q (GetReturns p) c).2 in
  let c2 := after_settling up between c1 in
  (getSpotPrice_settle up q (GetReturns p) c).1 = Resolved r
  ∧ getSpotPrice_begin up t2 sym' c2
    = (if t2 <? started q + 1000 then inl r else inr (mkPending t2 sym' (Some r)))
  ∧ (∀ t pending, getSpotPrice_begin up t sym' c = inr pending →
       started pending = t ∧ asked pending = sym'
       ∧ stale pending = priceCache c !! up sym').
Proof.
  intros Hkey Hnz Hbetween r c1 c2.
  assert (H1 : priceCache c1 !! up (asked q) = Some r
               ∧ cacheTimeout c1 !! up (asked q) = Some (started q + 1000)).
  { subst c1. unfold getSpotPrice_settle. cbn [snd priceCache cacheTimeout].
    now rewrite !lookup_insert_eq. }
  assert (H2 : priceCache c2 !! up (asked q) = Some r
               ∧ cacheTimeout c2 !! up (asked q) = Some (started q + 1000)).
  { subst c2. unfold after_settling. clearbody c1. revert c1 H1.
    induction Hbetween as [|s rest Hs _ IH]; intros c1 H1; [exact H1 |].
    cbn [foldl]. apply IH.
    destruct (settle_keeps_other_keys up s.1 s.2 c1 (up (asked q)) Hs) as [-> ->].
    exact H1. }
  split; [reflexivity |]. split.
  - unfold getSpotPrice_begin. rewrite Hkey. destruct H2 as [-> ->].
    unfold Js.truthy_int. destruct (Z.eqb_spec (started q + 1000) 0); [contradiction |].
    cbn [negb andb]. reflexivity.
  - intros t pending. unfold getSpotPrice_begin.
    destruct (priceCache c !! up sym') as [r0|];
      [destruct (cacheTimeout c !! up sym') as [e|];
       [destruct (Js.truthy_int e && (t <? e)) |] |];
      intros [= <-]; repeat split.
Qed.

(** Two calls for one symbol overlap: both request.  The first is
    answered, a request for another symbol is answered and the second
    fails; the price of the first is served until 6000. *)
Lemma cache_window_witness :
  let first := mkPending 5000 "btcusdt" None in
  let second := mkPending 5100 "BTCUSDT" None in
  let other := mkPending 5200 "ETHUSDT" None in
  let c2 :=
    after_settling ascii_upper
      [(other, GetReturns 3000%float); (second, GetThrows (new_Error "timeout"))]
      (getSpotPrice_settle ascii_upper first (GetReturns 50000%float) empty_cache).2 in
  getSpotPrice_begin ascii_upper 5000 "btcusdt" empty_cache = inr first
  ∧ getSpotPrice_begin ascii_upper 5100 "BTCUSDT" empty_cache = inr second
  ∧ getSpotPrice_begin ascii_upper 5999 "BTCUSDT" c2
    = inl (mkPriceResult 50000%float 5)
  ∧ getSpotPrice_begin ascii_upper 6000 "BTCUSDT" c2
    = inr (mkPending 6000 "BTCUSDT" (Some (mkPriceResult 50000%float 5))).
Proof.
  intros first second other c2.
  assert (Hbetween :
    Forall (λ s : Pending * HttpGet,
              ascii_upper (asked s.1) ≠ ascii_upper (asked first)
              ∨ ∃ e, s.2 = GetThrows e)
      [(other, GetReturns 3000%float); (second, GetThrows (new_Error "timeout"))]).
  { constructor; [left; vm_compute; discriminate |].
    constructor; [right; now eexists | constructor]. }
  split; [reflexivity |]. split; [reflexivity |].
  split.
  - destruct (cache_window ascii_upper empty_cache first 50000%float _ 5999 "BTCUSDT"
                eq_refl ltac:(discriminate) Hbetween) as (_ & Hserved & _).
    exact Hserved.
  - destruct (cache_window ascii_upper empty_cache first 50000%float _ 6000 "BTCUSDT"
                eq_refl ltac:(discriminate) Hbetween) as (_ & Hasked & _).
    exact Hasked.
Defined.

(** ** JSON store of the CommonJS server *)

(** X19.  [createAlertEvent] of the JSON store returns the id it stamped
    on the event, appends the event as the newest entry, and keeps the log
    at 2000 entries at most: the entries before the new one are the newest
    1999 of the old log, in their order.  Rules and users are untouched,
    and a missing or zero [triggered_at] is replaced by the clock. *)
Theorem json_event_log_is_bounded (stamp clock : Z) (ev : AlertEvent) (d : JsonDb.Data) :
  let r := JsonDb.createAlertEvent stamp clock ev d in
  let new := (stamp, JsonDb.with_triggered_at (Js.or_int (triggered_at ev) clock) ev) in
  r.1 = stamp
  ∧ JsonDb.events r.2
    = (drop (length (JsonDb.events d) + 1 - 2000) (JsonDb.events d) ++ [new])%list
  ∧ length (JsonDb.events r.2) = Nat.min (length (JsonDb.events d) + 1) 2000
  ∧ JsonDb.alerts r.2 = JsonDb.alerts d ∧ JsonDb.users r.2 = JsonDb.users d
  ∧ (triggered_at new.2 = 0 → clock = 0).
Proof.
  intros r new. subst r new. unfold JsonDb.createAlertEvent, JsonDb.MAX_EVENTS.
  cbn [fst snd JsonDb.events JsonDb.alerts JsonDb.users].
  set (evs := JsonDb.events d).
  set (new := (stamp, JsonDb.with_triggered_at (Js.or_int (triggered_at ev) clock) ev)).
  assert (Hkept : (if (2000 <? length (evs ++ [new]))%nat
                   then drop (length (evs ++ [new]) - 2000) (evs ++ [new])
                   else (evs ++ [new])%list)
                  = (drop (length evs + 1 - 2000) evs ++ [new])%list).
  { rewrite length_app. simpl.
    destruct (Nat.ltb_spec 2000 (length evs + 1)) as [Hlt | Hle].
    - rewrite drop_app_le by lia. reflexivity.
    - replace (length evs + 1 - 2000)%nat with 0%nat by lia. reflexivity. }
  rewrite Hkept. split; [reflexivity |]. split; [reflexivity |].
  split; [rewrite length_app, length_drop; simpl; lia |].
  split; [reflexivity |]. split; [reflexivity |].
  subst new. unfold Js.or_int, Js.truthy_int. simpl.
  destruct (Z.eqb_spec (triggered_at ev) 0); simpl; [tauto | contradiction].
Qed.

Lemma list_find_first {A : Type} (P : A → Prop) `{∀ x, Decision (P x)}
  (pre post : list A) (e : A) :
  (∀ x, x ∈ pre → ¬ P x) → P e →
  list_find P (pre ++ e :: post) = Some (length pre, e).
Proof.
  intros Hpre He. induction pre as [|x pre IH]; simpl.
  - now rewrite decide_True.
  - rewrite decide_False by (apply Hpre; left).
    rewrite IH by (intros y Hy; apply Hpre; now right). reflexivity.
Qed.

(** X20.  [updateAlertEventStatus] of the JSON store changes one event at
    most: the oldest one with the given id; later events with the same id
    (ids are a clock reading plus a random offset) keep their status.  It
    writes [error_message] only when given a non-empty message, so a
    [success] after a failure leaves the old message in place.  With no
    event of that id (for instance one the log has dropped) it changes
    nothing. *)
Theorem json_status_update_hits_first_match (i : Z) (status : string)
  (err : option string) (d : JsonDb.Data) :
  (∀ pre e post,
     JsonDb.events d = (pre ++ e :: post)%list →
     e.1 = i → (∀ x, x ∈ pre → x.1 ≠ i) →
     JsonDb.updateAlertEventStatus i status err d
     = JsonDb.mkData (JsonDb.users d) (JsonDb.alerts d)
         (pre ++ (i, with_status status
                       (if truthy_string err then err else error_message e.2) e.2)
              :: post)%list)
  ∧ ((∀ x, x ∈ JsonDb.events d → x.1 ≠ i) →
     JsonDb.updateAlertEventStatus i status err d = d).
Proof.
  split.
  - intros pre e post Hevs Hi Hpre. unfold JsonDb.updateAlertEventStatus.
    rewrite Hevs, (list_find_first (λ e, e.1 = i) pre post e Hpre Hi).
    rewrite Hi. f_equal.
    rewrite insert_app_r_alt by lia. now rewrite Nat.sub_diag.
  - intros Hnone. unfold JsonDb.updateAlertEventStatus.
    assert (Hfind : list_find (λ e, e.1 = i) (JsonDb.events d) = None).
    { apply list_find_None, Forall_forall. intros x Hx. now apply Hnone. }
    now rewrite Hfind.
Qed.

Lemma json_status_update_hits_first_match_witness :
  let failed := with_status "failed" (Some "timeout") queued_event in
  let d := JsonDb.mkData [] [] [(7, failed); (7, queued_event)] in
  JsonDb.events (JsonDb.updateAlertEventStatus 7 "success" None d)
  = [(7, with_status "success" (Some "timeout") queued_event); (7, queued_event)]
  ∧ JsonDb.updateAlertEventStatus 8 "success" None d = d.
Proof.
  intros failed d.
  destruct (json_status_update_hits_first_match 7 "success" None d) as [Hhit _].
  destruct (json_status_update_hits_first_match 8 "success" None d) as [_ Hmiss].
  split.
  - rewrite (Hhit [] (7, failed) [(7, queued_event)] eq_refl eq_refl).
    + reflexivity.
    + intros x Hx. now apply elem_of_nil in Hx.
  - apply Hmiss. intros x Hx.
    apply elem_of_cons in Hx as [-> | Hx]; [simpl; lia |].
    apply elem_of_cons in Hx as [-> | Hx]; [simpl; lia |].
    now apply elem_of_nil in Hx.
Defined.

(** ** Replies of the Bot API and pacing of deliveries *)

Lemma error_text_new_Error (c : ascii) (m : string) :
  error_text (new_Error (String c m)) = String c m.
Proof. reflexivity. Qed.

Lemma ts_send_configured (F : Js.NumberFormat) (L : Locale)
  (settings : gmap string string) (tok chat : string)
  (post : Http.Post → Http.Outcome) (task : NotifyTask) :
  settings !! "telegram.bot_token" = Some tok → tok ≠ "" →
  settings !! "telegram.chat_id" = Some chat → chat ≠ "" →
  NotifyTs.sendTelegramNotification settings post task
  = post_message post tok chat (NotifyTs.buildAlertMessage task).
Proof.
  intros Htok Hne1 Hchat Hne2. unfold NotifyTs.sendTelegramNotification.
  rewrite Htok, Hchat. simpl.
  destruct (String.eqb_spec tok ""); [contradiction |].
  destruct (String.eqb_spec chat ""); [contradiction |]. reflexivity.
Qed.

(** X21.  TypeScript worker with a configured bot.  Every attempt of a
    delivery posts one and the same request: to
    [https://api.telegram.org/bot<token>/sendMessage], with the configured
    chat id and the message built from the task.  A reply whose [ok] is
    falsy counts as a failed attempt; if all three replies are such, the
    event ends [failed] with the text [Telegram API error: ] followed by
    the description of the third reply ([undefined] if it has none). *)
Theorem rejected_by_telegram_is_reported (F : Js.NumberFormat) (L : Locale)
  {S : Type} (St : RuleStore S) (settings : gmap string string) (tok chat : string)
  (descr : nat → option string) (t0 t1 : Z) (task : NotifyTask)
  (lastSendTime : Z) (s : S) :
  settings !! "telegram.bot_token" = Some tok → tok ≠ "" →
  settings !! "telegram.chat_id" = Some chat → chat ≠ "" →
  let attempt n :=
    NotifyTs.sendTelegramNotification settings
      (λ _, Http.Replies (Http.mkReply false (descr n))) task in
  processTask (λ n, (attempt n).1) t0 t1 task lastSendTime s
  = Some (three_failed_attempts (rate_limit_pause t0 lastSendTime), t1,
          updateAlertEventStatus (eventId task) "failed"
            (Some ("Telegram API error: " +:+ interpolate (descr 3%nat))) s)
  ∧ ∀ n, (attempt n).2
         = [Http.mkPost ("https://api.telegram.org/bot" +:+ tok +:+ "/sendMessage")
              chat (NotifyTs.buildAlertMessage task)].
Proof.
  intros Htok Hne1 Hchat Hne2 attempt.
  assert (Hatt : ∀ n, attempt n
            = (SendFailed (new_Error ("Telegram API error: " +:+ interpolate (descr n))),
               [Http.mkPost (sendMessage_url tok) chat (NotifyTs.buildAlertMessage task)])).
  { intros n. unfold attempt.
    now rewrite (ts_send_configured F L settings tok chat _ task Htok Hne1 Hchat Hne2). }
  split; [| intros n; now rewrite Hatt].
  unfold processTask. cbn [retry_loop MAX_RETRIES Nat.ltb Nat.leb].
  rewrite !Hatt. reflexivity.
Qed.

Lemma rejected_by_telegram_is_reported_witness :
  let settings : gmap string string :=
    {[ "telegram.bot_token" := "123:abc"; "telegram.chat_id" := "42" ]} in
  let s := mkSqliteStore [] [queued_event] in
  ∃ s', processTask
          (λ n, (NotifyTs.sendTelegramNotification (fmt := plain_format)
                   (loc := plain_locale) settings
                   (λ _, Http.Replies (Http.mkReply false (Some "chat not found")))
                   sample_task).1)
          2000 2000 sample_task 0 s
        = Some ([Send 1; Sleep 1000; Send 2; Sleep 3000; Send 3], 2000, s')
        ∧ event_row 1 (events_table s')
          = Some (with_status "failed" (Some "Telegram API error: chat not found")
                    queued_event).
Proof.
  intros settings s.
  destruct (rejected_by_telegram_is_reported plain_format plain_locale sqlite_store
              settings "123:abc" "42" (λ _, Some "chat not found")
              2000 2000 sample_task 0 s) as [Hrun _];
    [reflexivity | discriminate | reflexivity | discriminate |].
  eexists. split; [exact Hrun | reflexivity].
Defined.

(** X22.  Pacing.  If the clock read after the rate-limit pause is not
    earlier than the pause asked for, the starts of two consecutive
    deliveries are at least 500 ms apart, whatever the sink does.  The
    pause is measured from the start of the previous delivery only: a
    delivery that begins 1000 ms or more after the previous one began,
    as every delivery after a retried one does, is not paused at all. *)
Theorem consecutive_deliveries_are_spaced {S : Type} (St : RuleStore S)
  (sink : nat → SendOutcome) (t0 t1 : Z) (task : NotifyTask) (lastSendTime : Z)
  (s : S) :
  t0 + slept (rate_limit_pause t0 lastSendTime) ≤ t1 →
  ∃ steps s',
    processTask sink t0 t1 task lastSendTime s
    = Some ((rate_limit_pause t0 lastSendTime ++ steps)%list, t1, s')
    ∧ RATE_LIMIT_DELAY ≤ t1 - lastSendTime
    ∧ (1000 ≤ slept steps → ∀ t0', t1 + slept steps ≤ t0' → rate_limit_pause t0' t1 = []).
Proof.
  intros Hclock.
  assert (Hgap : RATE_LIMIT_DELAY ≤ t1 - lastSendTime).
  { revert Hclock. unfold rate_limit_pause, RATE_LIMIT_DELAY.
    destruct (Z.ltb_spec (t0 - lastSendTime) 500); simpl; lia. }
  assert (Hnext : ∀ ms t0', 1000 ≤ ms → t1 + ms ≤ t0' → rate_limit_pause t0' t1 = []).
  { intros ms t0' Hms Hlater. unfold rate_limit_pause, RATE_LIMIT_DELAY.
    destruct (Z.ltb_spec (t0' - t1) 500); [lia | reflexivity]. }
  unfold processTask. cbn [retry_loop MAX_RETRIES Nat.ltb Nat.leb].
  destruct (sink 1%nat) as [|e1];
    [| destruct (sink 2%nat) as [|e2]; [| destruct (sink 3%nat) as [|e3]]];
    eexists _, _; (split; [reflexivity |]); (split; [exact Hgap |]);
    intros Hms t0' Hlater; eapply Hnext; eassumption.
Qed.

Lemma consecutive_deliveries_are_spaced_witness :
  ∃ steps s',
    processTask flaky_sink 2100 2500 sample_task 2000 (mkSqliteStore [] [queued_event])
    = Some ((Sleep 400 :: steps)%list, 2500, s')
    ∧ RATE_LIMIT_DELAY ≤ 2500 - 2000
    ∧ rate_limit_pause 6500 2500 = [].
Proof.
  destruct (consecutive_deliveries_are_spaced sqlite_store flaky_sink 2100 2500
              sample_task 2000 (mkSqliteStore [] [queued_event]))
    as (steps & s' & Hrun & Hgap & _).
  - vm_compute. discriminate.
  - exists steps, s'. split; [exact Hrun |]. split; [exact Hgap | reflexivity].
Defined.

(** ** The index follows the store *)

Lemma same_row_refl (r : Alert) : same_row r r.
Proof. repeat split. Qed.

Lemma rows_alike_fmap (f : Alert → Alert) (l : list Alert) :
  (∀ r, same_row r (f r)) → Forall2 same_row l (f <$> l).
Proof.
  intros Hf. induction l as [|r l IH]; simpl; constructor; [apply Hf | exact IH].
Qed.

Lemma rows_alike_ids (l l' : list Alert) :
  Forall2 same_row l l' → id <$> l' = id <$> l.
Proof.
  induction 1 as [|r r' l l' Hr _ IH]; [reflexivity |].
  rewrite !fmap_cons, IH. f_equal. apply Hr.
Qed.

Lemma unique_row (l : list Alert) (r1 r2 : Alert) :
  NoDup (id <$> l) → r1 ∈ l → r2 ∈ l → id r1 = id r2 → r1 = r2.
Proof.
  intros Hnd H1 H2 Hid.
  apply list_elem_of_lookup in H1 as [k1 H1].
  apply list_elem_of_lookup in H2 as [k2 H2].
  assert (Hk : k1 = k2).
  { apply (NoDup_lookup (id <$> l) k1 k2 (id r1)); [exact Hnd | |].
    - now rewrite list_lookup_fmap, H1.
    - now rewrite list_lookup_fmap, H2, Hid. }
  subst k2. congruence.
Qed.

Lemma getAlert_Some (i : string) (s : SqliteStore) (r : Alert) :
  AlertRoutes.getAlert i s = Some r → r ∈ alerts_table s ∧ id r = i.
Proof.
  unfold AlertRoutes.getAlert. intros Hfind.
  apply find_some in Hfind as [Hin Heq].
  split; [now apply list_elem_of_In | now apply String.eqb_eq].
Qed.

Lemma find_fmap_same_id (f : Alert → Alert) (i : string) (l : list Alert) :
  (∀ r, id (f r) = id r) →
  List.find (λ r, String.eqb (id r) i) (f <$> l)
  = f <$> List.find (λ r, String.eqb (id r) i) l.
Proof.
  intros Hf. induction l as [|r l IH]; [reflexivity |].
  simpl. rewrite Hf. destruct (String.eqb (id r) i); [reflexivity | exact IH].
Qed.

(** *** Rebuild *)

Lemma rebuild_lookup_Some now (rows : list (Telegram * Alert)) i aw : ∀ e,
  alertsById (foldl (index_alert now) e rows) !! i = Some aw →
  alertsById e !! i = Some aw
  ∨ ∃ row, row ∈ rows ∧ id row.2 = i ∧ aw = index_entry row.1 row.2.
Proof.
  induction rows as [|row rows IH]; intros e Hl; simpl in Hl; [now left |].
  destruct (IH _ Hl) as [Hhere | (r & Hr & Hid & Haw)].
  - unfold index_alert in Hhere. simpl in Hhere.
    apply lookup_insert_Some in Hhere as [[Hid <-] | [_ Hold]]; [| now left].
    right. exists row. split; [left | split; [exact Hid | reflexivity]].
  - right. exists r. split; [now right | split; assumption].
Qed.

Lemma rebuild_lookup_is_Some now (rows : list (Telegram * Alert)) k : ∀ e,
  is_Some (alertsById e !! k) ∨ (∃ row, row ∈ rows ∧ id row.2 = k) →
  is_Some (alertsById (foldl (index_alert now) e rows) !! k).
Proof.
  induction rows as [|row rows IH]; intros e Hk; simpl.
  - destruct Hk as [Hk | (r & Hr & _)]; [exact Hk | now apply elem_of_nil in Hr].
  - apply IH. unfold index_alert. simpl.
    destruct (decide (id row.2 = k)) as [<- | Hne].
    + left. rewrite lookup_insert_eq. now eexists.
    + rewrite lookup_insert_ne by exact Hne.
      destruct Hk as [Hk | (r & Hr & Hid)]; [now left |].
      apply elem_of_cons in Hr as [-> | Hr]; [contradiction |].
      right. exists r. now split.
Qed.

Lemma mirrors_rebuild now (s : SqliteStore) (out : list (Z * NotifyTask)) :
  NoDup (id <$> alerts_table s) →
  mirrors (mkWorld (rebuildFromDb now (getEnabledAlerts (alerts_table s))) s out).
Proof.
  intros Hnd. split; [exact Hnd |]. split; simpl.
  - intros i aw Hl. unfold rebuildFromDb in Hl.
    apply rebuild_lookup_Some in Hl as [Hl | (row & Hrow & Hid & ->)].
    { simpl in Hl. rewrite lookup_empty in Hl. discriminate. }
    unfold getEnabledAlerts in Hrow.
    apply list_elem_of_fmap in Hrow as (a & -> & Ha).
    apply list_elem_of_filter in Ha as [Hon Ha]. simpl in *.
    exists a. split; [exact Ha |]. split; [exact Hid |]. split; [exact Hon |].
    repeat split.
  - intros row Hrow Hon. unfold rebuildFromDb. apply rebuild_lookup_is_Some.
    right. exists (no_telegram, row). split; [| reflexivity].
    unfold getEnabledAlerts. apply list_elem_of_fmap. exists row.
    split; [reflexivity |]. apply list_elem_of_filter. now split.
Qed.

(** *** Ticks *)

Lemma mirrors_alike ids (w w' : World SqliteStore) :
  mirrors w → touches_only ids (engine w) (engine w') →
  Forall2 same_row (alerts_table (store w)) (alerts_table (store w')) →
  mirrors w'.
Proof.
  intros (Hnd & Hrow & Hidx) (_ & _ & Hby) Halike.
  split; [now rewrite (rows_alike_ids _ _ Halike) |]. split.
  - intros i aw' Hl'.
    destruct (alertsById (engine w) !! i) as [aw|] eqn:Hl.
    + destruct (proj2 (Hby i) aw Hl) as (a' & Ha' & Hsame & _).
      assert (a' = aw') by congruence. subst a'.
      destruct (Hrow i aw Hl) as (row & Hin & Hid & Hon & Hsame0).
      apply list_elem_of_lookup in Hin as [k Hk].
      destruct (Forall2_lookup_l _ _ _ _ _ Halike Hk) as (row' & Hk' & Hrr).
      exists row'. split; [now apply list_elem_of_lookup_2 in Hk' |].
      unfold same_row in Hrr. unfold same_rule in *. simpl in *.
      destruct Hrr as (? & ? & ? & ? & ? & ? & ? & ? & ?).
      destruct Hsame as (? & ? & ? & ? & ? & ? & ? & ? & ? & ?).
      destruct Hsame0 as (? & ? & ? & ? & ? & ? & ? & ? & ? & ?).
      repeat split; congruence.
    + rewrite (proj1 (Hby i) Hl) in Hl'. discriminate.
  - intros row' Hin' Hon'.
    apply list_elem_of_lookup in Hin' as [k Hk'].
    destruct (Forall2_lookup_r _ _ _ _ _ Halike Hk') as (row & Hk & Hrr).
    destruct Hrr as (Hid & _ & _ & _ & _ & _ & Hen & _).
    assert (His : is_Some (alertsById (engine w) !! id row)).
    { apply Hidx; [now apply list_elem_of_lookup_2 in Hk | congruence]. }
    destruct His as [aw Hl]. rewrite Hid.
    destruct (proj2 (Hby (id row)) aw Hl) as (a' & Ha' & _). now exists a'.
Qed.

Lemma tick_alert_ts_rows (F : Js.NumberFormat) now p (w : World SqliteStore) i :
  Forall2 same_row (alerts_table (store w))
    (alerts_table (store (TickTs.tick_alert now p w i))).
Proof.
  destruct (tick_alert_evaluated_as F now p w i)
    as [(_ & -> & _) | (a & r & _ & _ & _ & ->)].
  - apply Forall_Forall2_diag, Forall_forall. intros x _. apply same_row_refl.
  - apply rows_alike_fmap. intros row.
    destruct (String.eqb (id row) (id (alert a))); repeat split.
Qed.

Lemma mirrors_every_rule_has_a_row (w : World SqliteStore) :
  mirrors w → every_rule_has_a_row w.
Proof.
  intros (_ & Hrow & _) i aw Hl.
  destruct (Hrow i aw Hl) as (row & Hin & _ & _ & Hsame).
  destruct Hsame as (Hid & _). rewrite Hid. cbn.
  now apply list_elem_of_fmap_2.
Qed.

Lemma mirrors_tick_alerts (F : Js.NumberFormat) now p ids :
  ∀ w : World SqliteStore, mirrors w → mirrors (TickTs.tick_alerts now p ids w).1.
Proof.
  induction ids as [|i ids IH]; intros w Hw; cbn [TickTs.tick_alerts]; [exact Hw |].
  assert (Hone : mirrors (TickTs.tick_alert now p w i)).
  { apply (mirrors_alike [i] w); [exact Hw | |].
    - apply (tick_alert_touches_only F sqlite_store).
    - apply tick_alert_ts_rows. }
  unfold TickTs.tick_alert in Hone.
  destruct (TickTs.tick_alert_run now p w i) as [w1 threw]. cbn [fst] in Hone.
  destruct threw; [exact Hone | now apply IH].
Qed.

Lemma mirrors_tick (F : Js.NumberFormat) now fetched g (w : World SqliteStore) :
  mirrors w → mirrors (TickTs.executeGroupTick now fetched g w).2.
Proof.
  intros Hw. unfold TickTs.executeGroupTick. destruct fetched as [pr|]; [| exact Hw].
  pose proof (mirrors_tick_alerts F now (price pr) (alertIds g) w Hw) as Hloop.
  destruct (TickTs.tick_alerts now (price pr) (alertIds g) w) as [w1 threw].
  cbn [fst] in Hloop. destruct threw; cbn [snd]; [exact Hloop |].
  unfold mirrors in *. cbn [engine store].
  now rewrite (proj1 (reschedule_rules _ _ _)).
Qed.

Lemma tick_group_invariant (F : Js.NumberFormat) now fetched g (w : World SqliteStore) :
  group_invariant (engine w) →
  group_invariant (engine (TickTs.executeGroupTick now fetched g w).2).
Proof.
  intros Hinv. unfold TickTs.executeGroupTick. destruct fetched as [pr|]; [| exact Hinv].
  pose proof (proj1 (tick_alerts_touches_only F sqlite_store now (price pr)
                       (alertIds g) w)) as Hloop.
  destruct (TickTs.tick_alerts now (price pr) (alertIds g) w) as [w1 threw].
  cbn [fst] in Hloop.
  destruct (tick_effect_of_loop now g w w1 threw Hloop) as (_ & Hkeep & _).
  destruct threw; apply Hkeep, Hinv.
Qed.

(** *** Routes *)

Lemma mirrors_post (F : Js.NumberFormat) now parsed (w : World SqliteStore) :
  mirrors w → mirrors (AlertRoutes.post_alert now parsed w).2.
Proof.
  intros Hw. unfold AlertRoutes.post_alert, AlertRoutes.createAlert.
  case_bool_decide as Hfresh; cbn [orb snd]; [exact Hw |].
  destruct (PrimFloat.is_nan (threshold parsed)); cbn [snd]; [exact Hw |].
  destruct Hw as (Hnd & Hrow & Hidx).
  assert (Hnew : ∀ row, row ∈ alerts_table (store w) → id row ≠ id parsed).
  { intros row Hin Heq. apply Hfresh. rewrite <- Heq. now apply list_elem_of_fmap_2. }
  split; cbn [store engine alerts_table].
  { rewrite fmap_app. simpl. apply NoDup_app. split; [exact Hnd |]. split.
    - intros x Hx [-> | []%elem_of_nil]%elem_of_cons.
      contradiction.
    - apply NoDup_singleton. }
  destruct (is_enabled parsed) eqn:Hon.
  - destruct (applyChange_enabling now no_telegram Upsert parsed (engine w))
      as [Hby _]; [discriminate | exact Hon |].
    rewrite Hby. split.
    + intros i aw [[<- <-] | [_ Hold]]%lookup_insert_Some.
      * exists (AlertRoutes.stored_rule parsed). split; [apply elem_of_app; right; left |].
        split; [reflexivity |]. split; [exact Hon | repeat split].
      * destruct (Hrow i aw Hold) as (row & Hin & Hrest).
        exists row. split; [apply elem_of_app; now left | exact Hrest].
    + intros row [Hin | ->%list_elem_of_singleton]%elem_of_app Hen.
      * rewrite lookup_insert_ne by (apply not_eq_sym, Hnew, Hin). now apply Hidx.
      * rewrite lookup_insert_eq. now eexists.
  - destruct (applyChange_removing now no_telegram Upsert parsed (engine w))
      as [Hby _]; [now right |].
    rewrite Hby. split.
    + intros i aw [_ Hold]%lookup_delete_Some.
      destruct (Hrow i aw Hold) as (row & Hin & Hrest).
      exists row. split; [apply elem_of_app; now left | exact Hrest].
    + intros row [Hin | ->%list_elem_of_singleton]%elem_of_app Hen;
        [| cbn in Hen; congruence].
      rewrite lookup_delete_ne by (apply not_eq_sym, Hnew, Hin). now apply Hidx.
Qed.

Lemma updateAlert_is_enabled_rows i body (s : SqliteStore) :
  alerts_table (AlertRoutes.updateAlert_is_enabled i body s)
  = (λ r, if String.eqb (id r) i
          then match body with Some b => set_enabled b r | None => r end
          else r) <$> alerts_table s.
Proof.
  destruct body as [b|]; simpl; [reflexivity |].
  rewrite <- (list_fmap_id (alerts_table s)) at 1.
  apply list_fmap_ext. intros k r _. now destruct (String.eqb (id r) i).
Qed.

Lemma mirrors_patch (F : Js.NumberFormat) now i body (w : World SqliteStore) :
  mirrors w → mirrors (AlertRoutes.patch_alert now i body w).2.
Proof.
  intros Hw. unfold AlertRoutes.patch_alert.
  destruct (AlertRoutes.getAlert i (store w)) as [existing|] eqn:Hex; [| exact Hw].
  set (f := λ r : Alert, if String.eqb (id r) i
                         then match body with Some b => set_enabled b r | None => r end
                         else r).
  assert (Hfid : ∀ r, id (f r) = id r).
  { intros r. unfold f. destruct (String.eqb (id r) i); [destruct body |]; reflexivity. }
  assert (Hfne : ∀ r, id r ≠ i → f r = r).
  { intros r Hne. unfold f. destruct (String.eqb_spec (id r) i); [contradiction | easy]. }
  pose proof (updateAlert_is_enabled_rows i body (store w)) as Hrows. fold f in Hrows.
  assert (Hup : AlertRoutes.getAlert i (AlertRoutes.updateAlert_is_enabled i body (store w))
                = Some (f existing)).
  { unfold AlertRoutes.getAlert in *. rewrite Hrows, (find_fmap_same_id f i _ Hfid), Hex.
    reflexivity. }
  rewrite Hup. cbn [snd].
  destruct (getAlert_Some _ _ _ Hex) as [Hexin Hexid].
  destruct Hw as (Hnd & Hrow & Hidx).
  split; cbn [store engine].
  { rewrite Hrows, <- list_fmap_compose.
    rewrite (list_fmap_ext (id ∘ f) id (alerts_table (store w))); [exact Hnd |].
    intros k r _. simpl. apply Hfid. }
  rewrite Hrows.
  assert (Hidf : id (f existing) = i) by now rewrite Hfid.
  destruct (is_enabled (f existing)) eqn:Hon.
  - destruct (applyChange_enabling now no_telegram Update (f existing) (engine w))
      as [Hby _]; [discriminate | exact Hon |].
    rewrite Hby, Hidf. split.
    + intros j aw [[<- <-] | [Hne Hold]]%lookup_insert_Some.
      * exists (f existing). split; [now apply list_elem_of_fmap_2 |].
        split; [exact Hidf |]. split; [exact Hon | repeat split].
      * destruct (Hrow j aw Hold) as (row & Hin & Hid & Hrest).
        exists row. split; [| split; [exact Hid | exact Hrest]].
        rewrite <- (Hfne row) by congruence. now apply list_elem_of_fmap_2.
    + intros row' (row & -> & Hin)%list_elem_of_fmap Hen. rewrite Hfid.
      destruct (decide (id row = i)) as [-> | Hne].
      * rewrite lookup_insert_eq. now eexists.
      * rewrite lookup_insert_ne by congruence. apply Hidx; [exact Hin |].
        now rewrite <- (Hfne row Hne).
  - destruct (applyChange_removing now no_telegram Update (f existing) (engine w))
      as [Hby _]; [now right |].
    rewrite Hby, Hidf. split.
    + intros j aw [Hne Hold]%lookup_delete_Some.
      destruct (Hrow j aw Hold) as (row & Hin & Hid & Hrest).
      exists row. split; [| split; [exact Hid | exact Hrest]].
      rewrite <- (Hfne row) by congruence. now apply list_elem_of_fmap_2.
    + intros row' (row & -> & Hin)%list_elem_of_fmap Hen. rewrite Hfid.
      destruct (decide (id row = i)) as [Heq | Hne].
      * assert (row = existing) by (apply (unique_row _ _ _ Hnd Hin Hexin); congruence).
        subst row. congruence.
      * rewrite lookup_delete_ne by congruence. apply Hidx; [exact Hin |].
        now rewrite <- (Hfne row Hne).
Qed.

Lemma mirrors_delete (F : Js.NumberFormat) now i (w : World SqliteStore) :
  mirrors w → mirrors (AlertRoutes.delete_alert now i w).2.
Proof.
  intros Hw. unfold AlertRoutes.delete_alert.
  destruct (AlertRoutes.getAlert i (store w)) as [existing|] eqn:Hex; [| exact Hw].
  unfold AlertRoutes.deleteAlert. case_bool_decide as Hheld; [exact Hw |].
  destruct (getAlert_Some _ _ _ Hex) as [_ Hexid].
  destruct Hw as (Hnd & Hrow & Hidx).
  destruct (applyChange_removing now no_telegram Delete existing (engine w))
    as [Hby _]; [now left |].
  split; cbn [snd store engine alerts_table].
  { eapply sublist_NoDup; [exact Hnd |]. apply fmap_sublist, sublist_filter. }
  rewrite Hby, Hexid. split.
  - intros j aw [Hne Hold]%lookup_delete_Some.
    destruct (Hrow j aw Hold) as (row & Hin & Hid & Hrest).
    exists row. split; [| split; [exact Hid | exact Hrest]].
    apply list_elem_of_filter. split; [congruence | exact Hin].
  - intros row [Hne Hin]%list_elem_of_filter Hen.
    rewrite lookup_delete_ne by congruence. now apply Hidx.
Qed.

Lemma handle_keeps (F : Js.NumberFormat) now c (w : World SqliteStore) :
  mirrors w ∧ group_invariant (engine w) →
  mirrors (AlertRoutes.handle now c w)
  ∧ group_invariant (engine (AlertRoutes.handle now c w)).
Proof.
  intros [Hm Hg].
  destruct c as [parsed | i b | i | | fetched g]; cbn [AlertRoutes.handle].
  - split; [now apply mirrors_post |].
    unfold AlertRoutes.post_alert.
    destruct (AlertRoutes.createAlert _ _); cbn [snd engine];
      [now apply applyChange_invariant | exact Hg].
  - split; [now apply mirrors_patch |].
    unfold AlertRoutes.patch_alert.
    destruct (AlertRoutes.getAlert i (store w)); [| exact Hg].
    destruct (AlertRoutes.getAlert i _); cbn [snd engine];
      [now apply applyChange_invariant | exact Hg].
  - split; [now apply mirrors_delete |].
    unfold AlertRoutes.delete_alert.
    destruct (AlertRoutes.getAlert i (store w)); [| exact Hg].
    destruct (AlertRoutes.deleteAlert i (store w)); cbn [snd engine];
      [now apply applyChange_invariant | exact Hg].
  - unfold AlertRoutes.rebuild. cbn [snd engine].
    split; [apply mirrors_rebuild, Hm |].
    destruct (getEnabledAlerts_rows (alerts_table (store w)) (proj1 Hm)) as [Hnd Hen].
    now apply rebuildFromDb_invariant.
  - split; [now apply mirrors_tick | now apply tick_group_invariant].
Qed.

Lemma after_keeps (F : Js.NumberFormat) (h : list (Z * AlertRoutes.Call)) :
  ∀ w : World SqliteStore,
    mirrors w ∧ group_invariant (engine w) →
    mirrors (AlertRoutes.after h w) ∧ group_invariant (engine (AlertRoutes.after h w)).
Proof.
  unfold AlertRoutes.after.
  induction h as [|[now c] h IH]; intros w Hw; simpl; [exact Hw |].
  apply IH. now apply handle_keeps.
Qed.

(** X23.  TypeScript server.  Start the engine from a table of rules with
    distinct ids and let any history follow of rule creations (POST, after
    validation), enable/disable requests (PATCH), deletions (DELETE),
    rebuild requests and group ticks, each run to completion.  A request
    that the store rejects is answered 500 and changes nothing: a POST
    whose id is taken or whose threshold is NaN, and a DELETE of a rule
    that an event row refers to, that is, of a rule that has fired.  Then
    the engine watches exactly the enabled rules of the table: a rule is
    in the by-id index iff the table has an enabled row with its id; the
    indexed copy has the row's symbol, condition, threshold, interval and
    cooldown; and a group exists for a (symbol, interval) key iff some
    enabled row of the table has that pair.  Every indexed rule having a
    row, no insert of an event violates the foreign key: the loop of the
    next tick runs to its end. *)
Theorem scheduler_follows_the_store (F : Js.NumberFormat) (table : list Alert)
  (evs : list AlertEvent) (now0 : Z) (h : list (Z * AlertRoutes.Call)) :
  NoDup (id <$> table) →
  let w := AlertRoutes.after h
             (mkWorld (rebuildFromDb now0 (getEnabledAlerts table))
                (mkSqliteStore table evs) []) in
  (∀ i, is_Some (alertsById (engine w) !! i)
        ↔ ∃ row, row ∈ alerts_table (store w) ∧ id row = i ∧ is_enabled row = true)
  ∧ (∀ i aw, alertsById (engine w) !! i = Some aw →
       ∃ row, row ∈ alerts_table (store w) ∧ id row = i
              ∧ same_row row (alert aw))
  ∧ (∀ key, is_Some (groups (engine w) !! key)
            ↔ ∃ row, row ∈ alerts_table (store w) ∧ is_enabled row = true
                     ∧ key = makeGroupKey (symbol row) (poll_interval_sec row))
  ∧ (∀ now p ids, (TickTs.tick_alerts now p ids w).2 = false)
  ∧ (∀ now i, is_Some (AlertRoutes.getAlert i (store w)) →
       i ∈ alert_id <$> events_table (store w) →
       AlertRoutes.delete_alert now i w = (500, w)).
Proof.
  intros Hnd w.
  assert (Hw : mirrors w ∧ group_invariant (engine w)).
  { apply after_keeps. split; [now apply (mirrors_rebuild now0 (mkSqliteStore table evs)) |].
    destruct (getEnabledAlerts_rows table Hnd) as [Hnd' Hen].
    now apply rebuildFromDb_invariant. }
  clearbody w. destruct Hw as [Hm [Hindexed Habsent Hgroups]].
  pose proof Hm as (Hnd' & Hrow & Hidx).
  assert (Hsame : ∀ i aw, alertsById (engine w) !! i = Some aw →
            ∃ row, row ∈ alerts_table (store w) ∧ id row = i ∧ is_enabled row = true
                   ∧ same_row row (alert aw)).
  { intros i aw Hl. destruct (Hrow i aw Hl) as (row & Hin & Hid & Hon & Hs).
    exists row. split; [exact Hin |]. split; [exact Hid |]. split; [exact Hon |].
    destruct Hs as (? & ? & ? & ? & ? & ? & ? & ? & ? & _). simpl in *.
    repeat split; assumption. }
  split; [| split; [| split; [| split]]].
  - intros i. split.
    + intros [aw Hl]. destruct (Hsame i aw Hl) as (row & Hin & Hid & Hon & _).
      exists row. now repeat split.
    + intros (row & Hin & <- & Hon). now apply Hidx.
  - intros i aw Hl. destruct (Hsame i aw Hl) as (row & Hin & Hid & _ & Hs).
    exists row. split; [exact Hin |]. split; [exact Hid | exact Hs].
  - intros key. split.
    + intros [g Hg]. destruct (Hgroups key g Hg) as [Hne _].
      destruct (alertIds g) as [|i ids] eqn:Hids; [contradiction |].
      assert (Hmem : member (groups (engine w)) i key).
      { exists g. split; [exact Hg |]. rewrite Hids. left. }
      destruct (alertsById (engine w) !! i) as [aw|] eqn:Hl.
      * destruct (Hindexed i aw Hl) as (_ & _ & Hkeys).
        apply Hkeys in Hmem. subst key.
        destruct (Hsame i aw Hl) as (row & Hin & _ & Hon & Hs).
        exists row. split; [exact Hin |]. split; [exact Hon |].
        destruct Hs as (_ & Hsym & _ & _ & Hitv & _). unfold current_key.
        now rewrite Hsym, Hitv.
      * exfalso. exact (Habsent i Hl key Hmem).
    + intros (row & Hin & Hon & ->).
      destruct (Hidx row Hin Hon) as [aw Hl].
      destruct (Hsame _ aw Hl) as (row' & Hin' & Hid' & _ & Hs).
      assert (row' = row) by (apply (unique_row _ _ _ Hnd' Hin' Hin); congruence).
      subst row'.
      destruct (Hindexed _ aw Hl) as (_ & _ & Hkeys).
      destruct (proj2 (Hkeys (current_key aw)) eq_refl) as (g & Hg & _).
      destruct Hs as (_ & Hsym & _ & _ & Hitv & _). unfold current_key in Hg.
      rewrite Hsym, Hitv in Hg. now exists g.
  - intros now p ids.
    destruct (tick_alerts_ts_completes F now p ids w
                (mirrors_every_rule_has_a_row w Hm)) as [-> _].
    reflexivity.
  - intros now i [existing Hex] Hev. unfold AlertRoutes.delete_alert. rewrite Hex.
    unfold AlertRoutes.deleteAlert. rewrite bool_decide_true; [reflexivity |].
    split; [| exact Hev].
    destruct (getAlert_Some _ _ _ Hex) as [Hin <-]. now apply list_elem_of_fmap_2.
Qed.

Lemma scheduler_follows_the_store_witness :
  let h := [(1000, AlertRoutes.Patch "r1" (Some false));
            (1001, AlertRoutes.Post (sol_rule true));
            (1005, AlertRoutes.Tick (Some (mkPriceResult 2000%float 1005))
                     (mkAlertGroup "ETHUSDT" 5 ["r2"] 1000));
            (1006, AlertRoutes.Remove "r2")] in
  let w := AlertRoutes.after (fmt := plain_format) h
             (mkWorld (rebuildFromDb 995 (getEnabledAlerts [cross_up_100; pct_up_5]))
                (mkSqliteStore [cross_up_100; pct_up_5] []) []) in
  let fired := [(1000, AlertRoutes.Tick (Some (mkPriceResult 50100%float 1000))
                         (single_rule_group 995 price_gte_50000))] in
  let w' := AlertRoutes.after (fmt := plain_format) fired
              (mkWorld (rebuildFromDb 995 (getEnabledAlerts [price_gte_50000]))
                 (mkSqliteStore [price_gte_50000] []) []) in
  alerts_table (store w) = [set_enabled false cross_up_100; sol_rule true]
  ∧ is_Some (groups (engine w) !! "SOLUSDT:10")
  ∧ ¬ is_Some (groups (engine w) !! "BTCUSDT:5")
  ∧ ¬ is_Some (groups (engine w) !! "ETHUSDT:5")
  ∧ alert_id <$> events_table (store w') = ["r1"]
  ∧ AlertRoutes.delete_alert 1001 "r1" w' = (500, w').
Proof.
  intros h w fired w'.
  assert (Hnd : NoDup (id <$> [cross_up_100; pct_up_5])).
  { refine (bool_decide_unpack _ _). vm_compute. exact I. }
  assert (Hnd' : NoDup (id <$> [price_gte_50000])).
  { refine (bool_decide_unpack _ _). vm_compute. exact I. }
  destruct (scheduler_follows_the_store plain_format [cross_up_100; pct_up_5] [] 995 h Hnd)
    as (_ & _ & Hg & _).
  destruct (scheduler_follows_the_store plain_format [price_gte_50000] [] 995 fired Hnd')
    as (_ & _ & _ & _ & Hdel).
  fold w in Hg. fold w' in Hdel.
  assert (Ht : alerts_table (store w) = [set_enabled false cross_up_100; sol_rule true])
    by (vm_compute; reflexivity).
  assert (He : alert_id <$> events_table (store w') = ["r1"])
    by (vm_compute; reflexivity).
  split; [exact Ht |].
  assert (Hno : ∀ key, key ≠ "SOLUSDT:10" → ¬ is_Some (groups (engine w) !! key)).
  { intros key Hne His. apply Hg in His as (row & Hin & Hon & Hkey).
    rewrite Ht in Hin.
    apply elem_of_cons in Hin as [-> | Hin]; [discriminate |].
    apply elem_of_cons in Hin as [-> | Hin]; [| now apply elem_of_nil in Hin].
    apply Hne. rewrite Hkey. vm_compute. reflexivity. }
  split; [| split; [apply Hno; discriminate | split; [apply Hno; discriminate |]]].
  - apply Hg. exists (sol_rule true). rewrite Ht.
    split; [right; left |]. split; [reflexivity | vm_compute; reflexivity].
  - split; [exact He |]. apply Hdel.
    + vm_compute. now eexists.
    + rewrite He. left.
Defined.

(** ** One user's requests and another user's rules (CommonJS server) *)

Lemma applyChange_frame now tg action a e j :
  j ≠ id a →
  alertsById (applyChange now tg action a e) !! j = alertsById e !! j
  ∧ ∀ key, member (groups (applyChange now tg action a e)) j key
           ↔ member (groups e) j key.
Proof.
  intros Hne.
  assert (Hcase : (action = Delete ∨ is_enabled a = false)
                  ∨ (action ≠ Delete ∧ is_enabled a = true)).
  { destruct action; destruct (is_enabled a); auto; right; split; congruence. }
  destruct Hcase as [Hoff | [Hact Hon]].
  - destruct (applyChange_removing now tg action a e Hoff) as [-> ->].
    split; [now apply lookup_delete_ne |].
    intros key. destruct (alertsById e !! id a); [| reflexivity].
    rewrite member_remove_from_group. tauto.
  - destruct (applyChange_enabling now tg action a e Hact Hon) as [-> _].
    split; [now apply lookup_insert_ne |].
    destruct (groups_after_enabling now tg action a e Hact Hon)
      as (gs1 & -> & [-> | (old & _ & _ & ->)]); intros key;
      rewrite member_add_to_group, ?member_remove_from_group; tauto.
Qed.

Lemma getAlert_cjs_Some (i : string) (d : JsonDb.Data) (r : Alert) :
  AlertRoutesCjs.getAlert i d = Some r → r ∈ JsonDb.alerts d ∧ id r = i.
Proof.
  unfold AlertRoutesCjs.getAlert. intros Hfind.
  apply find_some in Hfind as [Hin Heq].
  split; [now apply list_elem_of_In | now apply String.eqb_eq].
Qed.

Lemma updateAlert_is_enabled_keeps (i : string) (body : option bool) (d : JsonDb.Data)
  (r : Alert) :
  r ∈ JsonDb.alerts d → id r ≠ i →
  r ∈ JsonDb.alerts (AlertRoutesCjs.updateAlert_is_enabled i body d)
  ∧ JsonDb.users (AlertRoutesCjs.updateAlert_is_enabled i body d) = JsonDb.users d.
Proof.
  intros Hin Hne. unfold AlertRoutesCjs.updateAlert_is_enabled.
  destruct (list_find _ _) as [[index a]|] eqn:Hfind; [| now split].
  split; [| reflexivity]. simpl.
  apply list_find_Some in Hfind as (Hidx & Hid & _).
  apply list_elem_of_lookup in Hin as [k Hk].
  apply list_elem_of_lookup. exists k.
  rewrite list_lookup_insert_ne; [exact Hk |].
  intros <-. rewrite Hidx in Hk. injection Hk as <-. contradiction.
Qed.

(** X24.  CommonJS server, rules with distinct ids.  A PATCH or DELETE
    request on any rule id made in the session of user [u] leaves every
    rule of another owner alone: the rule stays in the store as it is,
    the indexed copy of it, if any, is the same object as before, it is a
    member of exactly the groups it was a member of, and the users are
    unchanged.  On a rule that is not [u]'s own the request answers 404
    and changes nothing at all. *)
Theorem cjs_requests_spare_other_owners (now : Z) (u i : string) (body : option bool)
  (d : JsonDb.Data) (e : Engine) (r : Alert) :
  NoDup (id <$> JsonDb.alerts d) →
  r ∈ JsonDb.alerts d → user_id r ≠ Some u →
  let patched := AlertRoutesCjs.patch_alert now u i body (d, e) in
  let deleted := AlertRoutesCjs.delete_alert now u i (d, e) in
  (r ∈ JsonDb.alerts patched.2.1 ∧ JsonDb.users patched.2.1 = JsonDb.users d
   ∧ alertsById patched.2.2 !! id r = alertsById e !! id r
   ∧ ∀ key, member (groups patched.2.2) (id r) key ↔ member (groups e) (id r) key)
  ∧ (r ∈ JsonDb.alerts deleted.2.1 ∧ JsonDb.users deleted.2.1 = JsonDb.users d
     ∧ alertsById deleted.2.2 !! id r = alertsById e !! id r
     ∧ ∀ key, member (groups deleted.2.2) (id r) key ↔ member (groups e) (id r) key)
  ∧ (id r = i → patched = (404, (d, e)) ∧ deleted = (404, (d, e))).
Proof.
  intros Hnd Hin Hother patched deleted. subst patched deleted.
  unfold AlertRoutesCjs.patch_alert, AlertRoutesCjs.delete_alert. cbn [fst snd].
  destruct (AlertRoutesCjs.getAlert i d) as [existing|] eqn:Hex;
    [| now repeat split].
  destruct (getAlert_cjs_Some _ _ _ Hex) as [Hexin Hexid].
  case_bool_decide as Hown; [| now repeat split].
  assert (Hne : id r ≠ i).
  { intros Heq. assert (r = existing)
      by (apply (unique_row _ _ _ Hnd Hin Hexin); congruence).
    subst r. contradiction. }
  split; [| split; [| intros Heq; contradiction]].
  - destruct (updateAlert_is_enabled_keeps i body d r Hin Hne) as [Hkept Husers].
    cbv zeta.
    destruct (AlertRoutesCjs.getAlert i (AlertRoutesCjs.updateAlert_is_enabled i body d))
      as [updated|] eqn:Hup; cbn [fst snd].
    + destruct (getAlert_cjs_Some _ _ _ Hup) as [_ Hupid].
      split; [exact Hkept |]. split; [exact Husers |].
      apply applyChange_frame. congruence.
    + now repeat split.
  - cbn [fst snd AlertRoutesCjs.deleteAlert JsonDb.alerts JsonDb.users].
    split; [apply list_elem_of_filter; now split |]. split; [reflexivity |].
    apply applyChange_frame. congruence.
Qed.

Lemma cjs_requests_spare_other_owners_witness :
  let d := JsonDb.mkData [] [price_gte_times None; bobs_rule] [] in
  let e := rebuildFromDb 995 [(no_telegram, price_gte_times None); (no_telegram, bobs_rule)] in
  let deleted := AlertRoutesCjs.delete_alert 1000 "u1" "r9" (d, e) in
  deleted.1 = 200
  ∧ JsonDb.alerts deleted.2.1 = [bobs_rule]
  ∧ alertsById deleted.2.2 !! "r8" = alertsById e !! "r8"
  ∧ AlertRoutesCjs.delete_alert 1000 "u1" "r8" (d, e) = (404, (d, e))
  ∧ AlertRoutesCjs.patch_alert 1000 "u1" "r8" (Some false) (d, e) = (404, (d, e)).
Proof.
  intros d e deleted.
  assert (Hnd : NoDup (id <$> JsonDb.alerts d)).
  { refine (bool_decide_unpack _ _). vm_compute. exact I. }
  assert (Hin : bobs_rule ∈ JsonDb.alerts d) by (right; left).
  assert (Hother : user_id bobs_rule ≠ Some "u1") by discriminate.
  destruct (cjs_requests_spare_other_owners 1000 "u1" "r9" None d e bobs_rule
              Hnd Hin Hother) as (_ & (_ & _ & Hidx & _) & _).
  destruct (cjs_requests_spare_other_owners 1000 "u1" "r8" (Some false) d e bobs_rule
              Hnd Hin Hother) as (_ & _ & H404).
  destruct (H404 eq_refl) as [Hp Hd].
  split; [reflexivity |]. split; [vm_compute; reflexivity |].
  split; [exact Hidx |]. split; [exact Hd | exact Hp].
Defined.
